(** * IP Subnet Game: the subnet arithmetic of [ipUtils.js] and the quiz
    session of [App.svelte], embedded in Rocq.

    Layout of the development:
    - [JS]      the JavaScript primitives the program relies on
                (strings, [parseInt], [Number.prototype.toString],
                32-bit bitwise operators);
    - [IpUtils] the functions of [src/utils/ipUtils.js];
    - [App]     the script block of [src/App.svelte] together with the
                enabling conditions its template puts on the handlers;
    - the specification-side definitions and the theorems.

    Modelling conventions.
    - A JavaScript string is a [string]: the sequence of its code units,
      taken below 256 (a character is identified with its Latin-1 code).
    - A JavaScript number is a [number]: [NaN], or [Num z] for the double of
      integer value [z].  Doubles represent integers exactly up to 2^53 in
      magnitude; every number the program computes from a validated address
      stays far below that.  [parseInt] on a numeral beyond that range would
      round, which [Num] does not track: statements that depend on the value
      of an arbitrary user numeral carry the hypothesis [safeInput].  The
      counters of the session are integers of [Z].
    - [undefined], read from an array past its end, only ever flows into
      [<<] and [+], where it behaves as [NaN] does; it is read as [NaN].
    - [Math.random()] is a sequence [random : nat -> Q] of rationals (every
      double is one) and a counter of the calls made so far.  A draw times
      256 or 8 is exact; a draw times [hostBits - 1] in
      [generateIpInNetwork] rounds to the nearest double, ties to even
      ([times]), and the statements about it take the draw to be a double
      ([isDouble]). *)

From Stdlib Require Import ZArith QArith Qround List Bool Lia.
From Stdlib Require Import Strings.Ascii Strings.String.
From Stdlib Require Import Numbers.DecimalString Numbers.DecimalZ Numbers.DecimalN
  Numbers.DecimalPos Numbers.DecimalFacts.
Import ListNotations.

#[local] Open Scope string_scope.
#[local] Open Scope Z_scope.

(* ================================================================== *)
(** * JavaScript primitives *)
(* ================================================================== *)

Module JS.

(** ** Numbers *)

Inductive number : Type :=
| NaN
| Num (z : Z).

Definition isNaN (x : number) : bool :=
  match x with NaN => true | Num _ => false end.

(** [x + y] on numbers. *)
Definition add (x y : number) : number :=
  match x, y with
  | Num a, Num b => Num (a + b)
  | _, _ => NaN
  end.

(** [x - y] on numbers. *)
Definition sub (x y : number) : number :=
  match x, y with
  | Num a, Num b => Num (a - b)
  | _, _ => NaN
  end.

(** [x < y] and [x > y]: false as soon as one side is [NaN]. *)
Definition lt (x y : number) : bool :=
  match x, y with
  | Num a, Num b => a <? b
  | _, _ => false
  end.

Definition gt (x y : number) : bool := lt y x.

(** [x === y] on numbers: [NaN] equals nothing. *)
Definition strict_eq (x y : number) : bool :=
  match x, y with
  | Num a, Num b => a =? b
  | _, _ => false
  end.

(** ** 32-bit conversions and bitwise operators *)

Definition two32 : Z := 2 ^ 32.
Definition two31 : Z := 2 ^ 31.

(** [ToUint32]: reduction modulo 2^32; [NaN] goes to 0. *)
Definition ToUint32 (x : number) : Z :=
  match x with
  | NaN => 0
  | Num z => z mod two32
  end.

(** [ToInt32]: the representative of the same class in [-2^31, 2^31). *)
Definition ToInt32 (x : number) : Z :=
  let u := ToUint32 x in
  if u <? two31 then u else u - two32.

(** [x << k], for a constant shift count [0 <= k < 32]. *)
Definition shl (x : number) (k : Z) : number :=
  Num (ToInt32 (Num (Z.shiftl (ToInt32 x) k))).

(** [x >>> k], for a constant shift count [0 <= k < 32]. *)
Definition ushr (x : number) (k : Z) : number :=
  Num (Z.shiftr (ToUint32 x) k).

(** [x & y]. *)
Definition band (x y : number) : number :=
  Num (Z.land (ToInt32 x) (ToInt32 y)).

(** [x | y]. *)
Definition bor (x y : number) : number :=
  Num (Z.lor (ToInt32 x) (ToInt32 y)).

(** [~x]. *)
Definition bnot (x : number) : number :=
  Num (Z.lnot (ToInt32 x)).

(** ** Strings *)

(** White space as [String.prototype.trim] and [parseInt] see it: TAB, LF,
    VT, FF, CR, SP and NBSP are the code units below 256 in that class. *)
Definition isWhiteSpace (c : ascii) : bool :=
  match nat_of_ascii c with
  | 9%nat | 10%nat | 11%nat | 12%nat | 13%nat | 32%nat | 160%nat => true
  | _ => false
  end.

Fixpoint trimStart (s : string) : string :=
  match s with
  | "" => ""
  | String c r => if isWhiteSpace c then trimStart r else s
  end.

Fixpoint trimEnd (s : string) : string :=
  match s with
  | "" => ""
  | String c r =>
      let r' := trimEnd r in
      if isWhiteSpace c && (r' =? "")%string then "" else String c r'
  end.

(** [s.trim()]. *)
Definition trim (s : string) : string := trimEnd (trimStart s).

(** [s.split(sep)] for a one-character separator: never the empty array. *)
Fixpoint split (sep : ascii) (s : string) : list string :=
  match s with
  | "" => [""]
  | String c r =>
      if Ascii.eqb c sep then "" :: split sep r
      else match split sep r with
           | p :: ps => String c p :: ps
           | [] => [String c ""]
           end
  end.

(** [parts.join(sep)] on an array of strings. *)
Fixpoint join (sep : string) (parts : list string) : string :=
  match parts with
  | [] => ""
  | [p] => p
  | p :: ps => p ++ sep ++ join sep ps
  end.

(** [s.padStart(n, fill)] for a one-character fill. *)
Definition padStart (n : nat) (fill : ascii) (s : string) : string :=
  string_of_list_ascii (repeat fill (n - String.length s)) ++ s.

(** A string in a boolean context: only the empty string is falsy. *)
Definition truthy (s : string) : bool := negb (s =? "")%string.

(** [a || b] where [a] is a string, [null] or [undefined]. *)
Definition or_else (a : option string) (b : string) : string :=
  match a with
  | Some s => if truthy s then s else b
  | None => b
  end.

(** ** [parseInt (s, 10)] *)

Definition digit (c : ascii) : option (Decimal.uint -> Decimal.uint) :=
  match c with
  | "0" => Some Decimal.D0 | "1" => Some Decimal.D1 | "2" => Some Decimal.D2
  | "3" => Some Decimal.D3 | "4" => Some Decimal.D4 | "5" => Some Decimal.D5
  | "6" => Some Decimal.D6 | "7" => Some Decimal.D7 | "8" => Some Decimal.D8
  | "9" => Some Decimal.D9
  | _ => None
  end%char.

(** The longest prefix of decimal digits, most significant digit first. *)
Fixpoint digits (s : string) : Decimal.uint :=
  match s with
  | "" => Decimal.Nil
  | String c r =>
      match digit c with
      | Some d => d (digits r)
      | None => Decimal.Nil
      end
  end.

(** An optional sign in front of the digits. *)
Definition sign (s : string) : bool * string :=
  match s with
  | String "-" r => (true, r)
  | String "+" r => (false, r)
  | _ => (false, s)
  end.

Definition noDigit (d : Decimal.uint) : bool :=
  match d with Decimal.Nil => true | _ => false end.

(** Leading white space is skipped, one sign is accepted, then the longest
    run of digits is read and whatever follows is ignored; no digit at all
    gives [NaN].  With the radix given as 10 no [0x] prefix is recognised. *)
Definition parseInt (s : string) : number :=
  let '(negative, body) := sign (trimStart s) in
  let d := digits body in
  if noDigit d then NaN
  else Num (if negative then - Z.of_uint d else Z.of_uint d).

(** ** [Number.prototype.toString] *)

(** [z.toString()], radix 10. *)
Definition decimalOf (z : Z) : string :=
  NilEmpty.string_of_int (Z.to_int z).

Fixpoint binary_pos (p : positive) (acc : string) : string :=
  match p with
  | xH => String "1" acc
  | xO q => binary_pos q (String "0" acc)
  | xI q => binary_pos q (String "1" acc)
  end.

(** [z.toString(2)]. *)
Definition binaryOf (z : Z) : string :=
  match z with
  | Z0 => "0"
  | Zpos p => binary_pos p ""
  | Zneg p => String "-" (binary_pos p "")
  end.

(** [x.toString(radix)] for radix 10 and radix 2. *)
Definition toString (x : number) : string :=
  match x with NaN => "NaN" | Num z => decimalOf z end.

Definition toString2 (x : number) : string :=
  match x with NaN => "NaN" | Num z => binaryOf z end.

(** [Math.floor (u * n)] for a draw [u] of the random source and a scale
    [n] that is a power of two, where the product of two numbers is exact
    (the scales 256 and the 8 masks of the pool). *)
Definition floor_scaled (u : Q) (n : Z) : Z := Qfloor (u * inject_Z n).

(** ** Products that round *)

(** The integer nearest to [x], the even one of the two when [x] lies
    halfway. *)
Definition roundTiesToEven (x : Q) : Z :=
  let n := Qnum x in
  let d := Zpos (Qden x) in
  let f := n / d in
  match 2 * (n mod d) ?= d with
  | Lt => f
  | Gt => f + 1
  | Eq => if Z.even f then f else f + 1
  end.

(** [x * 2^k]. *)
Definition scale2 (x : Q) (k : Z) : Q :=
  if 0 <=? k then (x * inject_Z (2 ^ k))%Q else (x / inject_Z (2 ^ (- k)))%Q.

(** The number (an IEEE 754 binary64 value) nearest to a positive [x],
    ties to even: numbers are the multiples of [2^-1074] with at most 53
    significant bits, so that from [2^-1021] on the grid is coarser by
    [excess] bits.  The magnitudes met here stay far below [2^1024], where
    the format ends. *)
Definition nearest64 (x : Q) : Q :=
  let excess := Z.max 0 (Z.log2 (Qfloor (scale2 x 1074)) - 52) in
  let k := 1074 - excess in
  scale2 (inject_Z (roundTiesToEven (scale2 x k))) (- k).

Definition binary64 (x : Q) : Q :=
  match Qnum x with
  | Z0 => 0%Q
  | Zpos _ => nearest64 x
  | Zneg _ => (- nearest64 (- x))%Q
  end.

(** [x * y] on numbers: the exact product, rounded. *)
Definition times (x y : Q) : Q := binary64 (x * y).

(** The rationals that are numbers: those rounding leaves as they are. *)
Definition isDouble (x : Q) : bool := Qeq_bool (binary64 x) x.

(** ** [parseInt (s, 2)] *)

(** The longest prefix of binary digits, most significant first. *)
Fixpoint binaryDigits (s : string) : list bool :=
  match s with
  | "" => []
  | String c r =>
      if Ascii.eqb c "0" then false :: binaryDigits r
      else if Ascii.eqb c "1" then true :: binaryDigits r
      else []
  end.

(** The integer a run of binary digits writes. *)
Definition binaryValue (l : list bool) : Z :=
  fold_left (fun acc (b : bool) => 2 * acc + (if b then 1 else 0)) l 0.

(** As [parseInt (s, 10)], reading binary digits. *)
Definition parseInt2 (s : string) : number :=
  let '(negative, body) := sign (trimStart s) in
  match binaryDigits body with
  | [] => NaN
  | l => Num (if negative then - binaryValue l else binaryValue l)
  end.

(** ** Character classes used in the proofs *)

(** Strings made of digits and minus signs only: what [toString] writes. *)
Definition plainChar (c : ascii) : bool :=
  match digit c with
  | Some _ => true
  | None => Ascii.eqb c "-"
  end.

Fixpoint plain (s : string) : bool :=
  match s with
  | "" => true
  | String c r => plainChar c && plain r
  end.

(** Strings without a dot: what [split] on dots returns. *)
Fixpoint noDot (s : string) : bool :=
  match s with
  | "" => true
  | String c r => negb (Ascii.eqb c ".") && noDot r
  end.

End JS.

(* ================================================================== *)
(** * [src/utils/ipUtils.js] *)
(* ================================================================== *)

Module IpUtils.
Import JS.

Definition dot : ascii := "."%char.
Definition newline : string := String (ascii_of_nat 10) "".

(** ** Validation results *)

(** The [error] carried by a failed validation.  The source has the message
    texts only, [error_message] gives them back; the constructors are named
    after the specification's error taxonomy, [Required] being the one
    message that taxonomy has no name for.  Octet indices are 1-based, as
    in the messages. *)
Inductive ValidationError : Type :=
| Required
| MissingOctets
| EmptyOctet (i : nat)
| OutOfRange (i : nat)
| NonContiguousMask.

Definition error_message (e : ValidationError) : string :=
  match e with
  | Required => "IP address is required"
  | MissingOctets => "IP address must contain exactly 4 octets"
  | EmptyOctet i => "Octet " ++ decimalOf (Z.of_nat i) ++ " cannot be empty"
  | OutOfRange i =>
      "Octet " ++ decimalOf (Z.of_nat i) ++ " must be a number between 0 and 255"
  | NonContiguousMask =>
      "Invalid subnet mask: must be contiguous 1s followed by 0s"
  end.

(** [{ valid: false, error }] or [{ valid: true, normalizedIp }];
    [validateSubnetMask] answers [{ valid: true }], without [normalizedIp]. *)
Inductive validation : Type :=
| Invalid (error : ValidationError)
| Valid (normalizedIp : option string).

Definition valid (v : validation) : bool :=
  match v with Valid _ => true | Invalid _ => false end.

(** ** Conversions *)

Definition ipToBinary (ip : string) : string :=
  join "." (map (fun octet =>
                   let num := parseInt octet in
                   padStart 8 "0" (toString2 num))
                (split dot ip)).

(** One octet of [normalizeIpAddress]. *)
Definition normalizeOctet (octet : string) : string :=
  let trimmed := trim octet in
  if (trimmed =? "")%string then trimmed
  else
    let num := parseInt trimmed in
    if isNaN num then trimmed else toString num.

Definition normalizeIpAddress (ip : string) : string :=
  if negb (truthy ip) then ip
  else
    let parts := split dot ip in
    if negb (List.length parts =? 4)%nat then ip
    else join "." (map normalizeOctet parts).

(** The [for] loop of [validateIpAddress], from index [i] on: the error of
    the first octet that fails, if any does. *)
Fixpoint validateOctets (i : nat) (parts : list string) : option ValidationError :=
  match parts with
  | [] => None
  | p :: rest =>
      let octet := trim p in
      if (octet =? "")%string then Some (EmptyOctet (i + 1))
      else
        let num := parseInt octet in
        if isNaN num || lt num (Num 0) || gt num (Num 255)
        then Some (OutOfRange (i + 1))
        else validateOctets (i + 1) rest
  end.

Definition validateIpAddress (ip : string) : validation :=
  if negb (truthy ip) then Invalid Required
  else
    let normalizedIp := normalizeIpAddress ip in
    let parts := split dot normalizedIp in
    if negb (List.length parts =? 4)%nat then Invalid MissingOctets
    else
      match validateOctets 0 parts with
      | Some e => Invalid e
      | None => Valid (Some normalizedIp)
      end.

(** The scan of [validateSubnetMask] over the characters of [binary]:
    [false] as soon as a ['1'] comes after a ['0']. *)
Fixpoint onesThenZeros (foundZero : bool) (binary : string) : bool :=
  match binary with
  | "" => true
  | String c r =>
      if Ascii.eqb c "0" then onesThenZeros true r
      else if foundZero && Ascii.eqb c "1" then false
      else onesThenZeros foundZero r
  end.

Definition validateSubnetMask (subnetMask : string) : validation :=
  let validation := validateIpAddress subnetMask in
  if negb (valid validation) then validation
  else
    let parts := map parseInt (split dot subnetMask) in
    let binary := join "" (map (fun p => padStart 8 "0" (toString2 p)) parts) in
    if onesThenZeros false binary then Valid None
    else Invalid NonContiguousMask.

Definition ipToInt (ip : string) : number :=
  let parts := map parseInt (split dot ip) in
  add (add (add (shl (nth 0 parts NaN) 24) (shl (nth 1 parts NaN) 16))
           (shl (nth 2 parts NaN) 8))
      (nth 3 parts NaN).

Definition isIpInNetwork (ip networkAddress subnetMask : string) : bool :=
  let ipInt := ipToInt ip in
  let networkInt := ipToInt networkAddress in
  let maskInt := ipToInt subnetMask in
  strict_eq (band ipInt maskInt) (band networkInt maskInt).

Definition intToIp (ipInt : number) : string :=
  join "." (map toString
    [ band (ushr ipInt 24) (Num 255);
      band (ushr ipInt 16) (Num 255);
      band (ushr ipInt 8) (Num 255);
      band ipInt (Num 255) ]).

(** The number of ['1'] characters of a string:
    [s.split('').filter(bit => bit === '1').length]. *)
Fixpoint countOnes (s : string) : Z :=
  match s with
  | "" => 0
  | String c r => (if Ascii.eqb c "1" then 1 else 0) + countOnes r
  end.

(** The constants [explainNetworkMismatch] computes before it writes its
    text, under the names they have in the source. *)
Record mismatch : Type := {
  ipNetworkId : number;
  expectedNetworkId : number;
  ipBinary : string;
  networkBinary : string;
  maskBinary : string;
  ipNetworkIdBinary : string;
  expectedNetworkIdBinary : string;
  cidr : Z;
  hostBits : number;
  broadcastInt : number;
  broadcastAddress : string;
  firstHost : string;
  lastHost : string
}.

Definition mismatchOf (ip networkAddress subnetMask : string) : mismatch :=
  let ipInt := ipToInt ip in
  let networkInt := ipToInt networkAddress in
  let maskInt := ipToInt subnetMask in
  let ipNetworkId := band ipInt maskInt in
  let expectedNetworkId := band networkInt maskInt in
  let maskBinary := ipToBinary subnetMask in
  let hostBits := ushr (bnot maskInt) 0 in
  let broadcastInt := bor expectedNetworkId hostBits in
  {| ipNetworkId := ipNetworkId;
     expectedNetworkId := expectedNetworkId;
     ipBinary := ipToBinary ip;
     networkBinary := ipToBinary networkAddress;
     maskBinary := maskBinary;
     ipNetworkIdBinary := ipToBinary (intToIp ipNetworkId);
     expectedNetworkIdBinary := ipToBinary (intToIp expectedNetworkId);
     cidr := countOnes maskBinary;
     hostBits := hostBits;
     broadcastInt := broadcastInt;
     broadcastAddress := intToIp broadcastInt;
     firstHost := intToIp (add expectedNetworkId (Num 1));
     lastHost := intToIp (sub broadcastInt (Num 1)) |}.

Definition explainNetworkMismatch (ip networkAddress subnetMask : string) : string :=
  let m := mismatchOf ip networkAddress subnetMask in
  let explanation :=
    "Your IP address " ++ ip ++ " does not belong to the network "
      ++ networkAddress ++ "/" ++ decimalOf (cidr m) ++ "." ++ newline ++ newline in
  let explanation := explanation ++ "Here's why:" ++ newline ++ newline in
  let explanation := explanation ++ "1. Network ID Calculation:" ++ newline in
  let explanation := explanation
      ++ "   Network Address: " ++ networkAddress
      ++ " (" ++ networkBinary m ++ ")" ++ newline in
  let explanation := explanation
      ++ "   Subnet Mask:     " ++ subnetMask
      ++ " (" ++ maskBinary m ++ ")" ++ newline in
  let explanation := explanation
      ++ "   Network ID:      " ++ intToIp (expectedNetworkId m)
      ++ " (" ++ expectedNetworkIdBinary m ++ ")" ++ newline ++ newline in
  let explanation := explanation ++ "2. Your IP's Network ID:" ++ newline in
  let explanation := explanation
      ++ "   Your IP:         " ++ ip ++ " (" ++ ipBinary m ++ ")" ++ newline in
  let explanation := explanation
      ++ "   Subnet Mask:     " ++ subnetMask
      ++ " (" ++ maskBinary m ++ ")" ++ newline in
  let explanation := explanation
      ++ "   Calculated ID:   " ++ intToIp (ipNetworkId m)
      ++ " (" ++ ipNetworkIdBinary m ++ ")" ++ newline ++ newline in
  let explanation :=
    if negb (strict_eq (ipNetworkId m) (expectedNetworkId m)) then
      explanation ++ "3. The Problem:" ++ newline
        ++ "   Your IP's network ID (" ++ intToIp (ipNetworkId m)
        ++ ") does not match the required network ID ("
        ++ intToIp (expectedNetworkId m) ++ ")." ++ newline
        ++ "   This means your IP is in a different network."
        ++ newline ++ newline
    else explanation in
  let explanation := explanation
      ++ "4. Valid IP Range for this Network:" ++ newline in
  let explanation := explanation
      ++ "   Network Address: " ++ networkAddress ++ " (reserved)" ++ newline in
  let explanation := explanation
      ++ "   First Host:      " ++ firstHost m ++ newline in
  let explanation := explanation
      ++ "   Last Host:       " ++ lastHost m ++ newline in
  let explanation := explanation
      ++ "   Broadcast:       " ++ broadcastAddress m ++ " (reserved)"
      ++ newline ++ newline in
  explanation ++ "   Valid host IPs: " ++ firstHost m ++ " to " ++ lastHost m.

(** ** Generators; [u] is the value [Math.random()] returns. *)

Definition commonMasks : list string :=
  [ "255.255.255.0";   (* /24 *)
    "255.255.0.0";     (* /16 *)
    "255.0.0.0";       (* /8 *)
    "255.255.255.128"; (* /25 *)
    "255.255.255.192"; (* /26 *)
    "255.255.255.224"; (* /27 *)
    "255.255.254.0";   (* /23 *)
    "255.255.252.0" ]. (* /22 *)

(** [commonMasks[...]]: the index stays inside the array for every draw
    in [0, 1); outside it the source reads [undefined], given here as the
    empty string. *)
Definition generateRandomSubnetMask (u : Q) : string :=
  let i := floor_scaled u (Z.of_nat (List.length commonMasks)) in
  if i <? 0 then "" else nth (Z.to_nat i) commonMasks "".

(** The local [ipInt] of [generateIpInNetwork]; the draw is multiplied by
    [hostBits - 1], any integer from -1 up, so the product rounds. *)
Definition generateIpIntInNetwork (u : Q) (networkAddress subnetMask : string) : number :=
  let networkInt := ipToInt networkAddress in
  let maskInt := ipToInt subnetMask in
  let networkPrefix := band networkInt maskInt in
  let hostBits := ushr (bnot maskInt) 0 in
  let randomHost :=
    match sub hostBits (Num 1) with
    | Num n => Num (Qfloor (times u (inject_Z n)) + 1)
    | NaN => NaN
    end in
  bor networkPrefix randomHost.

Definition generateIpInNetwork (u : Q) (networkAddress subnetMask : string) : string :=
  let ipInt := generateIpIntInNetwork u networkAddress subnetMask in
  join "." (map toString
    [ band (ushr ipInt 24) (Num 255);
      band (ushr ipInt 16) (Num 255);
      band (ushr ipInt 8) (Num 255);
      band ipInt (Num 255) ]).

(** ** The functions the page does not call *)

Definition binaryToIp (binaryIp : string) : string :=
  join "." (map (fun binary => toString (parseInt2 binary))
                (split dot binaryIp)).

(** [u0] to [u3] are the values of the four calls of [Math.random()], in
    the order of the array literal. *)
Definition generateRandomIp (u0 u1 u2 u3 : Q) : string :=
  join "." (map toString
    [ Num (floor_scaled u0 256);
      Num (floor_scaled u1 256);
      Num (floor_scaled u2 256);
      Num (floor_scaled u3 256) ]).

End IpUtils.

(* ================================================================== *)
(** * [src/App.svelte] *)
(* ================================================================== *)

Module App.
Import JS IpUtils.

(** ** Game state *)

Record notation : Type := { decimal : string; binary : string }.

(** The object [generateResponse] builds. *)
Record response : Type := {
  providedIpAddress : notation;
  providedSubnetMask : notation;
  currentNetworkAddress : notation;
  currentSubnetMask : notation;
  isCorrect : bool;
  currentScore : Z;
  totalQuestionsAttempted : Z;
  message : string
}.

(** An element of [submissions]: [{ ...currentResponse, attemptNumber }]. *)
Record submission : Type := {
  entry : response;
  attemptNumber : Z
}.

(** The [let] variables of the script block; [randomCalls] counts the calls
    of [Math.random] made so far.  [submissions.push] adds at the end. *)
Record state : Type := {
  networkAddress : string;
  subnetMask : string;
  userInput : string;
  score : Z;
  correctAnswers : Z;
  totalAttempts : Z;
  gameCompleted : bool;
  submissions : list submission;
  currentResponse : option response;
  errorMessage : string;
  waitingForContinue : bool;
  randomCalls : nat
}.

Definition with_message (r : response) (m : string) : response :=
  {| providedIpAddress := providedIpAddress r;
     providedSubnetMask := providedSubnetMask r;
     currentNetworkAddress := currentNetworkAddress r;
     currentSubnetMask := currentSubnetMask r;
     isCorrect := isCorrect r;
     currentScore := currentScore r;
     totalQuestionsAttempted := totalQuestionsAttempted r;
     message := m |}.

Section Game.

(** The values successive calls of [Math.random] return. *)
Variable random : nat -> Q.

Definition initGame (st : state) : state :=
  let n := randomCalls st in
  let subnetMask := generateRandomSubnetMask (random n) in
  let randomIp :=
    join "." (map toString
      [ Num (floor_scaled (random (n + 1)) 256);
        Num (floor_scaled (random (n + 2)) 256);
        Num (floor_scaled (random (n + 3)) 256);
        Num 0 ]) in
  {| networkAddress := randomIp;
     subnetMask := subnetMask;
     userInput := "";
     score := score st;
     correctAnswers := correctAnswers st;
     totalAttempts := totalAttempts st;
     gameCompleted := gameCompleted st;
     submissions := submissions st;
     currentResponse := None;
     errorMessage := "";
     waitingForContinue := false;
     randomCalls := (n + 4)%nat |}.

Definition continueToNextQuestion (st : state) : state :=
  if correctAnswers st <? 5 then initGame st else st.

(** The variables as the script block declares them, before [initGame ()]
    runs on mount. *)
Definition declared : state :=
  {| networkAddress := "";
     subnetMask := "";
     userInput := "";
     score := 0;
     correctAnswers := 0;
     totalAttempts := 0;
     gameCompleted := false;
     submissions := [];
     currentResponse := None;
     errorMessage := "";
     waitingForContinue := false;
     randomCalls := 0 |}.

(** The state the page starts in. *)
Definition mounted : state := initGame declared.

Definition generateResponse (st : state) (isCorrect : bool) (message : string)
    (userIp userSubnet : option string) : response :=
  let ipToUse := or_else userIp (userInput st) in
  {| providedIpAddress :=
       {| decimal := ipToUse;
          binary := if truthy ipToUse then ipToBinary ipToUse else "" |};
     providedSubnetMask :=
       {| decimal := or_else userSubnet (subnetMask st);
          binary := ipToBinary (or_else userSubnet (subnetMask st)) |};
     currentNetworkAddress :=
       {| decimal := networkAddress st;
          binary := ipToBinary (networkAddress st) |};
     currentSubnetMask :=
       {| decimal := subnetMask st;
          binary := ipToBinary (subnetMask st) |};
     isCorrect := isCorrect;
     currentScore := score st;
     totalQuestionsAttempted := totalAttempts st;
     message := message |}.

(** Field updates of the running state, one per assigned variable. *)
Definition set_attempts (st : state) (n : Z) (err : string) : state :=
  {| networkAddress := networkAddress st; subnetMask := subnetMask st;
     userInput := userInput st; score := score st;
     correctAnswers := correctAnswers st; totalAttempts := n;
     gameCompleted := gameCompleted st; submissions := submissions st;
     currentResponse := currentResponse st; errorMessage := err;
     waitingForContinue := waitingForContinue st;
     randomCalls := randomCalls st |}.

Definition set_scores (st : state) (s c : Z) : state :=
  {| networkAddress := networkAddress st; subnetMask := subnetMask st;
     userInput := userInput st; score := s;
     correctAnswers := c; totalAttempts := totalAttempts st;
     gameCompleted := gameCompleted st; submissions := submissions st;
     currentResponse := currentResponse st; errorMessage := errorMessage st;
     waitingForContinue := waitingForContinue st;
     randomCalls := randomCalls st |}.

Definition set_flags (st : state) (completed waiting : bool) : state :=
  {| networkAddress := networkAddress st; subnetMask := subnetMask st;
     userInput := userInput st; score := score st;
     correctAnswers := correctAnswers st; totalAttempts := totalAttempts st;
     gameCompleted := completed; submissions := submissions st;
     currentResponse := currentResponse st; errorMessage := errorMessage st;
     waitingForContinue := waiting;
     randomCalls := randomCalls st |}.

Definition set_input (st : state) (text : string) : state :=
  {| networkAddress := networkAddress st; subnetMask := subnetMask st;
     userInput := text; score := score st;
     correctAnswers := correctAnswers st; totalAttempts := totalAttempts st;
     gameCompleted := gameCompleted st; submissions := submissions st;
     currentResponse := currentResponse st; errorMessage := errorMessage st;
     waitingForContinue := waitingForContinue st;
     randomCalls := randomCalls st |}.

(** [currentResponse = r; submissions.push ({ ...r, attemptNumber })]. *)
Definition record_response (st : state) (r : response) : state :=
  {| networkAddress := networkAddress st; subnetMask := subnetMask st;
     userInput := userInput st; score := score st;
     correctAnswers := correctAnswers st; totalAttempts := totalAttempts st;
     gameCompleted := gameCompleted st;
     submissions :=
       submissions st ++ [ {| entry := r; attemptNumber := totalAttempts st |} ];
     currentResponse := Some r; errorMessage := errorMessage st;
     waitingForContinue := waitingForContinue st;
     randomCalls := randomCalls st |}.

Definition handleSubmit (st : state) : state :=
  let st := set_attempts st (totalAttempts st + 1) "" in
  match validateIpAddress (userInput st) with
  | Invalid e =>
      let st := set_attempts st (totalAttempts st) (error_message e) in
      record_response st
        (generateResponse st false ("Validation error: " ++ error_message e)
           None None)
  | Valid n =>
      let normalizedIp := or_else n (userInput st) in
      let correct := isIpInNetwork normalizedIp (networkAddress st) (subnetMask st) in
      if correct then
        let st := set_scores st (score st + 1) (correctAnswers st + 1) in
        let r := generateResponse st true
                   ("Correct! The IP address " ++ normalizedIp
                      ++ " belongs to the network " ++ networkAddress st
                      ++ "/" ++ subnetMask st)
                   (Some normalizedIp) None in
        if 5 <=? correctAnswers st then
          let st := set_flags st true (waitingForContinue st) in
          record_response st (with_message r (message r ++ " Game completed!"))
        else
          let st := set_flags st (gameCompleted st) true in
          record_response st r
      else
        let explanation :=
          explainNetworkMismatch normalizedIp (networkAddress st) (subnetMask st) in
        let r := generateResponse st false explanation (Some normalizedIp) None in
        set_input (record_response st r) ""
  end.

Definition handleReset (st : state) : state :=
  initGame
    {| networkAddress := networkAddress st; subnetMask := subnetMask st;
       userInput := userInput st; score := 0;
       correctAnswers := 0; totalAttempts := 0;
       gameCompleted := false; submissions := [];
       currentResponse := None; errorMessage := "";
       waitingForContinue := false;
       randomCalls := randomCalls st |}.

(** [key] is [event.key]. *)
Definition handleKeyPress (key : string) (st : state) : state :=
  if (key =? "Enter")%string && negb (gameCompleted st) then handleSubmit st
  else st.

(** ** The template: which control reaches which handler, and when *)

Inductive event : Type :=
| TypeText (text : string)   (* [bind:value={userInput}] *)
| KeyPress (key : string)    (* [on:keypress={handleKeyPress}] *)
| ClickSubmit                (* [on:click={handleSubmit}] *)
| ClickContinue              (* [on:click={continueToNextQuestion}] *)
| ClickReset.                (* [on:click={handleReset}] *)

(** The text input sits in the [{#if !gameCompleted}] branch and is
    [disabled={gameCompleted || waitingForContinue}]. *)
Definition inputEnabled (st : state) : bool :=
  negb (gameCompleted st) && negb (gameCompleted st || waitingForContinue st).

(** The buttons: Continue under [{#if waitingForContinue}], Submit in its
    [{:else}] with [disabled={gameCompleted || !userInput.trim()}], both in
    the [{#if !gameCompleted}] branch; a reset button in either branch. *)
Definition enabled (e : event) (st : state) : bool :=
  match e with
  | TypeText _ | KeyPress _ => inputEnabled st
  | ClickSubmit =>
      negb (gameCompleted st) && negb (waitingForContinue st)
      && negb (gameCompleted st || negb (truthy (trim (userInput st))))
  | ClickContinue => negb (gameCompleted st) && waitingForContinue st
  | ClickReset => true
  end.

Definition handler (e : event) (st : state) : state :=
  match e with
  | TypeText text => set_input st text
  | KeyPress key => handleKeyPress key st
  | ClickSubmit => handleSubmit st
  | ClickContinue => continueToNextQuestion st
  | ClickReset => handleReset st
  end.

(** An event on a control the page does not offer changes nothing. *)
Definition dispatch (e : event) (st : state) : state :=
  if enabled e st then handler e st else st.

(** ** The session operations *)

(** [submit (raw)]: the text is in the input and Enter is pressed. *)
Definition submit (raw : string) (st : state) : state :=
  handleKeyPress "Enter" (set_input st raw).

(** Whether [handleSubmit] judges the text in the input correct. *)
Definition judgedCorrect (st : state) : bool :=
  match validateIpAddress (userInput st) with
  | Invalid _ => false
  | Valid n =>
      isIpInNetwork (or_else n (userInput st)) (networkAddress st) (subnetMask st)
  end.

(** States reached from the mounted page by calls of the handlers, in any
    order and whether or not the page offers the control. *)
Inductive reachable : state -> Prop :=
| reach_mounted : reachable mounted
| reach_handler e st : reachable st -> reachable (handler e st).

End Game.

(** ** [getFinalResults] *)

(** The objects [getFinalResults] builds, under the names they have in the
    source; [Final] keeps them apart from the fields of the state. *)
Module Final.

Record summary : Type := {
  attemptNumber : Z;
  providedIpAddress : notation;
  providedSubnetMask : notation;
  isCorrect : bool;
  message : string;
  scoreAtAttempt : Z
}.

Record results : Type := {
  gameCompleted : bool;
  totalScore : Z;
  totalCorrectAnswers : Z;
  totalQuestionsAttempted : Z;
  allSubmissions : list summary
}.

End Final.

Definition getFinalResults (st : state) : Final.results :=
  {| Final.gameCompleted := true;
     Final.totalScore := score st;
     Final.totalCorrectAnswers := correctAnswers st;
     Final.totalQuestionsAttempted := totalAttempts st;
     Final.allSubmissions :=
       map (fun sub =>
              {| Final.attemptNumber := attemptNumber sub;
                 Final.providedIpAddress := providedIpAddress (entry sub);
                 Final.providedSubnetMask := providedSubnetMask (entry sub);
                 Final.isCorrect := isCorrect (entry sub);
                 Final.message := message (entry sub);
                 Final.scoreAtAttempt := currentScore (entry sub) |})
           (submissions st) |}.

(** ** Sessions as the page lets them run *)

(** States reached from the mounted page by events on controls the page
    offers at that moment. *)
Inductive pageReachable (random : nat -> Q) : state -> Prop :=
| page_mounted : pageReachable random (mounted random)
| page_event e st :
    pageReachable random st -> enabled e st = true ->
    pageReachable random (handler random e st).

End App.

(* ================================================================== *)
(** * Specification-side definitions *)
(* ================================================================== *)

(** The data model and the reference functions the design document gives
    in words, against which the code is compared. *)
Module Spec.
Import JS IpUtils.

(** Four integer octets, octet 0 the most significant. *)
Record IPv4Address : Type := Octets {
  octet0 : Z;
  octet1 : Z;
  octet2 : Z;
  octet3 : Z
}.

Definition isOctet (z : Z) : Prop := 0 <= z <= 255.

Definition wellFormed (a : IPv4Address) : Prop :=
  isOctet (octet0 a) /\ isOctet (octet1 a) /\ isOctet (octet2 a) /\ isOctet (octet3 a).

(** The canonical text: dot-separated decimal without leading zeros. *)
Definition render (a : IPv4Address) : string :=
  join "." (map decimalOf [octet0 a; octet1 a; octet2 a; octet3 a]).

(** The unsigned 32-bit integer of an address: big-endian packing. *)
Definition toInt (a : IPv4Address) : Z :=
  octet0 a * 2 ^ 24 + octet1 a * 2 ^ 16 + octet2 a * 2 ^ 8 + octet3 a.

(** The address of an integer, read modulo 2^32. *)
Definition fromInt (u : Z) : IPv4Address :=
  Octets ((u / 2 ^ 24) mod 256) ((u / 2 ^ 16) mod 256)
         ((u / 2 ^ 8) mod 256) (u mod 256).

Definition uint32 (u : Z) : Prop := 0 <= u < 2 ^ 32.

(** A segment is blank when nothing is left of it after trimming. *)
Definition blank (segment : string) : bool := (trim segment =? "")%string.

(** The value of a segment: trimmed, read as a base-10 integer the way
    [parseInt] reads (an optional sign, then digits; what follows the
    digits is ignored), and in [0, 255]. *)
Definition octetValue (segment : string) : option Z :=
  match parseInt (trim segment) with
  | Num z => if (0 <=? z) && (z <=? 255) then Some z else None
  | NaN => None
  end.

(** One segment of [parseAndValidate], [i] its 1-based index. *)
Definition readOctet (i : nat) (segment : string) : ValidationError + Z :=
  if blank segment then inl (EmptyOctet i)
  else
    match octetValue segment with
    | Some z => inr z
    | None => inl (OutOfRange i)
    end.

(** The segments in order, [i] the 1-based index of the first: the first
    failure, or the values of all of them. *)
Fixpoint readOctets (i : nat) (segments : list string) : ValidationError + list Z :=
  match segments with
  | [] => inr []
  | s :: rest =>
      match readOctet i s with
      | inl e => inl e
      | inr z =>
          match readOctets (S i) rest with
          | inl e => inl e
          | inr zs => inr (z :: zs)
          end
      end
  end.

(** [parseAndValidate] as section 4.1 words it. *)
Definition parseAndValidate (raw : string) : validation :=
  let segments := split dot raw in
  if negb (List.length segments =? 4)%nat then Invalid MissingOctets
  else
    match readOctets 1 segments with
    | inl e => Invalid e
    | inr zs => Valid (Some (join "." (map decimalOf zs)))
    end.

(** A numeral read by [parseInt] is safe when a double holds it exactly. *)
Definition MAX_SAFE_INTEGER : Z := 2 ^ 53 - 1.

Definition safeInput (raw : string) : bool :=
  forallb (fun segment =>
             match parseInt segment with
             | Num z => Z.abs z <=? MAX_SAFE_INTEGER
             | NaN => true
             end)
          (split dot raw).

(** The address a text denotes: four segments, each read by [parseInt] as
    an octet. *)
Definition addressOf (text : string) : option IPv4Address :=
  match map parseInt (split dot text) with
  | [Num a; Num b; Num c; Num d] =>
      if forallb (fun z => (0 <=? z) && (z <=? 255)) [a; b; c; d]
      then Some (Octets a b c d) else None
  | _ => None
  end.

(** The unsigned 32-bit integer of a text that denotes an address. *)
Definition valueOf (text : string) : Z :=
  match addressOf text with
  | Some a => toInt a
  | None => 0
  end.

(** Bit positions [n-1] down to [0]. *)
Definition positions (n : nat) : list Z := map Z.of_nat (rev (seq 0 n)).

(** The low [n] bits of an integer, most significant first. *)
Definition bits (n : nat) (u : Z) : list bool := map (Z.testbit u) (positions n).

(** The 32 bits of an integer, most significant first. *)
Definition bits32 (u : Z) : list bool := bits 32 u.

(** Bits written out as binary digits. *)
Fixpoint bitString (l : list bool) : string :=
  match l with
  | [] => ""
  | b :: r => String (if b then "1" else "0")%char (bitString r)
  end.

(** A run of 1-bits followed by a run of 0-bits, either possibly empty. *)
Definition contiguous (bits : list bool) : Prop :=
  exists k : nat,
    (k <= List.length bits)%nat /\
    bits = (repeat true k ++ repeat false (List.length bits - k))%list.

(** A 1-bit that follows a 0-bit. *)
Definition oneAfterZero (bits : list bool) : Prop :=
  exists i j : nat,
    (i < j)%nat /\ nth_error bits i = Some false /\ nth_error bits j = Some true.

(** The number of 1-bits. *)
Definition popcount (u : Z) : Z :=
  Z.of_nat (List.length (filter (fun b => b) (bits32 u))).

(** The number of addresses a mask leaves to a network: the host mask
    plus one. *)
Definition hostSpan (mask : Z) : Z := 2 ^ 32 - mask.

(** A session that stands at [n] answers, all of them correct. *)
Definition at_count (n : Z) (st : App.state) : Prop :=
  App.gameCompleted st = (5 <=? n)
  /\ App.correctAnswers st = n /\ App.score st = n /\ App.totalAttempts st = n
  /\ List.length (App.submissions st) = Z.to_nat n.

(** A random source for examples: four draws of 0, then draws of 1/2. *)
Definition zeros_then_halves (n : nat) : Q :=
  if (n <? 4)%nat then 0%Q else (1 # 2)%Q.

(** The mask with a prefix of [k] ones, for [k] from 0 to 32. *)
Definition prefixMask (k : nat) : Z := 2 ^ 32 - 2 ^ (32 - Z.of_nat k).

(** The number of submissions judged correct in a history. *)
Definition correctCount (l : list App.Final.summary) : Z :=
  Z.of_nat (List.length (filter App.Final.isCorrect l)).

(** A mask is coarser than another when each of its 1-bits is a 1-bit of
    the other. *)
Definition coarser (coarse fine : Z) : Prop := Z.land coarse fine = coarse.

(** The states of a session, read off the two flags of the page. *)
Inductive phase : Type := AwaitingInput | AwaitingContinue | Completed.

Definition phaseOf (st : App.state) : phase :=
  if App.gameCompleted st then Completed
  else if App.waitingForContinue st then AwaitingContinue
  else AwaitingInput.

(** A history numbered from 1 in which every entry carries the number of
    entries judged correct up to and including itself. *)
Definition wellNumbered (l : list App.Final.summary) : Prop :=
  forall (pre : list App.Final.summary) (s : App.Final.summary)
         (post : list App.Final.summary),
    l = (pre ++ s :: post)%list ->
    App.Final.attemptNumber s = Z.of_nat (List.length pre) + 1
    /\ App.Final.scoreAtAttempt s = correctCount (pre ++ [s]).

(** The message of a response judged correct, [completing] when it is the
    fifth. *)
Definition correctMessage (ip networkAddress subnetMask : string)
    (completing : bool) : string :=
  ("Correct! The IP address " ++ ip ++ " belongs to the network "
     ++ networkAddress ++ "/" ++ subnetMask)
    ++ (if completing then " Game completed!" else "").

(** A state in which the last submission settled the question on display:
    the text in the input is judged correct, and the current response is
    the last entry of the history, judged correct, with the message of a
    correct answer. *)
Definition settled (st : App.state) : Prop :=
  App.judgedCorrect st = true
  /\ exists (r : App.response) (ip : string) (pre : list App.submission),
       App.currentResponse st = Some r
       /\ App.isCorrect r = true
       /\ IpUtils.isIpInNetwork ip (App.networkAddress st) (App.subnetMask st)
          = true
       /\ App.message r
          = correctMessage ip (App.networkAddress st) (App.subnetMask st)
              (App.gameCompleted st)
       /\ App.submissions st
          = (pre ++ [ {| App.entry := r;
                         App.attemptNumber := App.totalAttempts st |} ])%list.

(** What holds of the counters and flags while the page runs. *)
Definition orderly (st : App.state) : Prop :=
  0 <= App.correctAnswers st <= 5
  /\ App.correctAnswers st <= App.totalAttempts st
  /\ App.gameCompleted st = (5 <=? App.correctAnswers st)
  /\ (App.waitingForContinue st = true ->
      App.gameCompleted st = false /\ 1 <= App.correctAnswers st)
  /\ (App.waitingForContinue st = true \/ App.gameCompleted st = true ->
      settled st).

End Spec.

(* ================================================================== *)
(** * Facts about the JavaScript primitives *)
(* ================================================================== *)

Module JSFacts.
Import JS.

(** ** Trimming *)

Lemma trimEnd_idem (s : string) : trimEnd (trimEnd s) = trimEnd s.
Proof.
  induction s as [|c r IH]; simpl; [reflexivity|].
  destruct (isWhiteSpace c && (trimEnd r =? "")%string) eqn:E; simpl.
  - reflexivity.
  - now rewrite IH, E.
Qed.

Lemma trimStart_head (s : string) :
  trimStart s = "" \/
  exists c r, trimStart s = String c r /\ isWhiteSpace c = false.
Proof.
  induction s as [|c r IH]; simpl; [now left|].
  destruct (isWhiteSpace c) eqn:E; [exact IH|].
  right. now exists c, r.
Qed.

Lemma trimStart_fixed (c : ascii) (r : string) :
  isWhiteSpace c = false -> trimStart (String c r) = String c r.
Proof. intros E. simpl. now rewrite E. Qed.

Lemma trimEnd_head (c : ascii) (r : string) :
  isWhiteSpace c = false -> trimEnd (String c r) = String c (trimEnd r).
Proof. intros E. simpl. now rewrite E. Qed.

Lemma trim_idem (s : string) : trim (trim s) = trim s.
Proof.
  unfold trim.
  destruct (trimStart_head s) as [E | (c & r & E & W)]; rewrite E.
  - reflexivity.
  - rewrite (trimEnd_head _ _ W), (trimStart_fixed _ _ W).
    rewrite <- (trimEnd_head _ _ W). apply trimEnd_idem.
Qed.

(** ** [parseInt] reads past surrounding white space *)

Lemma digit_space (c : ascii) : isWhiteSpace c = true -> digit c = None.
Proof.
  destruct c as [[|] [|] [|] [|] [|] [|] [|] [|]]; simpl; intros E;
    first [reflexivity | discriminate E].
Qed.

Lemma digits_trimEnd (s : string) : digits (trimEnd s) = digits s.
Proof.
  induction s as [|c r IH]; simpl; [reflexivity|].
  destruct (isWhiteSpace c) eqn:W; simpl.
  - rewrite (digit_space _ W).
    destruct (trimEnd r =? "")%string; simpl; [reflexivity|].
    now rewrite (digit_space _ W).
  - now rewrite IH.
Qed.

Lemma sign_other (c : ascii) (r : string) :
  Ascii.eqb c "-" = false -> Ascii.eqb c "+" = false ->
  sign (String c r) = (false, String c r).
Proof.
  intros Em Ep. apply Ascii.eqb_neq in Em, Ep.
  destruct c as [[|] [|] [|] [|] [|] [|] [|] [|]];
    first [reflexivity | now elim Em | now elim Ep].
Qed.

Lemma parseInt_trim (s : string) : parseInt (trim s) = parseInt s.
Proof.
  unfold parseInt, trim.
  destruct (trimStart_head s) as [E | (c & r & E & W)]; rewrite E.
  - reflexivity.
  - rewrite (trimEnd_head _ _ W), (trimStart_fixed _ _ W).
    destruct (Ascii.eqb c "-") eqn:Em.
    { apply Ascii.eqb_eq in Em. subst c. cbn [sign]. now rewrite digits_trimEnd. }
    destruct (Ascii.eqb c "+") eqn:Ep.
    { apply Ascii.eqb_eq in Ep. subst c. cbn [sign]. now rewrite digits_trimEnd. }
    rewrite !(sign_other _ _ Em Ep).
    replace (digits (String c (trimEnd r))) with (digits (String c r))
      by (simpl; now rewrite digits_trimEnd).
    reflexivity.
Qed.

(** ** Decimal numerals *)

Lemma plainChar_not_space (c : ascii) :
  plainChar c = true -> isWhiteSpace c = false.
Proof.
  destruct c as [[|] [|] [|] [|] [|] [|] [|] [|]]; simpl; intros E;
    first [reflexivity | discriminate E].
Qed.

Lemma plainChar_not_dot (c : ascii) :
  plainChar c = true -> Ascii.eqb c "." = false.
Proof.
  destruct c as [[|] [|] [|] [|] [|] [|] [|] [|]]; simpl; intros E;
    first [reflexivity | discriminate E].
Qed.

Lemma plain_trimEnd (s : string) : plain s = true -> trimEnd s = s.
Proof.
  induction s as [|c r IH]; simpl; [reflexivity|].
  intros E. apply andb_true_iff in E as [Ec Er].
  now rewrite (plainChar_not_space _ Ec), (IH Er).
Qed.

Lemma plain_trim (s : string) : plain s = true -> trim s = s.
Proof.
  intros E. unfold trim. destruct s as [|c r]; [reflexivity|].
  pose proof E as E'. simpl in E'. apply andb_true_iff in E' as [Ec _].
  rewrite (trimStart_fixed _ _ (plainChar_not_space _ Ec)).
  now apply plain_trimEnd.
Qed.

Lemma plain_uint (u : Decimal.uint) : plain (NilEmpty.string_of_uint u) = true.
Proof. induction u; simpl; auto. Qed.

Lemma plain_decimalOf (z : Z) : plain (decimalOf z) = true.
Proof.
  unfold decimalOf. destruct (Z.to_int z); simpl; apply plain_uint.
Qed.

Lemma digits_uint (u : Decimal.uint) : digits (NilEmpty.string_of_uint u) = u.
Proof. induction u; simpl; now rewrite ?IHu. Qed.

Lemma to_uint_not_nil (p : positive) : Pos.to_uint p <> Decimal.Nil.
Proof.
  intros E. pose proof (DecimalPos.Unsigned.of_to p) as H.
  rewrite E in H. discriminate H.
Qed.

Lemma decimalOf_not_empty (z : Z) : decimalOf z <> "".
Proof.
  unfold decimalOf. destruct z as [|p|p]; simpl; try discriminate.
  pose proof (to_uint_not_nil p) as N.
  destruct (Pos.to_uint p); simpl; try discriminate. now elim N.
Qed.

(** [parseInt] reads back what [toString] wrote. *)
Lemma parseInt_uint (u : Decimal.uint) :
  u <> Decimal.Nil ->
  parseInt (NilEmpty.string_of_uint u) = Num (Z.of_uint u).
Proof.
  intros N. unfold parseInt.
  destruct u; try (now elim N); cbn [NilEmpty.string_of_uint];
    simpl trimStart; cbn [sign digits digit noDigit]; now rewrite digits_uint.
Qed.

Lemma parseInt_decimalOf (z : Z) : parseInt (decimalOf z) = Num z.
Proof.
  pose proof (DecimalZ.of_to z) as R.
  unfold decimalOf. destruct z as [|p|p]; [reflexivity| |].
  - cbn [Z.to_int NilEmpty.string_of_int Z.of_int] in *.
    rewrite (parseInt_uint _ (to_uint_not_nil p)). now rewrite R.
  - cbn [Z.to_int NilEmpty.string_of_int Z.of_int] in *.
    unfold parseInt. simpl trimStart. cbn [sign]. rewrite digits_uint.
    pose proof (to_uint_not_nil p) as N.
    destruct (Pos.to_uint p); try (now elim N); cbn [noDigit]; now rewrite R.
Qed.

(** ** Splitting and joining on dots *)

Lemma split_not_nil (sep : ascii) (s : string) : split sep s <> [].
Proof.
  destruct s as [|c r]; simpl; [discriminate|].
  destruct (Ascii.eqb c sep); [discriminate|].
  destruct (split sep r); discriminate.
Qed.

Lemma split_noDot (a : string) : noDot a = true -> split "." a = [a].
Proof.
  induction a as [|c r IH]; simpl; [reflexivity|].
  intros E. apply andb_true_iff in E as [Ec Er].
  apply negb_true_iff in Ec. now rewrite Ec, (IH Er).
Qed.

Lemma split_app_dot (a b : string) :
  noDot a = true -> split "." (a ++ String "." b) = a :: split "." b.
Proof.
  induction a as [|c r IH]; simpl; [reflexivity|].
  intros E. apply andb_true_iff in E as [Ec Er].
  apply negb_true_iff in Ec. now rewrite Ec, (IH Er).
Qed.

Lemma split_join (parts : list string) :
  parts <> [] -> Forall (fun p => noDot p = true) parts ->
  split "." (join "." parts) = parts.
Proof.
  induction parts as [|p ps IH]; [now intros N|].
  intros _ F. inversion F as [|? ? Hp Hps]; subst.
  destruct ps as [|q qs].
  - simpl. now apply split_noDot.
  - change (join "." (p :: q :: qs)) with (p ++ String "." (join "." (q :: qs))).
    rewrite (split_app_dot _ _ Hp). f_equal. apply IH; [discriminate|exact Hps].
Qed.

Lemma split_parts_noDot (s : string) :
  Forall (fun p => noDot p = true) (split "." s).
Proof.
  induction s as [|c r IH]; simpl; [now constructor|].
  destruct (Ascii.eqb c ".") eqn:E.
  - constructor; [reflexivity|exact IH].
  - destruct (split "." r) as [|p ps];
      [constructor; [simpl; now rewrite E | constructor]|].
    inversion IH; subst. constructor; [|assumption].
    simpl. now rewrite E.
Qed.

Lemma noDot_trimStart (s : string) : noDot s = true -> noDot (trimStart s) = true.
Proof.
  induction s as [|c r IH]; simpl; [reflexivity|].
  intros E. destruct (isWhiteSpace c); [|exact E].
  apply andb_true_iff in E as [_ Er]. now apply IH.
Qed.

Lemma noDot_trimEnd (s : string) : noDot s = true -> noDot (trimEnd s) = true.
Proof.
  induction s as [|c r IH]; simpl; [reflexivity|].
  intros E. apply andb_true_iff in E as [Ec Er].
  destruct (isWhiteSpace c && (trimEnd r =? "")%string); [reflexivity|].
  simpl. now rewrite Ec, (IH Er).
Qed.

Lemma noDot_trim (s : string) : noDot s = true -> noDot (trim s) = true.
Proof. intros E. unfold trim. now apply noDot_trimEnd, noDot_trimStart. Qed.

Lemma plain_noDot (s : string) : plain s = true -> noDot s = true.
Proof.
  induction s as [|c r IH]; simpl; [reflexivity|].
  intros E. apply andb_true_iff in E as [Ec Er].
  now rewrite (plainChar_not_dot _ Ec), (IH Er).
Qed.

Lemma length_string_of_list_ascii (l : list ascii) :
  String.length (string_of_list_ascii l) = List.length l.
Proof. induction l; simpl; now rewrite ?IHl. Qed.

Lemma append_assoc (a b c : string) : (a ++ b) ++ c = a ++ b ++ c.
Proof. induction a as [|x a IH]; simpl; now rewrite ?IH. Qed.

Lemma length_append (a b : string) :
  String.length (a ++ b) = (String.length a + String.length b)%nat.
Proof. induction a; simpl; now rewrite ?IHa. Qed.

End JSFacts.

(* ================================================================== *)
(** * Address validation against its specification *)
(* ================================================================== *)

Module ValidationFacts.
Import JS IpUtils Spec JSFacts.

Lemma eqb_empty_false (s : string) : s <> "" -> (s =? "")%string = false.
Proof. intros N. now apply String.eqb_neq. Qed.

Lemma range_check (z : Z) :
  isNaN (Num z) || lt (Num z) (Num 0) || gt (Num z) (Num 255)
  = negb ((0 <=? z) && (z <=? 255)).
Proof.
  unfold gt, lt, isNaN. simpl.
  destruct (z <? 0) eqn:A, (255 <? z) eqn:B, (0 <=? z) eqn:C, (z <=? 255) eqn:D;
    try reflexivity; lia.
Qed.

Lemma normalizeOctet_noDot (p : string) :
  noDot p = true -> noDot (normalizeOctet p) = true.
Proof.
  intros E. unfold normalizeOctet.
  destruct (trim p =? "")%string; [now apply noDot_trim|].
  destruct (parseInt (trim p)) as [|z]; simpl; [now apply noDot_trim|].
  apply plain_noDot, plain_decimalOf.
Qed.

Lemma normalizeOctet_cases (p : string) :
  (trim p = "" /\ normalizeOctet p = "")
  \/ (trim p <> "" /\ parseInt (trim p) = NaN /\ normalizeOctet p = trim p)
  \/ (exists z, trim p <> "" /\ parseInt (trim p) = Num z
                /\ normalizeOctet p = decimalOf z).
Proof.
  unfold normalizeOctet. destruct (trim p =? "")%string eqn:E.
  - apply String.eqb_eq in E. now left.
  - apply String.eqb_neq in E. right.
    destruct (parseInt (trim p)) as [|z]; cbn [isNaN toString].
    + now left.
    + right. now exists z.
Qed.

(** The check of the loop on a normalized octet is the reading of the raw
    segment. *)
Lemma validateOctets_normalized (parts : list string) (i : nat) :
  validateOctets i (map normalizeOctet parts)
  = match readOctets (S i) parts with inl e => Some e | inr _ => None end.
Proof.
  revert i. induction parts as [|p rest IH]; intros i; [reflexivity|].
  cbn [map validateOctets readOctets]. unfold readOctet, blank, octetValue.
  rewrite Nat.add_1_r.
  destruct (normalizeOctet_cases p) as [[T Q] | [(T & P & Q) | (z & T & P & Q)]];
    rewrite Q.
  - rewrite T. reflexivity.
  - rewrite trim_idem, (eqb_empty_false _ T), P. reflexivity.
  - rewrite (plain_trim _ (plain_decimalOf z)).
    rewrite (eqb_empty_false _ (decimalOf_not_empty z)), (eqb_empty_false _ T).
    rewrite parseInt_decimalOf, P, range_check.
    destruct ((0 <=? z) && (z <=? 255)); cbn [negb]; [|reflexivity].
    rewrite IH. now destruct (readOctets (S (S i)) rest).
Qed.

Lemma normalized_render (parts : list string) (i : nat) (zs : list Z) :
  readOctets i parts = inr zs -> map normalizeOctet parts = map decimalOf zs.
Proof.
  revert i zs. induction parts as [|p rest IH]; intros i zs; cbn [readOctets map].
  - now intros [= <-].
  - unfold readOctet, blank, octetValue.
    destruct (normalizeOctet_cases p) as [[T Q] | [(T & P & Q) | (z & T & P & Q)]];
      rewrite Q.
    + rewrite T. discriminate.
    + rewrite (eqb_empty_false _ T), P. discriminate.
    + rewrite (eqb_empty_false _ T), P.
      destruct ((0 <=? z) && (z <=? 255)); [|discriminate].
      destruct (readOctets (S i) rest) as [e|zs'] eqn:R; [discriminate|].
      intros [= <-]. cbn [map]. f_equal. now apply (IH (S i)).
Qed.

(** Apart from the empty text, the code validates as the specification
    words it. *)
Lemma validateIpAddress_refines (ip : string) :
  ip <> "" -> validateIpAddress ip = parseAndValidate ip.
Proof.
  intros N. unfold validateIpAddress, parseAndValidate, normalizeIpAddress, truthy.
  rewrite (eqb_empty_false _ N). cbn [negb]. unfold dot.
  destruct (List.length (split "." ip) =? 4)%nat eqn:L; cbn [negb].
  - assert (S : split "." (join "." (map normalizeOctet (split "." ip)))
                = map normalizeOctet (split "." ip)).
    { apply split_join.
      - intros E. apply map_eq_nil in E. now apply split_not_nil in E.
      - apply Forall_map. eapply Forall_impl; [|apply split_parts_noDot].
        intros p. apply normalizeOctet_noDot. }
    rewrite S, length_map, L. cbn [negb].
    rewrite validateOctets_normalized.
    destruct (readOctets 1 (split "." ip)) as [e|zs] eqn:R; [reflexivity|].
    now rewrite (normalized_render _ _ _ R).
  - now rewrite L.
Qed.

(** ** Valid texts and the addresses they denote *)

Lemma octet_test (z : Z) : (0 <=? z) && (z <=? 255) = true <-> isOctet z.
Proof. unfold isOctet. rewrite andb_true_iff, !Z.leb_le. tauto. Qed.

Lemma readOctet_inr (i : nat) (p : string) (z : Z) :
  readOctet i p = inr z <-> parseInt p = Num z /\ isOctet z.
Proof.
  unfold readOctet, blank, octetValue. rewrite <- (parseInt_trim p).
  destruct (trim p =? "")%string eqn:E.
  - apply String.eqb_eq in E. rewrite E. split; [discriminate|].
    intros [P _]. discriminate P.
  - destruct (parseInt (trim p)) as [|y].
    + split; [discriminate|]. intros [P _]. discriminate P.
    + destruct ((0 <=? y) && (y <=? 255)) eqn:R.
      * apply octet_test in R. split.
        -- intros [= <-]. now split.
        -- intros [[= <-] _]. reflexivity.
      * split; [discriminate|]. intros [[= <-] O].
        apply octet_test in O. congruence.
Qed.

Lemma addressOf_Some (text : string) (A : IPv4Address) :
  addressOf text = Some A <->
  wellFormed A /\
  map parseInt (split dot text)
  = [Num (octet0 A); Num (octet1 A); Num (octet2 A); Num (octet3 A)].
Proof.
  unfold addressOf, wellFormed.
  destruct (map parseInt (split dot text)) as [|[|a] [|[|b] [|[|c] [|[|d] [|? ?]]]]];
    try (split; [discriminate | intros [_ E]; discriminate E]).
  cbn [forallb]. rewrite andb_true_r.
  assert (K : forall x y, (0 <=? x) && (x <=? 255) = false -> x = y -> ~ isOctet y).
  { intros x y R <- O. apply octet_test in O. congruence. }
  destruct ((0 <=? a) && (a <=? 255)) eqn:Ra; cbn [andb].
  2:{ split; [discriminate|]. intros [(O & _) E]. injection E as E0 _ _ _.
      now elim (K _ _ Ra E0). }
  destruct ((0 <=? b) && (b <=? 255)) eqn:Rb; cbn [andb].
  2:{ split; [discriminate|]. intros [(_ & O & _) E]. injection E as _ E1 _ _.
      now elim (K _ _ Rb E1). }
  destruct ((0 <=? c) && (c <=? 255)) eqn:Rc; cbn [andb].
  2:{ split; [discriminate|]. intros [(_ & _ & O & _) E]. injection E as _ _ E2 _.
      now elim (K _ _ Rc E2). }
  destruct ((0 <=? d) && (d <=? 255)) eqn:Rd; cbn [andb].
  2:{ split; [discriminate|]. intros [(_ & _ & _ & O) E]. injection E as _ _ _ E3.
      now elim (K _ _ Rd E3). }
  apply octet_test in Ra, Rb, Rc, Rd. split.
  - intros [= <-]. cbn [octet0 octet1 octet2 octet3].
    split; [exact (conj Ra (conj Rb (conj Rc Rd))) | reflexivity].
  - intros [_ E]. destruct A as [a' b' c' d']. cbn in E.
    injection E as -> -> -> ->. reflexivity.
Qed.

(** A text is valid exactly when it denotes an address, and is then
    normalized to the canonical text of that address. *)
Lemma parseAndValidate_address (text : string) (n : option string) :
  parseAndValidate text = Valid n <->
  exists A, addressOf text = Some A /\ n = Some (render A).
Proof.
  unfold parseAndValidate. split.
  - destruct (split dot text) as [|p0 [|p1 [|p2 [|p3 [|? ?]]]]] eqn:S;
      cbn [List.length Nat.eqb negb]; try discriminate.
    cbn [readOctets].
    destruct (readOctet 1 p0) as [?|a] eqn:R0; [discriminate|].
    destruct (readOctet 2 p1) as [?|b] eqn:R1; [discriminate|].
    destruct (readOctet 3 p2) as [?|c] eqn:R2; [discriminate|].
    destruct (readOctet 4 p3) as [?|d] eqn:R3; [discriminate|].
    intros [= <-]. exists (Octets a b c d). split; [|reflexivity].
    apply readOctet_inr in R0 as [P0 O0], R1 as [P1 O1], R2 as [P2 O2], R3 as [P3 O3].
    apply addressOf_Some. split; [exact (conj O0 (conj O1 (conj O2 O3)))|].
    rewrite S. cbn. now rewrite P0, P1, P2, P3.
  - intros (A & HA & ->). apply addressOf_Some in HA as [(O0 & O1 & O2 & O3) M].
    destruct (split dot text) as [|p0 [|p1 [|p2 [|p3 [|? ?]]]]] eqn:S;
      try discriminate M.
    cbn [map] in M. injection M as P0 P1 P2 P3.
    cbn [List.length Nat.eqb negb readOctets].
    rewrite (proj2 (readOctet_inr 1 p0 _) (conj P0 O0)).
    rewrite (proj2 (readOctet_inr 2 p1 _) (conj P1 O1)).
    rewrite (proj2 (readOctet_inr 3 p2 _) (conj P2 O2)).
    rewrite (proj2 (readOctet_inr 4 p3 _) (conj P3 O3)).
    reflexivity.
Qed.

Lemma addressOf_empty : addressOf "" = None.
Proof. reflexivity. Qed.

Lemma validateIpAddress_address (text : string) (n : option string) :
  validateIpAddress text = Valid n <->
  exists A, addressOf text = Some A /\ n = Some (render A).
Proof.
  destruct (string_dec text "") as [->|N].
  - split; [discriminate|]. intros (A & HA & _). discriminate HA.
  - rewrite (validateIpAddress_refines _ N). apply parseAndValidate_address.
Qed.

(** The canonical text of an address denotes that address. *)
Lemma addressOf_render (A : IPv4Address) :
  wellFormed A -> addressOf (render A) = Some A.
Proof.
  intros W. apply addressOf_Some. split; [exact W|].
  unfold render, dot. rewrite split_join.
  - cbn [map]. now rewrite !parseInt_decimalOf.
  - discriminate.
  - repeat constructor; apply plain_noDot, plain_decimalOf.
Qed.

End ValidationFacts.

(* ================================================================== *)
(** * The 32-bit operators, bit by bit *)
(* ================================================================== *)

Module BitFacts.
Import JS.

Lemma two32_value : two32 = 4294967296.
Proof. reflexivity. Qed.

Lemma two31_value : two31 = 2147483648.
Proof. reflexivity. Qed.

Ltac unfold32 :=
  unfold ToInt32, ToUint32; rewrite ?two32_value, ?two31_value.

Lemma ToInt32_range (x : number) : - 2147483648 <= ToInt32 x < 2147483648.
Proof.
  unfold32. destruct x as [|z].
  - simpl. lia.
  - pose proof (Z.mod_pos_bound z 4294967296 eq_refl).
    destruct (z mod 4294967296 <? 2147483648) eqn:E; lia.
Qed.

Lemma ToInt32_mod (z : Z) : ToInt32 (Num z) mod 4294967296 = z mod 4294967296.
Proof.
  unfold32. pose proof (Z.mod_pos_bound z 4294967296 eq_refl).
  destruct (z mod 4294967296 <? 2147483648).
  - now rewrite Z.mod_mod.
  - replace (z mod 4294967296 - 4294967296)
      with (z mod 4294967296 + (-1) * 4294967296) by lia.
    now rewrite Z.mod_add, Z.mod_mod.
Qed.

Lemma ToInt32_small (z : Z) :
  - 2147483648 <= z < 2147483648 -> ToInt32 (Num z) = z.
Proof.
  intros R. unfold32.
  destruct (Z_lt_le_dec z 0) as [N|P].
  - replace (z mod 4294967296) with (z + 4294967296).
    + destruct (z + 4294967296 <? 2147483648) eqn:E; lia.
    + apply Z.mod_unique with (q := -1); lia.
  - rewrite (Z.mod_small z) by lia.
    destruct (z <? 2147483648) eqn:E; lia.
Qed.

Lemma ToInt32_idem (x : number) : ToInt32 (Num (ToInt32 x)) = ToInt32 x.
Proof. apply ToInt32_small, ToInt32_range. Qed.

Lemma ToInt32_uint32_inj (a b : Z) :
  0 <= a < 4294967296 -> 0 <= b < 4294967296 ->
  ToInt32 (Num a) = ToInt32 (Num b) -> a = b.
Proof.
  intros Ra Rb E. apply (f_equal (fun s => s mod 4294967296)) in E.
  rewrite !ToInt32_mod, !Z.mod_small in E; assumption.
Qed.

(** Beyond bit 31 a 32-bit signed integer repeats its sign bit. *)
Lemma high_bits (s i : Z) :
  - 2147483648 <= s < 2147483648 -> 31 <= i ->
  Z.testbit s i = negb (0 <=? s).
Proof.
  intros R I. rewrite Z.testbit_odd, Z.shiftr_div_pow2 by lia.
  assert (P : 2147483648 <= 2 ^ i).
  { change 2147483648 with (2 ^ 31). apply Z.pow_le_mono_r; lia. }
  destruct (0 <=? s) eqn:E.
  - rewrite Z.div_small; [reflexivity | lia].
  - replace (s / 2 ^ i) with (-1); [reflexivity|].
    apply Z.div_unique with (r := s + 2 ^ i); lia.
Qed.

Lemma testbit_ToInt32 (z i : Z) :
  0 <= i -> Z.testbit (ToInt32 (Num z)) i = Z.testbit z (Z.min i 31).
Proof.
  intros I.
  assert (L : forall j, 0 <= j < 32 ->
            Z.testbit (ToInt32 (Num z)) j = Z.testbit z j).
  { intros j J.
    rewrite <- (Z.mod_pow2_bits_low (ToInt32 (Num z)) 32 j) by lia.
    rewrite <- (Z.mod_pow2_bits_low z 32 j) by lia.
    change (2 ^ 32) with 4294967296. now rewrite ToInt32_mod. }
  destruct (Z_lt_le_dec i 31) as [Lt|Ge].
  - rewrite Z.min_l by lia. apply L; lia.
  - rewrite Z.min_r by lia. rewrite <- (L 31) by lia.
    rewrite !high_bits by (try apply ToInt32_range; lia). reflexivity.
Qed.

Lemma land_ToInt32 (a b : Z) :
  Z.land (ToInt32 (Num a)) (ToInt32 (Num b)) = ToInt32 (Num (Z.land a b)).
Proof.
  apply Z.bits_inj'. intros n N.
  now rewrite Z.land_spec, !testbit_ToInt32, Z.land_spec.
Qed.

Lemma lor_ToInt32 (a b : Z) :
  Z.lor (ToInt32 (Num a)) (ToInt32 (Num b)) = ToInt32 (Num (Z.lor a b)).
Proof.
  apply Z.bits_inj'. intros n N.
  now rewrite Z.lor_spec, !testbit_ToInt32, Z.lor_spec.
Qed.

Lemma lnot_ToInt32 (a : Z) :
  Z.lnot (ToInt32 (Num a)) = ToInt32 (Num (Z.lnot a)).
Proof.
  apply Z.bits_inj'. intros n N.
  rewrite Z.lnot_spec, !testbit_ToInt32, Z.lnot_spec by lia. reflexivity.
Qed.

(** The operators on numbers, through [ToInt32]. *)
Lemma band_Num (a b : Z) :
  band (Num (ToInt32 (Num a))) (Num (ToInt32 (Num b)))
  = Num (ToInt32 (Num (Z.land a b))).
Proof. unfold band. now rewrite !ToInt32_idem, land_ToInt32. Qed.

Lemma bor_Num (a b : Z) :
  bor (Num (ToInt32 (Num a))) (Num b) = Num (ToInt32 (Num (Z.lor a b))).
Proof. unfold bor. now rewrite !ToInt32_idem, lor_ToInt32. Qed.

Lemma land_uint32 (a b : Z) :
  0 <= a < 4294967296 -> 0 <= Z.land a b < 4294967296.
Proof.
  intros R. split.
  - apply Z.land_nonneg. lia.
  - assert (E : Z.land a b = Z.land a b mod 2 ^ 32).
    { rewrite <- Z.land_ones by lia.
      rewrite <- Z.land_assoc, (Z.land_comm b), Z.land_assoc.
      rewrite (Z.land_ones a) by lia.
      change (2 ^ 32) with 4294967296. now rewrite Z.mod_small. }
    rewrite E. apply Z.mod_pos_bound. reflexivity.
Qed.

Lemma lor_uint32 (a b : Z) :
  0 <= a < 4294967296 -> 0 <= b < 4294967296 -> 0 <= Z.lor a b < 4294967296.
Proof.
  intros Ra Rb. split.
  - apply Z.lor_nonneg. lia.
  - assert (E : Z.lor a b = Z.lor a b mod 2 ^ 32).
    { rewrite <- Z.land_ones by lia. rewrite Z.land_lor_distr_l.
      rewrite !Z.land_ones by lia. change (2 ^ 32) with 4294967296.
      now rewrite !Z.mod_small. }
    rewrite E. apply Z.mod_pos_bound. reflexivity.
Qed.

(** The 32-bit complement of an unsigned value. *)
Lemma lnot_mod (u : Z) :
  0 <= u < 4294967296 -> Z.lnot u mod 4294967296 = 4294967295 - u.
Proof.
  intros R. unfold Z.lnot. symmetry.
  apply Z.mod_unique with (q := -1); lia.
Qed.

End BitFacts.

(* ================================================================== *)
(** * Addresses as 32-bit integers *)
(* ================================================================== *)

Module AddressFacts.
Import JS IpUtils Spec JSFacts ValidationFacts BitFacts.

Ltac powers :=
  change (2 ^ 32) with 4294967296 in *; change (2 ^ 24) with 16777216 in *;
  change (2 ^ 16) with 65536 in *; change (2 ^ 8) with 256 in *.

Lemma toInt_uint32 (A : IPv4Address) : wellFormed A -> uint32 (toInt A).
Proof.
  unfold wellFormed, isOctet, uint32, toInt. powers. lia.
Qed.

Lemma wellFormed_fromInt (u : Z) : wellFormed (fromInt u).
Proof.
  unfold wellFormed, isOctet, fromInt; cbn [octet0 octet1 octet2 octet3].
  repeat split; Z.div_mod_to_equations; lia.
Qed.

Lemma fromInt_toInt (A : IPv4Address) : wellFormed A -> fromInt (toInt A) = A.
Proof.
  destruct A as [a b c d].
  unfold wellFormed, isOctet, fromInt, toInt; cbn [octet0 octet1 octet2 octet3].
  powers. intros W. f_equal; Z.div_mod_to_equations; lia.
Qed.

Lemma toInt_fromInt (u : Z) : toInt (fromInt u) = u mod 2 ^ 32.
Proof.
  unfold fromInt, toInt; cbn [octet0 octet1 octet2 octet3]. powers.
  Z.div_mod_to_equations; lia.
Qed.

(** [fromInt] reads its argument modulo 2^32. *)
Lemma fromInt_mod (x : Z) : fromInt (x mod 2 ^ 32) = fromInt x.
Proof.
  unfold fromInt. powers. f_equal; Z.div_mod_to_equations; lia.
Qed.

Lemma fromInt_ToInt32 (x : Z) : fromInt (ToInt32 (Num x)) = fromInt x.
Proof.
  rewrite <- (fromInt_mod (ToInt32 (Num x))), <- (fromInt_mod x). powers.
  now rewrite ToInt32_mod.
Qed.

Lemma land_255 (x : Z) : Z.land x 255 = x mod 256.
Proof. change 255 with (Z.ones 8). now rewrite Z.land_ones by lia. Qed.

(** The octet [intToIp] extracts with [(ipInt >>> k) & 0xFF]. *)
Lemma octet_extract (x k : Z) :
  1 <= k ->
  band (ushr (Num x) k) (Num 255) = Num (((x mod 2 ^ 32) / 2 ^ k) mod 256).
Proof.
  intros K. unfold band, ushr, ToUint32. rewrite two32_value. powers.
  rewrite Z.shiftr_div_pow2 by lia.
  assert (P : 2 <= 2 ^ k).
  { change 2 with (2 ^ 1) at 1. apply Z.pow_le_mono_r; lia. }
  pose proof (Z.mod_pos_bound x 4294967296 eq_refl) as B.
  assert (R : 0 <= (x mod 4294967296) / 2 ^ k < 2147483648).
  { split; [apply Z.div_pos; lia|].
    apply Z.div_lt_upper_bound; [lia|]. nia. }
  rewrite (ToInt32_small (x mod 4294967296 / 2 ^ k)), (ToInt32_small 255) by lia.
  now rewrite land_255.
Qed.

(** [intToIp] writes the canonical text of the address of its argument. *)
Lemma intToIp_render (x : Z) : intToIp (Num x) = render (fromInt x).
Proof.
  unfold intToIp, render, fromInt; cbn [octet0 octet1 octet2 octet3 map].
  rewrite !octet_extract by lia. cbn [toString].
  assert (L : band (Num x) (Num 255) = Num (x mod 256)).
  { unfold band. rewrite (ToInt32_small 255) by lia. rewrite land_255.
    assert (K : forall y, y mod 256 = (y mod 4294967296) mod 256)
      by (intros y; Z.div_mod_to_equations; lia).
    now rewrite (K (ToInt32 (Num x))), ToInt32_mod, <- K. }
  rewrite L. cbn [toString]. powers.
  replace ((x mod 4294967296 / 16777216) mod 256) with ((x / 16777216) mod 256)
    by (Z.div_mod_to_equations; lia).
  replace ((x mod 4294967296 / 65536) mod 256) with ((x / 65536) mod 256)
    by (Z.div_mod_to_equations; lia).
  replace ((x mod 4294967296 / 256) mod 256) with ((x / 256) mod 256)
    by (Z.div_mod_to_equations; lia).
  reflexivity.
Qed.

(** [ipToInt] packs the octets big-endian and returns the result as a
    signed 32-bit integer. *)
Lemma ipToInt_address (text : string) (A : IPv4Address) :
  addressOf text = Some A -> ipToInt text = Num (ToInt32 (Num (toInt A))).
Proof.
  intros H. apply addressOf_Some in H as [W M].
  destruct A as [a b c d]. unfold wellFormed, isOctet in W.
  cbn [octet0 octet1 octet2 octet3] in *.
  unfold ipToInt. rewrite M. cbn [nth]. unfold shl.
  rewrite (ToInt32_small a), (ToInt32_small b), (ToInt32_small c) by lia.
  rewrite !Z.shiftl_mul_pow2 by lia.
  unfold toInt; cbn [octet0 octet1 octet2 octet3]. powers.
  rewrite (ToInt32_small (b * 65536)), (ToInt32_small (c * 256)) by lia.
  cbn [add]. f_equal. unfold32.
  rewrite (Z.mod_small (a * 16777216)) by lia.
  rewrite (Z.mod_small (a * 16777216 + b * 65536 + c * 256 + d)) by lia.
  destruct (a * 16777216 <? 2147483648) eqn:E1;
    destruct (a * 16777216 + b * 65536 + c * 256 + d <? 2147483648) eqn:E2; lia.
Qed.

End AddressFacts.

(* ================================================================== *)
(** * Binary notation *)
(* ================================================================== *)

Module BinaryFacts.
Import JS IpUtils Spec JSFacts ValidationFacts BitFacts AddressFacts.

(** A property checked on the 256 octets holds of every octet. *)
Lemma octet_cases (P : Z -> bool) :
  forallb P (map Z.of_nat (seq 0 256)) = true ->
  forall z, isOctet z -> P z = true.
Proof.
  intros H z [Lo Hi]. rewrite forallb_forall in H. apply H.
  rewrite <- (Z2Nat.id z Lo). apply in_map, in_seq. lia.
Qed.

(** An octet in binary, padded to eight digits, shows its eight bits. *)
Lemma octet_binary (z : Z) :
  isOctet z -> padStart 8 "0" (toString2 (Num z)) = bitString (bits 8 z).
Proof.
  intros O. apply String.eqb_eq.
  apply (octet_cases
           (fun z => (padStart 8 "0" (toString2 (Num z)) =? bitString (bits 8 z))%string));
    [vm_compute; reflexivity | exact O].
Qed.

Lemma bitString_length (l : list bool) :
  String.length (bitString l) = List.length l.
Proof. induction l as [|b r IH]; simpl; now rewrite ?IH. Qed.

Lemma bitString_app (l r : list bool) :
  bitString (l ++ r) = bitString l ++ bitString r.
Proof. induction l as [|b l IH]; simpl; now rewrite ?IH. Qed.

Lemma ipToBinary_address (text : string) (A : IPv4Address) :
  addressOf text = Some A ->
  ipToBinary text
  = join "." (map (fun z => bitString (bits 8 z))
                  [octet0 A; octet1 A; octet2 A; octet3 A]).
Proof.
  intros H. apply addressOf_Some in H as [(O0 & O1 & O2 & O3) M].
  unfold ipToBinary.
  rewrite <- (map_map parseInt (fun num => padStart 8 "0" (toString2 num))), M.
  cbn [map]. now rewrite !octet_binary.
Qed.

(** The octets of an address are the four bytes of its integer. *)
Lemma octet_bits (A : IPv4Address) (i : Z) :
  wellFormed A -> 0 <= i < 8 ->
  Z.testbit (octet0 A) i = Z.testbit (toInt A) (i + 24) /\
  Z.testbit (octet1 A) i = Z.testbit (toInt A) (i + 16) /\
  Z.testbit (octet2 A) i = Z.testbit (toInt A) (i + 8) /\
  Z.testbit (octet3 A) i = Z.testbit (toInt A) i.
Proof.
  intros W I. pose proof (fromInt_toInt A W) as E.
  set (u := toInt A) in *.
  assert (Ea := f_equal octet0 E). assert (Eb := f_equal octet1 E).
  assert (Ec := f_equal octet2 E). assert (Ed := f_equal octet3 E).
  cbn [fromInt octet0 octet1 octet2 octet3] in Ea, Eb, Ec, Ed.
  rewrite <- Ea, <- Eb, <- Ec, <- Ed.
  change 256 with (2 ^ 8).
  rewrite !Z.mod_pow2_bits_low by lia.
  rewrite !Z.div_pow2_bits by lia. tauto.
Qed.

Lemma bits32_octets (A : IPv4Address) :
  wellFormed A ->
  bits32 (toInt A)
  = (bits 8 (octet0 A) ++ bits 8 (octet1 A)
       ++ bits 8 (octet2 A) ++ bits 8 (octet3 A))%list.
Proof.
  intros W.
  assert (B := fun i I => octet_bits A i W I).
  unfold bits32, bits.
  change (positions 32) with
    [7 + 24; 6 + 24; 5 + 24; 4 + 24; 3 + 24; 2 + 24; 1 + 24; 0 + 24;
     7 + 16; 6 + 16; 5 + 16; 4 + 16; 3 + 16; 2 + 16; 1 + 16; 0 + 16;
     7 + 8; 6 + 8; 5 + 8; 4 + 8; 3 + 8; 2 + 8; 1 + 8; 0 + 8;
     7; 6; 5; 4; 3; 2; 1; 0].
  change (positions 8) with [7; 6; 5; 4; 3; 2; 1; 0].
  cbn [map app].
  repeat match goal with
  | |- context [Z.testbit (octet0 A) ?i] =>
      rewrite (proj1 (B i ltac:(lia)))
  | |- context [Z.testbit (octet1 A) ?i] =>
      rewrite (proj1 (proj2 (B i ltac:(lia))))
  | |- context [Z.testbit (octet2 A) ?i] =>
      rewrite (proj1 (proj2 (proj2 (B i ltac:(lia)))))
  | |- context [Z.testbit (octet3 A) ?i] =>
      rewrite (proj2 (proj2 (proj2 (B i ltac:(lia)))))
  end.
  reflexivity.
Qed.

End BinaryFacts.

(* ================================================================== *)
(** * Address Codec *)
(* ================================================================== *)

Module Codec.
Import JS IpUtils Spec JSFacts ValidationFacts BitFacts AddressFacts BinaryFacts.

(** ** Reading the segments in order *)

Lemma blank_octetValue (s : string) : blank s = true -> octetValue s = None.
Proof.
  unfold blank, octetValue. intros E. apply String.eqb_eq in E. now rewrite E.
Qed.

Lemma readOctets_inr (parts : list string) (i : nat) (zs : list Z) :
  readOctets i parts = inr zs <-> map octetValue parts = map Some zs.
Proof.
  revert i zs. induction parts as [|p rest IH]; intros i zs; cbn [readOctets map].
  - split.
    + now intros [= <-].
    + destruct zs; [reflexivity | discriminate].
  - unfold readOctet. destruct (blank p) eqn:B.
    + rewrite (blank_octetValue _ B). split; [discriminate|].
      destruct zs; discriminate.
    + destruct (octetValue p) as [z|].
      * destruct (readOctets (S i) rest) as [e|zs'] eqn:R.
        -- split; [discriminate|]. destruct zs as [|y ys]; [discriminate|].
           cbn [map]. intros [= -> E]. apply (IH (S i)) in E. congruence.
        -- split.
           ++ intros [= <-]. cbn [map]. f_equal. now apply (IH (S i)).
           ++ destruct zs as [|y ys]; [discriminate|].
              cbn [map]. intros [= -> E]. apply (IH (S i)) in E.
              congruence.
      * split; [discriminate|]. destruct zs; discriminate.
Qed.

(** The error reported is that of the first segment that has no value. *)
Lemma readOctets_first_failure (parts : list string) (i k : nat) (s : string) :
  nth_error parts k = Some s ->
  (forall j t, (j < k)%nat -> nth_error parts j = Some t -> octetValue t <> None) ->
  octetValue s = None ->
  readOctets i parts
  = inl (if blank s then EmptyOctet (i + k) else OutOfRange (i + k)).
Proof.
  revert i k. induction parts as [|p rest IH]; intros i k N Before V.
  - destruct k; discriminate N.
  - destruct k as [|k]; cbn [nth_error] in N.
    + injection N as ->. cbn [readOctets]. unfold readOctet.
      rewrite Nat.add_0_r, V. now destruct (blank s).
    + cbn [readOctets]. unfold readOctet.
      pose proof (Before 0%nat p ltac:(lia) eq_refl) as Vp.
      destruct (blank p) eqn:B; [now rewrite (blank_octetValue _ B) in Vp|].
      destruct (octetValue p) as [z|]; [|now elim Vp].
      rewrite (IH (S i) k N); [|intros j t J; apply (Before (S j) t); lia | exact V].
      now rewrite Nat.add_succ_comm.
Qed.

(** ** Validation (claim C3) *)

(** C3, as the code has it: the empty text is refused by a guard of its
    own, with the message "IP address is required", although it splits into
    one segment; and a segment such as [1a] is read by [parseInt] as 1, so
    the text is accepted and normalized. *)
Lemma validateIpAddress_empty_text_counterexample :
  List.length (split dot "") <> 4%nat
  /\ validateIpAddress "" = Invalid Required
  /\ validateIpAddress "" <> Invalid MissingOctets
  /\ validateIpAddress "1a.2.3.4" = Valid (Some "1.2.3.4").
Proof.
  repeat split; try reflexivity; vm_compute; discriminate.
Qed.

(** C3 (amended).  The empty text fails with [Required].  Every other
    text, its numerals within the safe-integer range, is validated as
    [parseAndValidate] words it: it succeeds exactly when it splits on dots
    into exactly 4 segments, each of which, trimmed, is not blank and is read
    by [parseInt] as an integer in [0, 255]; the normalized text is then the
    plain decimal of these values joined by dots, which strips leading zeros;
    it fails with [MissingOctets] when the number of segments is not 4, and
    otherwise with the error of the first segment that has no value:
    [EmptyOctet] if blank, [OutOfRange] if not, with its 1-based index. *)
Theorem validateIpAddress_follows_parseAndValidate :
  validateIpAddress "" = Invalid Required
  /\ validateIpAddress "001.001.002.005" = Valid (Some "1.1.2.5")
  /\ forall raw : string,
      raw <> "" -> safeInput raw = true ->
      let segments := split dot raw in
      validateIpAddress raw = parseAndValidate raw
      /\ (valid (validateIpAddress raw) = true <->
            List.length segments = 4%nat
            /\ Forall (fun s => blank s = false /\ octetValue s <> None) segments)
      /\ (forall zs : list Z,
            List.length segments = 4%nat ->
            map octetValue segments = map Some zs ->
            validateIpAddress raw = Valid (Some (join "." (map decimalOf zs))))
      /\ (List.length segments <> 4%nat ->
            validateIpAddress raw = Invalid MissingOctets)
      /\ (forall (i : nat) (s : string),
            List.length segments = 4%nat ->
            nth_error segments i = Some s ->
            (forall j t, (j < i)%nat -> nth_error segments j = Some t ->
                         octetValue t <> None) ->
            octetValue s = None ->
            validateIpAddress raw
            = Invalid (if blank s then EmptyOctet (i + 1) else OutOfRange (i + 1))).
Proof.
  split; [reflexivity|]. split; [reflexivity|].
  intros raw N _ segments.
  rewrite (validateIpAddress_refines raw N). unfold parseAndValidate.
  fold segments. split; [reflexivity|].
  destruct (List.length segments =? 4)%nat eqn:L; cbn [negb].
  - apply Nat.eqb_eq in L. split; [split|split; [|split]].
    + intros H. split; [exact L|].
      destruct (readOctets 1 segments) as [e|zs] eqn:R; [discriminate H|].
      apply readOctets_inr in R. clear - R. revert zs R.
      induction segments as [|p rest IH]; intros zs R; [constructor|].
      destruct zs as [|z zs]; [discriminate R|]. cbn [map] in R.
      injection R as Vp Vrest. constructor; [|now apply (IH zs)].
      split; [|congruence].
      destruct (blank p) eqn:B; [|reflexivity].
      rewrite (blank_octetValue _ B) in Vp. discriminate Vp.
    + intros [_ F].
      assert (exists zs, map octetValue segments = map Some zs) as [zs Z].
      { clear - F. induction F as [|p rest [_ V] _ [zs IH]]; [now exists []|].
        destruct (octetValue p) as [z|] eqn:E; [|now elim V].
        exists (z :: zs). cbn [map]. now rewrite E, IH. }
      apply (readOctets_inr _ 1%nat) in Z. now rewrite Z.
    + intros zs _ Z. apply (readOctets_inr _ 1%nat) in Z. now rewrite Z.
    + intros Ne. now elim Ne.
    + intros i s _ Nth Before V.
      rewrite (readOctets_first_failure _ 1 i s Nth Before V).
      now rewrite (Nat.add_comm 1 i).
  - apply Nat.eqb_neq in L. split; [split|split; [|split]].
    + discriminate.
    + intros [L' _]. now elim L.
    + intros zs L'. now elim L.
    + reflexivity.
    + intros i s L'. now elim L.
Qed.

Lemma validateIpAddress_follows_parseAndValidate_witness :
  validateIpAddress " 010 .0.x.4" = Invalid (OutOfRange 3)
  /\ parseAndValidate "192.168.001.10" = Valid (Some "192.168.1.10").
Proof.
  pose proof (proj2 (proj2 validateIpAddress_follows_parseAndValidate)) as T.
  split.
  - refine (proj2 (proj2 (proj2 (proj2
      (T " 010 .0.x.4" _ eq_refl)))) 2%nat "x" eq_refl eq_refl _ eq_refl).
    + discriminate.
    + intros [|[|j]] t J; [intros [= <-]; discriminate
                          | intros [= <-]; discriminate | lia].
  - rewrite <- (proj1 (T "192.168.001.10" ltac:(discriminate) eq_refl)).
    reflexivity.
Defined.

(** ** Integers and texts (claim C4) *)

Lemma valid_address (text : string) :
  valid (validateIpAddress text) = true ->
  exists A, addressOf text = Some A /\ wellFormed A
            /\ validateIpAddress text = Valid (Some (render A)).
Proof.
  destruct (validateIpAddress text) as [e|n] eqn:V; [discriminate|]. intros _.
  apply validateIpAddress_address in V as (A & HA & ->).
  exists A. split; [exact HA|]. split; [|reflexivity].
  now apply addressOf_Some in HA.
Qed.

Lemma valueOf_address (text : string) (A : IPv4Address) :
  addressOf text = Some A -> valueOf text = toInt A.
Proof. intros H. unfold valueOf. now rewrite H. Qed.

Lemma intToIp_ipToInt (text : string) (A : IPv4Address) :
  addressOf text = Some A -> intToIp (ipToInt text) = render A.
Proof.
  intros H. pose proof (proj1 (proj1 (addressOf_Some _ _) H)) as W.
  rewrite (ipToInt_address _ _ H), intToIp_render, fromInt_ToInt32.
  now rewrite fromInt_toInt.
Qed.

Lemma ipToInt_intToIp (u : Z) :
  ipToInt (intToIp (Num u)) = Num (ToInt32 (Num u)).
Proof.
  rewrite intToIp_render.
  rewrite (ipToInt_address _ _ (addressOf_render _ (wellFormed_fromInt u))).
  rewrite toInt_fromInt. f_equal.
  unfold ToInt32, ToUint32. rewrite two32_value.
  change (2 ^ 32) with 4294967296. now rewrite Z.mod_mod.
Qed.

Lemma ipToBinary_length (text : string) (A : IPv4Address) :
  addressOf text = Some A -> String.length (ipToBinary text) = 35%nat.
Proof.
  intros H. rewrite (ipToBinary_address _ _ H). cbn [map join].
  rewrite !length_append, !bitString_length. reflexivity.
Qed.

(** C4, as the code has it: [ipToInt] of an address whose first octet is
    128 or more is negative, so it is no unsigned 32-bit integer, and an
    integer from 2^31 on does not come back from [intToIp]. *)
Lemma ipToInt_negative_counterexample :
  valid (validateIpAddress "192.168.1.10") = true
  /\ ipToInt "192.168.1.10" = Num (-1062731510)
  /\ ~ uint32 (-1062731510)
  /\ uint32 3232235786
  /\ ipToInt (intToIp (Num 3232235786)) <> Num 3232235786.
Proof.
  repeat split; try reflexivity; try discriminate.
  unfold uint32. lia.
Qed.

(** C4 (amended).  For every valid text, [ipToInt] returns a signed 32-bit
    integer, congruent modulo 2^32 to the big-endian packing of the octets;
    [intToIp] takes it back to the normalized text, which is its own round
    trip; and [ipToBinary] writes exactly 35 characters.  For every unsigned
    32-bit integer [u], [ipToInt (intToIp u)] is [u] below 2^31 and
    [u - 2^32] from there on, and [intToIp] sends it to the text of [u]:
    no address is lost either way. *)
Theorem ipToInt_intToIp_round_trip :
  (forall text normalizedIp : string,
      validateIpAddress text = Valid (Some normalizedIp) ->
      (exists s : Z,
          ipToInt text = Num s
          /\ - 2 ^ 31 <= s < 2 ^ 31
          /\ s mod 2 ^ 32 = valueOf text
          /\ uint32 (valueOf text))
      /\ intToIp (ipToInt text) = normalizedIp
      /\ intToIp (ipToInt normalizedIp) = normalizedIp
      /\ String.length (ipToBinary text) = 35%nat)
  /\ (forall u : Z,
        uint32 u ->
        ipToInt (intToIp (Num u)) = Num (if u <? 2 ^ 31 then u else u - 2 ^ 32)
        /\ intToIp (ipToInt (intToIp (Num u))) = intToIp (Num u)).
Proof.
  split.
  - intros text n V. apply validateIpAddress_address in V as (A & HA & [= ->]).
    pose proof (proj1 (proj1 (addressOf_Some _ _) HA)) as W.
    pose proof (toInt_uint32 A W) as U.
    rewrite (valueOf_address _ _ HA). split; [|split; [|split]].
    + exists (ToInt32 (Num (toInt A))). split; [now apply ipToInt_address|].
      split; [apply ToInt32_range|]. split; [|exact U].
      change (2 ^ 32) with 4294967296. rewrite ToInt32_mod.
      apply Z.mod_small. exact U.
    + now apply intToIp_ipToInt.
    + apply intToIp_ipToInt. now apply addressOf_render.
    + now apply (ipToBinary_length _ A).
  - intros u U. rewrite ipToInt_intToIp. split.
    + f_equal. unfold ToInt32, ToUint32, uint32 in *.
      rewrite two32_value, two31_value. change (2 ^ 32) with 4294967296 in *.
      change (2 ^ 31) with 2147483648. now rewrite Z.mod_small.
    + now rewrite !intToIp_render, fromInt_ToInt32.
Qed.

Lemma ipToInt_intToIp_round_trip_witness :
  intToIp (ipToInt " 192.168.001.10") = "192.168.1.10"
  /\ ipToInt (intToIp (Num 3232235786)) = Num (-1062731510).
Proof.
  split.
  - exact (proj1 (proj2 (proj1 ipToInt_intToIp_round_trip
                           " 192.168.001.10" "192.168.1.10" eq_refl))).
  - refine (proj1 (proj2 ipToInt_intToIp_round_trip 3232235786 _)).
    unfold uint32. lia.
Defined.

(** ** Subnet masks (claim C5) *)

Lemma scan_zero (fz : bool) (r : list bool) :
  onesThenZeros fz (bitString (false :: r)) = onesThenZeros true (bitString r).
Proof. reflexivity. Qed.

Lemma scan_one (fz : bool) (r : list bool) :
  onesThenZeros fz (bitString (true :: r))
  = if fz then false else onesThenZeros false (bitString r).
Proof. now destruct fz. Qed.

Lemma scan_after_zero (l : list bool) :
  onesThenZeros true (bitString l) = true <-> l = repeat false (List.length l).
Proof.
  induction l as [|[|] r IH].
  - now split.
  - rewrite scan_one. split; discriminate.
  - rewrite scan_zero, IH. cbn [List.length repeat]. split.
    + now intros <-.
    + now intros [= <-].
Qed.

Lemma scan_contiguous (l : list bool) :
  onesThenZeros false (bitString l) = true <-> contiguous l.
Proof.
  unfold contiguous. induction l as [|[|] r IH].
  - split; [|reflexivity]. intros _. now exists 0%nat.
  - rewrite scan_one, IH. cbn [List.length]. split.
    + intros (k & K & E). exists (S k). split; [lia|].
      cbn [repeat app Nat.sub]. now rewrite <- E.
    + intros ([|k] & K & E); [destruct (List.length r); discriminate E|].
      exists k. split; [lia|]. now injection E.
  - rewrite scan_zero, scan_after_zero. cbn [List.length]. split.
    + intros E. exists 0%nat. split; [lia|]. cbn [repeat app Nat.sub].
      now rewrite <- E.
    + intros ([|k] & K & E); [|discriminate E].
      cbn [repeat app Nat.sub] in E. now injection E.
Qed.

Lemma scan_one_later (l : list bool) :
  onesThenZeros true (bitString l) = false <->
  exists j, nth_error l j = Some true.
Proof.
  induction l as [|[|] r IH].
  - split; [discriminate|]. intros ([|j] & E); discriminate E.
  - rewrite scan_one. split; [|reflexivity]. intros _. now exists 0%nat.
  - rewrite scan_zero, IH. split.
    + intros (j & E). now exists (S j).
    + intros ([|j] & E); [discriminate E | now exists j].
Qed.

Lemma scan_oneAfterZero (l : list bool) :
  onesThenZeros false (bitString l) = false <-> oneAfterZero l.
Proof.
  unfold oneAfterZero. induction l as [|[|] r IH].
  - split; [discriminate|]. intros ([|i] & j & _ & E & _); discriminate E.
  - rewrite scan_one, IH. split.
    + intros (i & j & L & Ei & Ej). exists (S i), (S j). split; [lia|now split].
    + intros ([|i] & [|j] & L & Ei & Ej); try discriminate Ei; try lia.
      exists i, j. split; [lia|now split].
  - rewrite scan_zero, scan_one_later. split.
    + intros (j & E). exists 0%nat, (S j). split; [lia|now split].
    + intros (i & [|j] & L & Ei & Ej); [lia | now exists j].
Qed.

(** The string [validateSubnetMask] scans is the 32 bits of the mask. *)
Lemma validateSubnetMask_address (text : string) (A : IPv4Address) :
  addressOf text = Some A ->
  validateSubnetMask text
  = if onesThenZeros false (bitString (bits32 (toInt A))) then Valid None
    else Invalid NonContiguousMask.
Proof.
  intros H. pose proof H as H'. apply addressOf_Some in H' as [W M].
  assert (V : validateIpAddress text = Valid (Some (render A)))
    by (apply validateIpAddress_address; now exists A).
  unfold validateSubnetMask. rewrite V. cbn [valid negb]. rewrite M.
  destruct W as (O0 & O1 & O2 & O3). cbn [map join].
  rewrite !octet_binary by assumption. cbn [append].
  rewrite (bits32_octets A (conj O0 (conj O1 (conj O2 O3)))).
  now rewrite !bitString_app.
Qed.

Lemma countOnes_app (a b : string) :
  countOnes (a ++ b) = countOnes a + countOnes b.
Proof. induction a as [|c r IH]; simpl; [reflexivity | rewrite IH; lia]. Qed.

Lemma countOnes_bitString (l : list bool) :
  countOnes (bitString l) = Z.of_nat (List.length (filter (fun b => b) l)).
Proof.
  induction l as [|[|] r IH]; cbn [bitString countOnes filter List.length].
  - reflexivity.
  - rewrite IH. cbn [Ascii.eqb Bool.eqb]. lia.
  - rewrite IH. cbn [Ascii.eqb Bool.eqb]. lia.
Qed.

(** C5.  [validateSubnetMask] hands on whatever error the address
    validation reports; on a valid address it succeeds exactly when the 32
    bits of the mask are a run of ones followed by a run of zeros, and
    fails with [NonContiguousMask] exactly when a 1-bit follows a 0-bit;
    255.255.255.0 is accepted and has 24 one-bits, 255.0.255.0 is refused. *)
Theorem validateSubnetMask_contiguous :
  (forall (subnetMask : string) (e : ValidationError),
      validateIpAddress subnetMask = Invalid e ->
      validateSubnetMask subnetMask = Invalid e)
  /\ (forall subnetMask : string,
        valid (validateIpAddress subnetMask) = true ->
        (validateSubnetMask subnetMask = Valid None <->
           contiguous (bits32 (valueOf subnetMask)))
        /\ (validateSubnetMask subnetMask = Invalid NonContiguousMask <->
              oneAfterZero (bits32 (valueOf subnetMask)))
        /\ (validateSubnetMask subnetMask = Valid None
             \/ validateSubnetMask subnetMask = Invalid NonContiguousMask))
  /\ validateSubnetMask "255.255.255.0" = Valid None
  /\ popcount (valueOf "255.255.255.0") = 24
  /\ validateSubnetMask "255.0.255.0" = Invalid NonContiguousMask.
Proof.
  split; [|split; [|repeat split]].
  - intros m e V. unfold validateSubnetMask. now rewrite V.
  - intros m V. apply valid_address in V as (A & HA & W & _).
    rewrite (validateSubnetMask_address _ _ HA), (valueOf_address _ _ HA).
    rewrite <- scan_contiguous, <- scan_oneAfterZero.
    destruct (onesThenZeros false (bitString (bits32 (toInt A)))).
    + split; [now split|]. split; [split; discriminate | now left].
    + split; [split; discriminate|]. split; [now split | now right].
Qed.

Lemma validateSubnetMask_contiguous_witness :
  validateSubnetMask "1.2.3" = Invalid MissingOctets
  /\ (validateSubnetMask "255.255.254.0" = Valid None <->
       contiguous (bits32 (valueOf "255.255.254.0"))).
Proof.
  split.
  - exact (proj1 validateSubnetMask_contiguous "1.2.3" MissingOctets eq_refl).
  - exact (proj1 (proj1 (proj2 validateSubnetMask_contiguous)
                    "255.255.254.0" eq_refl)).
Defined.

End Codec.

(* ================================================================== *)
(** * Subnet Evaluator *)
(* ================================================================== *)

Module Evaluator.
Import JS IpUtils Spec JSFacts ValidationFacts BitFacts AddressFacts BinaryFacts.
Import Codec.

(** ** Membership (claim C1) *)

Lemma band_address (a m : string) (A M : IPv4Address) :
  addressOf a = Some A -> addressOf m = Some M ->
  band (ipToInt a) (ipToInt m)
  = Num (ToInt32 (Num (Z.land (toInt A) (toInt M)))).
Proof.
  intros HA HM.
  now rewrite (ipToInt_address _ _ HA), (ipToInt_address _ _ HM), band_Num.
Qed.

Lemma isIpInNetwork_address (a n m : string) (A N M : IPv4Address) :
  addressOf a = Some A -> addressOf n = Some N -> addressOf m = Some M ->
  isIpInNetwork a n m
  = (Z.land (toInt A) (toInt M) =? Z.land (toInt N) (toInt M)).
Proof.
  intros HA HN HM. unfold isIpInNetwork.
  rewrite (band_address _ _ _ _ HA HM), (band_address _ _ _ _ HN HM).
  cbn [strict_eq].
  pose proof (proj1 (proj1 (addressOf_Some _ _) HA)) as WA.
  pose proof (proj1 (proj1 (addressOf_Some _ _) HN)) as WN.
  pose proof (land_uint32 _ (toInt M) (toInt_uint32 _ WA)) as UA.
  pose proof (land_uint32 _ (toInt M) (toInt_uint32 _ WN)) as UN.
  destruct (Z.land (toInt A) (toInt M) =? Z.land (toInt N) (toInt M)) eqn:E.
  - apply Z.eqb_eq in E. rewrite E. apply Z.eqb_refl.
  - apply Z.eqb_neq in E. apply Z.eqb_neq. intros S. apply E.
    now apply ToInt32_uint32_inj.
Qed.

(** C1.  On valid texts [isIpInNetwork] is true exactly when the address
    and the network address, each masked as given, agree; the network
    address need not be aligned to the mask. *)
Theorem isIpInNetwork_masked_equality :
  (forall ip networkAddress subnetMask : string,
      valid (validateIpAddress ip) = true ->
      valid (validateIpAddress networkAddress) = true ->
      valid (validateIpAddress subnetMask) = true ->
      isIpInNetwork ip networkAddress subnetMask
      = strict_eq (band (ipToInt ip) (ipToInt subnetMask))
                  (band (ipToInt networkAddress) (ipToInt subnetMask))
      /\ (isIpInNetwork ip networkAddress subnetMask = true <->
          Z.land (valueOf ip) (valueOf subnetMask)
          = Z.land (valueOf networkAddress) (valueOf subnetMask)))
  /\ isIpInNetwork "192.168.1.10" "192.168.1.0" "255.255.255.0" = true
  /\ isIpInNetwork "192.168.2.10" "192.168.1.0" "255.255.255.0" = false
  /\ isIpInNetwork "10.0.0.200" "10.0.0.77" "255.255.255.0" = true.
Proof.
  split; [|repeat split].
  intros a n m Va Vn Vm. split; [reflexivity|].
  apply valid_address in Va as (A & HA & _), Vn as (N & HN & _), Vm as (M & HM & _).
  rewrite (isIpInNetwork_address _ _ _ _ _ _ HA HN HM).
  rewrite (valueOf_address _ _ HA), (valueOf_address _ _ HN), (valueOf_address _ _ HM).
  apply Z.eqb_eq.
Qed.

Lemma isIpInNetwork_masked_equality_witness :
  isIpInNetwork "172.16.5.4" "172.16.0.0" "255.255.0.0" = true <->
  Z.land (valueOf "172.16.5.4") (valueOf "255.255.0.0")
  = Z.land (valueOf "172.16.0.0") (valueOf "255.255.0.0").
Proof.
  exact (proj2 (proj1 isIpInNetwork_masked_equality
                  "172.16.5.4" "172.16.0.0" "255.255.0.0" eq_refl eq_refl eq_refl)).
Defined.

(** ** The explanation of a mismatch (claim C2) *)

Lemma fromInt_congruent (x y : Z) :
  x mod 2 ^ 32 = y mod 2 ^ 32 -> fromInt x = fromInt y.
Proof. intros E. now rewrite <- (fromInt_mod x), <- (fromInt_mod y), E. Qed.

Lemma fromInt_ToInt32_add (x k : Z) :
  fromInt (ToInt32 (Num x) + k) = fromInt (x + k).
Proof.
  apply fromInt_congruent. change (2 ^ 32) with 4294967296.
  rewrite Z.add_mod, ToInt32_mod, <- Z.add_mod by lia. reflexivity.
Qed.

Lemma hostBits_value (u : Z) :
  ushr (bnot (Num (ToInt32 (Num u)))) 0 = Num (Z.lnot u mod 2 ^ 32).
Proof.
  unfold ushr, bnot. rewrite ToInt32_idem, lnot_ToInt32.
  unfold ToUint32 at 1. rewrite two32_value, ToInt32_mod.
  now rewrite Z.shiftr_0_r.
Qed.

Lemma cidr_popcount (text : string) (A : IPv4Address) :
  addressOf text = Some A -> countOnes (ipToBinary text) = popcount (toInt A).
Proof.
  intros H. pose proof (proj1 (proj1 (addressOf_Some _ _) H)) as W.
  rewrite (ipToBinary_address _ _ H). unfold popcount.
  rewrite (bits32_octets _ W). cbn [map join].
  rewrite !countOnes_app, !countOnes_bitString.
  rewrite !filter_app, !length_app, !Nat2Z.inj_add.
  change (countOnes ".") with 0. lia.
Qed.

(** The fields of the explanation, for texts that denote addresses. *)
Lemma mismatchOf_address (ip net mask : string) (A N M : IPv4Address) :
  addressOf ip = Some A -> addressOf net = Some N -> addressOf mask = Some M ->
  let m := mismatchOf ip net mask in
  let networkID := Z.land (toInt N) (toInt M) in
  let broadcast := Z.lor networkID (Z.lnot (toInt M) mod 2 ^ 32) in
  intToIp (expectedNetworkId m) = render (fromInt networkID)
  /\ intToIp (ipNetworkId m) = render (fromInt (Z.land (toInt A) (toInt M)))
  /\ cidr m = popcount (toInt M)
  /\ broadcastAddress m = render (fromInt broadcast)
  /\ firstHost m = render (fromInt (networkID + 1))
  /\ lastHost m = render (fromInt (broadcast - 1)).
Proof.
  intros HA HN HM m networkID broadcast. subst m. unfold mismatchOf.
  cbn [expectedNetworkId ipNetworkId cidr broadcastAddress firstHost lastHost].
  rewrite (band_address _ _ _ _ HA HM), (band_address _ _ _ _ HN HM).
  rewrite (ipToInt_address _ _ HM), hostBits_value, bor_Num.
  fold networkID. fold broadcast. cbn [add sub].
  rewrite !intToIp_render, !fromInt_ToInt32.
  rewrite (cidr_popcount _ _ HM).
  replace (ToInt32 (Num broadcast) - 1) with (ToInt32 (Num broadcast) + -1) by lia.
  rewrite !fromInt_ToInt32_add.
  replace (broadcast + -1) with (broadcast - 1) by lia.
  repeat split.
Qed.

(** The text ends with the valid range, written from the computed fields. *)
Lemma explainNetworkMismatch_range (ip net mask : string) :
  let m := mismatchOf ip net mask in
  exists prefix : string,
    explainNetworkMismatch ip net mask
    = prefix
        ++ "4. Valid IP Range for this Network:" ++ newline
        ++ "   Network Address: " ++ net ++ " (reserved)" ++ newline
        ++ "   First Host:      " ++ firstHost m ++ newline
        ++ "   Last Host:       " ++ lastHost m ++ newline
        ++ "   Broadcast:       " ++ broadcastAddress m ++ " (reserved)"
        ++ newline ++ newline
        ++ "   Valid host IPs: " ++ firstHost m ++ " to " ++ lastHost m.
Proof.
  intros m. unfold explainNetworkMismatch. fold m. cbv zeta.
  match goal with
  | |- exists p, ((((((?X ++ _) ++ _) ++ _) ++ _) ++ _) ++ _) = _ => exists X
  end.
  rewrite !append_assoc. reflexivity.
Qed.

(** C2.  For valid texts, whether or not the address belongs to the
    network and whatever the mask, [explainNetworkMismatch] computes: the
    network ID as network address AND mask, the network ID of the
    submitted address as address AND mask, the prefix length as the number
    of 1-bits of the mask, the broadcast address as network ID OR the
    32-bit complement of the mask, the first host as network ID plus one
    and the last host as broadcast minus one, each written out by
    [intToIp], which reads its argument modulo 2^32; the text it returns
    ends with the range written from these fields; /31 and /32 masks go
    through the same arithmetic. *)
Theorem explainNetworkMismatch_fields :
  (forall ip networkAddress subnetMask : string,
      valid (validateIpAddress ip) = true ->
      valid (validateIpAddress networkAddress) = true ->
      valid (validateIpAddress subnetMask) = true ->
      let m := mismatchOf ip networkAddress subnetMask in
      let networkID := Z.land (valueOf networkAddress) (valueOf subnetMask) in
      let broadcast := Z.lor networkID (Z.lnot (valueOf subnetMask) mod 2 ^ 32) in
      intToIp (expectedNetworkId m) = render (fromInt networkID)
      /\ intToIp (ipNetworkId m)
          = render (fromInt (Z.land (valueOf ip) (valueOf subnetMask)))
      /\ cidr m = popcount (valueOf subnetMask)
      /\ broadcastAddress m = render (fromInt broadcast)
      /\ firstHost m = render (fromInt (networkID + 1))
      /\ lastHost m = render (fromInt (broadcast - 1))
      /\ exists prefix : string,
           explainNetworkMismatch ip networkAddress subnetMask
           = prefix
               ++ "4. Valid IP Range for this Network:" ++ newline
               ++ "   Network Address: " ++ networkAddress ++ " (reserved)"
               ++ newline
               ++ "   First Host:      " ++ firstHost m ++ newline
               ++ "   Last Host:       " ++ lastHost m ++ newline
               ++ "   Broadcast:       " ++ broadcastAddress m ++ " (reserved)"
               ++ newline ++ newline
               ++ "   Valid host IPs: " ++ firstHost m ++ " to " ++ lastHost m)
  /\ (let m := mismatchOf "10.0.1.5" "10.0.0.0" "255.255.255.0" in
      intToIp (expectedNetworkId m) = "10.0.0.0"
      /\ intToIp (ipNetworkId m) = "10.0.1.0"
      /\ cidr m = 24
      /\ firstHost m = "10.0.0.1"
      /\ lastHost m = "10.0.0.254"
      /\ broadcastAddress m = "10.0.0.255")
  /\ (let m := mismatchOf "10.0.0.9" "10.0.0.4" "255.255.255.254" in
      intToIp (expectedNetworkId m) = "10.0.0.4"
      /\ cidr m = 31
      /\ firstHost m = "10.0.0.5"
      /\ lastHost m = "10.0.0.4"
      /\ broadcastAddress m = "10.0.0.5")
  /\ (let m := mismatchOf "10.0.0.9" "255.255.255.255" "255.255.255.255" in
      intToIp (expectedNetworkId m) = "255.255.255.255"
      /\ cidr m = 32
      /\ firstHost m = "0.0.0.0"
      /\ lastHost m = "255.255.255.254"
      /\ broadcastAddress m = "255.255.255.255")
  /\ explainNetworkMismatch "10.0.1.5" "10.0.0.0" "255.255.255.0"
     = "Your IP address 10.0.1.5 does not belong to the network 10.0.0.0/24.

Here's why:

1. Network ID Calculation:
   Network Address: 10.0.0.0 (00001010.00000000.00000000.00000000)
   Subnet Mask:     255.255.255.0 (11111111.11111111.11111111.00000000)
   Network ID:      10.0.0.0 (00001010.00000000.00000000.00000000)

2. Your IP's Network ID:
   Your IP:         10.0.1.5 (00001010.00000000.00000001.00000101)
   Subnet Mask:     255.255.255.0 (11111111.11111111.11111111.00000000)
   Calculated ID:   10.0.1.0 (00001010.00000000.00000001.00000000)

3. The Problem:
   Your IP's network ID (10.0.1.0) does not match the required network ID (10.0.0.0).
   This means your IP is in a different network.

4. Valid IP Range for this Network:
   Network Address: 10.0.0.0 (reserved)
   First Host:      10.0.0.1
   Last Host:       10.0.0.254
   Broadcast:       10.0.0.255 (reserved)

   Valid host IPs: 10.0.0.1 to 10.0.0.254".
Proof.
  split; [|repeat split].
  intros a n m Va Vn Vm.
  apply valid_address in Va as (A & HA & _), Vn as (N & HN & _), Vm as (M & HM & _).
  rewrite (valueOf_address _ _ HA), (valueOf_address _ _ HN), (valueOf_address _ _ HM).
  destruct (mismatchOf_address a n m A N M HA HN HM) as (F1 & F2 & F3 & F4 & F5 & F6).
  repeat (split; [assumption|]). apply explainNetworkMismatch_range.
Qed.

Lemma explainNetworkMismatch_fields_witness :
  firstHost (mismatchOf "172.16.9.1" "172.16.4.0" "255.255.252.0")
  = render (fromInt (Z.land (valueOf "172.16.4.0") (valueOf "255.255.252.0") + 1)).
Proof.
  exact (proj1 (proj2 (proj2 (proj2 (proj2
    (proj1 explainNetworkMismatch_fields
       "172.16.9.1" "172.16.4.0" "255.255.252.0" eq_refl eq_refl eq_refl)))))).
Defined.

End Evaluator.

(* ================================================================== *)
(** * Network Generator *)
(* ================================================================== *)

Module Generator.
Import JS IpUtils Spec JSFacts ValidationFacts BitFacts AddressFacts BinaryFacts.
Import Codec Evaluator.

(** ** The random offset *)

Lemma floor_scaled_range (u : Q) (n : Z) :
  (0 <= u)%Q -> (u < 1)%Q -> 1 <= n -> 0 <= floor_scaled u n <= n - 1.
Proof.
  intros L H N. unfold floor_scaled.
  assert (Pn : (inject_Z 0 < inject_Z n)%Q) by (rewrite <- Zlt_Qlt; lia).
  change (inject_Z 0) with 0%Q in Pn.
  split.
  - rewrite <- (Qfloor_Z 0). apply Qfloor_resp_le.
    apply Qmult_le_0_compat; [exact L | now apply Qlt_le_weak].
  - assert (B : (u * inject_Z n < inject_Z n)%Q).
    { setoid_replace (inject_Z n) with (1 * inject_Z n)%Q at 2 by ring.
      now apply Qmult_lt_compat_r. }
    assert (F : (inject_Z (Qfloor (u * inject_Z n)) < inject_Z n)%Q).
    { eapply Qle_lt_trans; [apply Qfloor_le | exact B]. }
    rewrite <- Zlt_Qlt in F. lia.
Qed.

(** ** Bits of the mask and of the offset *)

Lemma small_bits (x i n : Z) :
  0 <= x < 2 ^ i -> 0 <= i <= n -> Z.testbit x n = false.
Proof.
  intros X N. rewrite <- (Z.mod_small x (2 ^ i)) by exact X.
  now apply Z.mod_pow2_bits_high.
Qed.

Lemma bits_small (x i : Z) :
  0 <= i -> (forall n, i <= n -> Z.testbit x n = false) -> 0 <= x < 2 ^ i.
Proof.
  intros I H.
  assert (E : x = x mod 2 ^ i).
  { apply Z.bits_inj'. intros n N. destruct (Z_lt_le_dec n i) as [L|G].
    - now rewrite Z.mod_pow2_bits_low.
    - rewrite Z.mod_pow2_bits_high by lia. now apply H. }
  rewrite E. apply Z.mod_pos_bound. now apply Z.pow_pos_nonneg.
Qed.

Lemma nth_error_positions (p : nat) :
  (p < 32)%nat -> nth_error (positions 32) p = Some (31 - Z.of_nat p).
Proof.
  intros P. do 32 (destruct p as [|p]; [reflexivity|]). lia.
Qed.

Lemma nth_error_bits32 (u i : Z) :
  0 <= i < 32 ->
  nth_error (bits32 u) (Z.to_nat (31 - i)) = Some (Z.testbit u i).
Proof.
  intros I. unfold bits32, bits. rewrite nth_error_map.
  rewrite nth_error_positions by lia. cbn [option_map]. do 2 f_equal. lia.
Qed.

(** In a mask without a 1-bit after a 0-bit, the bits above a 1-bit are
    1-bits. *)
Lemma mask_upward (u i j : Z) :
  ~ oneAfterZero (bits32 u) -> 0 <= i <= j -> j < 32 ->
  Z.testbit u i = true -> Z.testbit u j = true.
Proof.
  intros C I J Ti. destruct (Z.testbit u j) eqn:Tj; [reflexivity|].
  elim C. exists (Z.to_nat (31 - j)), (Z.to_nat (31 - i)).
  assert (i <> j) by congruence.
  split; [lia|]. rewrite !nth_error_bits32 by lia. now rewrite Ti, Tj.
Qed.

Lemma complement_bits (u n : Z) :
  0 <= n ->
  Z.testbit (Z.lnot u mod 2 ^ 32) n = (n <? 32) && negb (Z.testbit u n).
Proof.
  intros N. destruct (n <? 32) eqn:L.
  - apply Z.ltb_lt in L. rewrite Z.mod_pow2_bits_low by lia.
    now rewrite Z.lnot_spec.
  - apply Z.ltb_ge in L. now rewrite Z.mod_pow2_bits_high by lia.
Qed.

Lemma land_complement (u : Z) : Z.land u (Z.lnot u mod 2 ^ 32) = 0.
Proof.
  apply Z.bits_inj'. intros n N.
  rewrite Z.land_spec, complement_bits, Z.bits_0 by lia.
  destruct (Z.testbit u n), (n <? 32); reflexivity.
Qed.

(** An offset below the host mask has no bit in common with the mask. *)
Lemma land_offset (u h : Z) :
  uint32 u -> ~ oneAfterZero (bits32 u) ->
  0 <= h < Z.lnot u mod 2 ^ 32 -> Z.land u h = 0.
Proof.
  intros U C H. apply Z.bits_inj'. intros n N.
  rewrite Z.land_spec, Z.bits_0.
  destruct (Z.testbit u n) eqn:Tn; [cbn [andb] | reflexivity].
  destruct (Z_lt_le_dec n 32) as [L|G].
  2:{ now rewrite (small_bits u 32 n U) in Tn by lia. }
  assert (B : 0 <= Z.lnot u mod 2 ^ 32 < 2 ^ n).
  { apply bits_small; [exact N|]. intros j J.
    rewrite complement_bits by lia.
    destruct (j <? 32) eqn:Lj; [|reflexivity]. apply Z.ltb_lt in Lj.
    now rewrite (mask_upward u n j C) by (lia || assumption). }
  apply (small_bits h n n); lia.
Qed.

Lemma lor_disjoint (x y : Z) : Z.land x y = 0 -> Z.lor x y = x + y.
Proof. intros E. rewrite <- (Z.add_lor_land x y), E. lia. Qed.

Lemma render_fromInt_inj (x y : Z) :
  uint32 x -> uint32 y ->
  render (fromInt x) = render (fromInt y) -> x = y.
Proof.
  intros X Y E.
  pose proof (addressOf_render _ (wellFormed_fromInt x)) as Ax.
  rewrite E, (addressOf_render _ (wellFormed_fromInt y)) in Ax.
  assert (Ex : Some (toInt (fromInt y)) = Some (toInt (fromInt x)))
    by (exact (f_equal (option_map toInt) Ax)).
  injection Ex as Ex.
  rewrite !toInt_fromInt, !Z.mod_small in Ex by assumption. now symmetry.
Qed.

(** ** Products that round *)

Lemma roundTiesToEven_range (x : Q) :
  Qnum x / Zpos (Qden x) <= roundTiesToEven x <= Qnum x / Zpos (Qden x) + 1.
Proof.
  unfold roundTiesToEven.
  destruct (2 * (Qnum x mod Zpos (Qden x)) ?= Zpos (Qden x)); [|lia|lia].
  destruct (Z.even (Qnum x / Zpos (Qden x))); lia.
Qed.

Lemma roundTiesToEven_nonneg (x : Q) : 0 <= Qnum x -> 0 <= roundTiesToEven x.
Proof.
  intros N. pose proof (roundTiesToEven_range x) as R.
  assert (0 <= Qnum x / Zpos (Qden x)) by (apply Z.div_pos; lia). lia.
Qed.

(** Below [N - 1/2] the rounding stays below [N]. *)
Lemma roundTiesToEven_below (x : Q) (N : Z) :
  2 * Qnum x < (2 * N - 1) * Zpos (Qden x) -> roundTiesToEven x <= N - 1.
Proof.
  intros H. unfold roundTiesToEven.
  set (n := Qnum x) in *. set (d := Zpos (Qden x)) in *.
  assert (D : 0 < d) by (unfold d; lia).
  pose proof (Z.div_mod n d ltac:(lia)) as E.
  pose proof (Z.mod_pos_bound n d D) as B.
  set (f := n / d) in *. set (r := n mod d) in *.
  assert (F : f <= N - 1) by nia.
  destruct (Z.eq_dec f (N - 1)) as [Ef|Nf].
  - assert (L : 2 * r < d) by nia.
    apply Z.compare_lt_iff in L. now rewrite L.
  - destruct (2 * r ?= d); [destruct (Z.even f)|..]; lia.
Qed.

Lemma scale2_up (x : Q) (k : Z) :
  0 <= k -> scale2 x k = (Qnum x * 2 ^ k) # (Qden x * 1).
Proof.
  intros K. unfold scale2. apply Z.leb_le in K. now rewrite K.
Qed.

Lemma scale2_down (r k : Z) :
  0 < k -> Qfloor (scale2 (inject_Z r) (- k)) = r / 2 ^ k.
Proof.
  intros K. unfold scale2.
  replace (0 <=? - k) with false by (symmetry; apply Z.leb_gt; lia).
  rewrite Z.opp_involutive.
  assert (P : 0 < 2 ^ k) by (apply Z.pow_pos_nonneg; lia).
  unfold Qdiv, Qinv, inject_Z. cbn [Qnum Qden].
  destruct (2 ^ k) as [|p|p] eqn:E; try lia.
  unfold Qmult, Qfloor. cbn [Qnum Qden]. now rewrite Z.mul_1_r.
Qed.

(** The value [nearest64] rounds at: with [k] the grid [2^-k]. *)
Lemma nearest64_grid (x : Q) :
  let excess := Z.max 0 (Z.log2 (Qnum x * 2 ^ 1074 / Zpos (Qden x)) - 52) in
  let k := 1074 - excess in
  nearest64 x = scale2 (inject_Z (roundTiesToEven (scale2 x k))) (- k).
Proof.
  intros excess k. unfold nearest64.
  rewrite (scale2_up x 1074) by lia. unfold Qfloor.
  rewrite Pos.mul_1_r. reflexivity.
Qed.

Lemma log2_bound (t b : Z) : 0 <= t < 2 ^ b -> 0 < b -> Z.log2 t < b.
Proof.
  intros T B. destruct (Z.eq_dec t 0) as [->|N]; [change (Z.log2 0) with 0; lia|].
  apply Z.log2_lt_pow2; lia.
Qed.

(** A double below 1 is at most [1 - 2^-53]. *)
Lemma double_below_one (a : Z) (b : positive) :
  0 < a < Zpos b -> isDouble (a # b) = true ->
  a * 2 ^ 53 <= (2 ^ 53 - 1) * Zpos b.
Proof.
  intros [A0 A1] D. unfold isDouble, binary64 in D. cbn [Qnum] in D.
  destruct a as [|a'|a']; try lia.
  apply Qeq_bool_iff in D. rewrite nearest64_grid in D. cbn [Qnum Qden] in D.
  set (a := Zpos a') in *.
  set (T := a * 2 ^ 1074 / Zpos b) in *.
  set (excess := Z.max 0 (Z.log2 T - 52)) in *.
  set (k := 1074 - excess) in *.
  assert (P1074 : 0 < 2 ^ 1074) by (apply Z.pow_pos_nonneg; lia).
  assert (T0 : 0 <= T) by (apply Z.div_pos; nia).
  assert (T1 : T < 2 ^ 1074).
  { apply Z.div_lt_upper_bound; [lia|]. nia. }
  pose proof (log2_bound T 1074 (conj T0 T1) ltac:(lia)) as LG.
  assert (K : 53 <= k <= 1074) by (unfold k, excess; lia).
  destruct (Z.eq_dec k 53) as [E|N].
  - rewrite E in D. clearbody a.
    set (r := roundTiesToEven (scale2 (a # b) 53)) in *. clearbody r.
    unfold scale2 in D.
    change (0 <=? - (53)) with false in D.
    change (- - (53)) with 53 in D.
    assert (Q : (inject_Z r / inject_Z (2 ^ 53) == r # (Z.to_pos (2 ^ 53)))%Q).
    { unfold Qeq, Qdiv, Qinv, Qmult, inject_Z. cbn [Qnum Qden].
      change (2 ^ 53) with 9007199254740992. cbn. lia. }
    apply (Qeq_trans _ _ _ (Qeq_sym _ _ Q)) in D.
    unfold Qeq in D. cbn [Qnum Qden] in D.
    change (Z.pos (Z.to_pos (2 ^ 53))) with (2 ^ 53) in D.
    clear - D A0 A1.
    assert (P : 0 < 2 ^ 53) by (apply Z.pow_pos_nonneg; lia).
    set (p := 2 ^ 53) in *. clearbody p.
    assert (H1 : r * Zpos b < p * Zpos b).
    { rewrite D, (Z.mul_comm p). apply Z.mul_lt_mono_pos_r; assumption. }
    assert (H2 : r < p) by (apply Z.mul_lt_mono_pos_r in H1; lia).
    rewrite <- D. apply Z.mul_le_mono_nonneg_r; lia.
  - assert (X : excess <= 1020) by (unfold k in *; lia).
    assert (LG' : Z.log2 T < 1073) by (unfold excess in X; lia).
    assert (T2 : T < 2 ^ 1073).
    { destruct (Z.eq_dec T 0) as [->|NT]; [apply Z.pow_pos_nonneg; lia|].
      apply Z.log2_lt_pow2; lia. }
    assert (H : a * 2 ^ 1074 < 2 ^ 1073 * Zpos b).
    { unfold T in T2.
      pose proof (Z.mul_succ_div_gt (a * 2 ^ 1074) (Zpos b) ltac:(lia)) as G.
      nia. }
    change (2 ^ 1074) with (2 ^ 1073 * 2) in H.
    assert (P1073 : 0 < 2 ^ 1073) by (apply Z.pow_pos_nonneg; lia).
    assert (2 * a < Zpos b) by nia.
    change (2 ^ 53) with 9007199254740992. lia.
Qed.

Lemma times_zero (u : Q) : times u (inject_Z 0) = 0%Q.
Proof.
  unfold times, binary64, Qmult, inject_Z. cbn [Qnum Qden].
  now rewrite Z.mul_0_r.
Qed.

(** [Math.floor (u * n)] for a double [u] in [0, 1) and an integer [n] from
    1 to below 2^32: the rounded product stays below [n]. *)
Lemma floor_times_range (u : Q) (n : Z) :
  isDouble u = true -> (0 <= u)%Q -> (u < 1)%Q -> 1 <= n < 2 ^ 32 ->
  0 <= Qfloor (times u (inject_Z n)) <= n - 1.
Proof.
  intros D U0 U1 N. destruct u as [a b].
  unfold Qle in U0. unfold Qlt in U1. cbn [Qnum Qden] in U0, U1.
  assert (A : 0 <= a < Zpos b) by lia. clear U0 U1.
  unfold times, binary64, Qmult, inject_Z. cbn [Qnum Qden].
  destruct (Z.eq_dec a 0) as [->|A0].
  { cbn [Z.mul Qfloor Qnum Qden]. change (0 / 1) with 0. lia. }
  pose proof (double_below_one a b ltac:(lia) D) as G.
  assert (AN : 0 < a * n) by nia.
  destruct (a * n) as [|an|an] eqn:EAN; try lia. rewrite <- EAN. clear an EAN AN.
  rewrite nearest64_grid. cbn [Qnum Qden].
  set (T := a * n * 2 ^ 1074 / Zpos (b * 1)).
  set (excess := Z.max 0 (Z.log2 T - 52)).
  set (k := 1074 - excess).
  assert (P1074 : 0 < 2 ^ 1074) by (apply Z.pow_pos_nonneg; lia).
  assert (B1 : Zpos (b * 1) = Zpos b) by now rewrite Pos.mul_1_r.
  assert (T0 : 0 <= T) by (apply Z.div_pos; nia).
  assert (T1 : T < 2 ^ 1106).
  { apply Z.div_lt_upper_bound; [lia|]. rewrite B1.
    change (2 ^ 1106) with (2 ^ 32 * 2 ^ 1074).
    assert (a * n < Zpos b * 2 ^ 32) by nia.
    rewrite Z.mul_assoc. apply Z.mul_lt_mono_pos_r; assumption. }
  pose proof (log2_bound T 1106 (conj T0 T1) ltac:(lia)) as LG.
  assert (K : 21 <= k <= 1074) by (unfold k, excess; lia).
  rewrite scale2_down by lia.
  assert (Pk : 0 < 2 ^ k) by (apply Z.pow_pos_nonneg; lia).
  rewrite (scale2_up _ k) by lia. cbn [Qnum Qden].
  set (x := (a * n * 2 ^ k # b * 1 * 1)).
  assert (R0 : 0 <= roundTiesToEven x).
  { apply roundTiesToEven_nonneg. unfold x. cbn [Qnum]. nia. }
  assert (R1 : roundTiesToEven x <= n * 2 ^ k - 1).
  { apply roundTiesToEven_below. unfold x. cbn [Qnum Qden].
    rewrite !Pos.mul_1_r.
    (* n 2^k (b - a) 2 > b *)
    assert (H : Zpos b < 2 * (n * 2 ^ k) * (Zpos b - a)); [|nia].
    destruct (Z.eq_dec excess 0) as [E0|E1].
    - assert (Ek : k = 1074) by (unfold k; lia). rewrite Ek.
      change (2 ^ 1074) with (2 ^ 53 * 2 ^ 1021).
      assert (P1021 : 1 < 2 ^ 1021) by (apply Z.pow_gt_1; lia).
      set (p := 2 ^ 53) in *. set (q := 2 ^ 1021) in *. clearbody p q.
      assert (G' : Zpos b <= p * (Zpos b - a)) by lia.
      replace (2 * (n * (p * q)) * (Zpos b - a))
        with (2 * (n * q) * (p * (Zpos b - a))) by ring.
      set (d := p * (Zpos b - a)) in *. clearbody d.
      assert (1 <= n * q) by nia. nia.
    - assert (EX : excess = Z.log2 T - 52 /\ 0 < excess) by (unfold excess in *; lia).
      destruct EX as [EX X0].
      assert (TP : 0 < T).
      { destruct (Z.eq_dec T 0) as [TZ|TN]; [|lia].
        rewrite TZ in EX. change (Z.log2 0) with 0 in EX. lia. }
      pose proof (proj1 (Z.log2_spec T TP)) as L2.
      replace (Z.log2 T) with (excess + 52) in L2 by lia.
      rewrite Z.pow_add_r in L2 by lia.
      assert (TD : T * Zpos b <= a * n * 2 ^ 1074).
      { unfold T. rewrite B1, Z.mul_comm. apply Z.mul_div_le. lia. }
      replace 1074 with (k + excess) in TD by (unfold k; lia).
      rewrite Z.pow_add_r in TD by lia.
      assert (Pe : 0 < 2 ^ excess) by (apply Z.pow_pos_nonneg; lia).
      set (e := 2 ^ excess) in *. set (q := 2 ^ k) in *.
      assert (P52 : 2 ^ 52 * 2 = 2 ^ 53) by reflexivity.
      set (p52 := 2 ^ 52) in *. set (p := 2 ^ 53) in *.
      assert (P52' : 0 < p52) by (unfold p52; apply Z.pow_pos_nonneg; lia).
      clearbody e q p52 p T.
      (* e * p52 <= T ; T b <= a n q e  =>  p52 b <= a n q *)
      assert (S1 : e * p52 * Zpos b <= a * n * (q * e)) by nia.
      assert (S2 : p52 * Zpos b <= a * n * q).
      { apply (Z.mul_le_mono_pos_l _ _ e Pe). nia. }
      assert (S3 : p52 * Zpos b < Zpos b * (n * q)) by nia.
      assert (S4 : p52 < n * q) by nia.
      assert (S5 : Zpos b * p52 < (n * q) * (p52 * 2 * (Zpos b - a))) by nia.
      nia. }
  split.
  - apply Z.div_pos; lia.
  - assert (roundTiesToEven x / 2 ^ k < n); [|lia].
    apply Z.div_lt_upper_bound; [lia|]. nia.
Qed.

Lemma floor_times_minus_one (u : Q) :
  isDouble u = true -> (0 < u)%Q -> (u < 1)%Q ->
  Qfloor (times u (inject_Z (-1))) = -1.
Proof.
  intros D U0 U1. destruct u as [a b].
  assert (A : 0 < a) by (unfold Qlt in U0; cbn [Qnum Qden] in U0; lia).
  unfold isDouble, binary64 in D. cbn [Qnum] in D.
  destruct a as [|a'|a']; try lia.
  apply Qeq_bool_iff in D.
  assert (EQ : ((Zpos a' # b) * inject_Z (-1))%Q = Zneg a' # b).
  { unfold Qmult, inject_Z. cbn [Qnum Qden]. f_equal; lia. }
  unfold times, binary64. rewrite EQ. cbn [Qnum].
  change (- (Z.neg a' # b))%Q with (Zpos a' # b).
  assert (E : (- nearest64 (Zpos a' # b) == - (Zpos a' # b))%Q) by now rewrite D.
  rewrite (Qfloor_comp _ _ E).
  pose proof (Qfloor_le (- (Zpos a' # b))) as L.
  pose proof (Qlt_floor (- (Zpos a' # b))) as H.
  set (f := Qfloor (- (Z.pos a' # b))) in *. clearbody f.
  unfold Qle, Qlt, Qopp, inject_Z in *. cbn [Qnum Qden] in *. nia.
Qed.

(** ** The generated address (claim C9) *)

Lemma generateIpInNetwork_value (u : Q) (net mask : string) (N M : IPv4Address) :
  addressOf net = Some N -> addressOf mask = Some M ->
  generateIpInNetwork u net mask
  = render (fromInt (Z.lor (Z.land (toInt N) (toInt M))
                           (Qfloor (times u (inject_Z (hostSpan (toInt M) - 2)))
                            + 1))).
Proof.
  intros HN HM.
  change (generateIpInNetwork u net mask)
    with (intToIp (generateIpIntInNetwork u net mask)).
  unfold generateIpIntInNetwork.
  rewrite (band_address _ _ _ _ HN HM), (ipToInt_address _ _ HM), hostBits_value.
  cbn [sub]. rewrite bor_Num, intToIp_render, fromInt_ToInt32.
  pose proof (toInt_uint32 M (proj1 (proj1 (addressOf_Some _ _) HM))) as U.
  unfold uint32 in U. change (2 ^ 32) with 4294967296 in *.
  rewrite (lnot_mod _ U). unfold hostSpan. change (2 ^ 32) with 4294967296.
  replace (4294967295 - toInt M - 1) with (4294967296 - toInt M - 2) by lia.
  reflexivity.
Qed.

Lemma validateSubnetMask_valid_address (mask : string) :
  validateSubnetMask mask = Valid None -> valid (validateIpAddress mask) = true.
Proof.
  unfold validateSubnetMask. intros Vm.
  destruct (validateIpAddress mask); [discriminate Vm | reflexivity].
Qed.

Lemma lor_one_even (x : Z) : Z.even x = true -> Z.lor x 1 = x + 1.
Proof.
  intros E. apply lor_disjoint. apply Z.bits_inj'. intros n N.
  rewrite Z.land_spec, Z.bits_0.
  destruct (Z.eq_dec n 0) as [->|P].
  - rewrite Z.bit0_odd, <- Z.negb_even, E. reflexivity.
  - replace (Z.testbit 1 n) with false; [apply andb_false_r|].
    symmetry. apply (Z.bits_above_log2 1 n); [lia | cbn; lia].
Qed.

(** C9, where the code misses it.  [generateIpInNetwork] has no branch for
    small networks.  Under a /31 mask the host mask is 1, the draw is
    multiplied by 0 and the offset is 1: for every draw the address
    returned is the last address of the network, its broadcast address,
    and not the network ID.  Under a /32 mask the draw is multiplied by -1:
    for a draw of 0 the offset is 1 again, and on an even address the
    address returned is the next one, which [isIpInNetwork] does not count
    to the network.  So it is at 10.0.0.0. *)
Theorem generateIpInNetwork_misses_small_networks :
  (forall (u : Q) (networkAddress subnetMask : string),
      valid (validateIpAddress networkAddress) = true ->
      validateSubnetMask subnetMask = Valid None ->
      hostSpan (valueOf subnetMask) = 2 ->
      let networkID := Z.land (valueOf networkAddress) (valueOf subnetMask) in
      let broadcast := networkID + hostSpan (valueOf subnetMask) - 1 in
      let address := generateIpInNetwork u networkAddress subnetMask in
      address = render (fromInt broadcast)
      /\ address <> render (fromInt networkID))
  /\ (forall networkAddress subnetMask : string,
        valid (validateIpAddress networkAddress) = true ->
        validateSubnetMask subnetMask = Valid None ->
        hostSpan (valueOf subnetMask) = 1 ->
        Z.even (valueOf networkAddress) = true ->
        let address := generateIpInNetwork 0 networkAddress subnetMask in
        address = render (fromInt (valueOf networkAddress + 1))
        /\ isIpInNetwork address networkAddress subnetMask = false)
  /\ generateIpInNetwork (1 # 2) "10.0.0.0" "255.255.255.254" = "10.0.0.1"
  /\ generateIpInNetwork 0 "10.0.0.0" "255.255.255.255" = "10.0.0.1"
  /\ isIpInNetwork "10.0.0.1" "10.0.0.0" "255.255.255.255" = false.
Proof.
  split; [|split; [|repeat split]].
  - intros u net mask Vn Vm S2 networkID broadcast address.
    apply valid_address in Vn as (N & HN & WN & _).
    pose proof (validateSubnetMask_valid_address _ Vm) as Va.
    apply valid_address in Va as (M & HM & WM & _).
    pose proof (generateIpInNetwork_value u _ _ _ _ HN HM) as G.
    fold address in G. subst networkID broadcast.
    rewrite (valueOf_address _ _ HN), (valueOf_address _ _ HM) in *.
    pose proof (toInt_uint32 N WN) as UN. pose proof (toInt_uint32 M WM) as UM.
    pose proof (land_uint32 _ (toInt M) UN) as UI.
    set (networkID := Z.land (toInt N) (toInt M)) in *.
    rewrite S2 in G |- *. change (2 - 2) with 0 in G.
    rewrite times_zero in G. change (Qfloor 0 + 1) with 1 in G.
    unfold uint32 in *. change (2 ^ 32) with 4294967296 in UN, UM, UI.
    assert (HB : Z.lnot (toInt M) mod 2 ^ 32 = 1).
    { change (2 ^ 32) with 4294967296. rewrite (lnot_mod _ UM).
      unfold hostSpan in S2. change (2 ^ 32) with 4294967296 in S2. lia. }
    assert (B : Z.lor networkID 1 = networkID + 1).
    { apply lor_disjoint. unfold networkID.
      rewrite <- Z.land_assoc, <- HB. now rewrite land_complement, Z.land_0_r. }
    assert (UB : 0 <= networkID + 1 < 4294967296).
    { rewrite <- B. apply lor_uint32; [exact UI | lia]. }
    rewrite B in G. rewrite G.
    split; [f_equal; f_equal; lia|].
    intros E. apply render_fromInt_inj in E; unfold uint32;
      change (2 ^ 32) with 4294967296; lia.
  - intros net mask Vn Vm S1 Ev address.
    apply valid_address in Vn as (N & HN & WN & _).
    pose proof (validateSubnetMask_valid_address _ Vm) as Va.
    apply valid_address in Va as (M & HM & WM & _).
    pose proof (generateIpInNetwork_value 0 _ _ _ _ HN HM) as G.
    fold address in G.
    rewrite (valueOf_address _ _ HN) in *. rewrite (valueOf_address _ _ HM) in *.
    pose proof (toInt_uint32 N WN) as UN. pose proof (toInt_uint32 M WM) as UM.
    unfold uint32 in *. change (2 ^ 32) with 4294967296 in UN, UM.
    assert (EM : toInt M = Z.ones 32).
    { unfold hostSpan in S1. change (2 ^ 32) with 4294967296 in S1.
      change (Z.ones 32) with 4294967295. lia. }
    assert (L : forall x, 0 <= x < 4294967296 -> Z.land x (toInt M) = x).
    { intros x X. rewrite EM, Z.land_ones by lia.
      apply Z.mod_small. change (2 ^ 32) with 4294967296. lia. }
    rewrite (L _ UN), S1 in G. change (1 - 2) with (-1) in G.
    change (times 0 (inject_Z (-1))) with 0%Q in G.
    change (Qfloor 0 + 1) with 1 in G.
    rewrite (lor_one_even _ Ev) in G.
    assert (UB : 0 <= toInt N + 1 < 4294967296).
    { assert (toInt N <> 4294967295); [|lia].
      intros X. rewrite X in Ev. discriminate Ev. }
    split; [exact G|].
    assert (HA : addressOf address = Some (fromInt (toInt N + 1))).
    { rewrite G. apply addressOf_render, wellFormed_fromInt. }
    rewrite (isIpInNetwork_address _ _ _ _ _ _ HA HN HM).
    rewrite toInt_fromInt, (Z.mod_small _ (2 ^ 32))
      by (change (2 ^ 32) with 4294967296; lia).
    rewrite (L _ UB), (L _ UN). apply Z.eqb_neq. lia.
Qed.

Lemma generateIpInNetwork_misses_small_networks_witness :
  generateIpInNetwork (1 # 3) "10.1.2.0" "255.255.255.254"
  = render (fromInt (Z.land (valueOf "10.1.2.0") (valueOf "255.255.255.254")
                     + hostSpan (valueOf "255.255.255.254") - 1))
  /\ isIpInNetwork (generateIpInNetwork 0 "172.16.5.8" "255.255.255.255")
                   "172.16.5.8" "255.255.255.255" = false.
Proof.
  assert (Vn : valid (validateIpAddress "10.1.2.0") = true)
    by (vm_compute; reflexivity).
  assert (Vn' : valid (validateIpAddress "172.16.5.8") = true)
    by (vm_compute; reflexivity).
  assert (V31 : validateSubnetMask "255.255.255.254" = Valid None)
    by (vm_compute; reflexivity).
  assert (V32 : validateSubnetMask "255.255.255.255" = Valid None)
    by (vm_compute; reflexivity).
  assert (S2 : hostSpan (valueOf "255.255.255.254") = 2)
    by (vm_compute; reflexivity).
  assert (S1 : hostSpan (valueOf "255.255.255.255") = 1)
    by (vm_compute; reflexivity).
  assert (Ev : Z.even (valueOf "172.16.5.8") = true)
    by (vm_compute; reflexivity).
  split.
  - exact (proj1 (proj1 generateIpInNetwork_misses_small_networks
                    (1 # 3) "10.1.2.0" "255.255.255.254" Vn V31 S2)).
  - exact (proj2 (proj1 (proj2 generateIpInNetwork_misses_small_networks)
                    "172.16.5.8" "255.255.255.255" Vn' V32 S1 Ev)).
Defined.

End Generator.

(* ================================================================== *)
(** * Quiz Session *)
(* ================================================================== *)

Module Session.
Import JS IpUtils App Spec ValidationFacts AddressFacts.
Import Codec Evaluator Generator.

(** ** What one call of [handleSubmit] changes *)

Ltac submit_cases st :=
  unfold handleSubmit, judgedCorrect;
  cbn [userInput networkAddress subnetMask score correctAnswers totalAttempts
       gameCompleted submissions currentResponse errorMessage
       waitingForContinue randomCalls set_attempts];
  destruct (validateIpAddress (userInput st)) as [e|n];
  [| destruct (isIpInNetwork (or_else n (userInput st))
                 (networkAddress st) (subnetMask st));
     [cbn [userInput networkAddress subnetMask score correctAnswers
           totalAttempts gameCompleted submissions currentResponse
           errorMessage waitingForContinue randomCalls set_scores];
      destruct (5 <=? correctAnswers st + 1) |]];
  cbn [userInput networkAddress subnetMask score correctAnswers totalAttempts
       gameCompleted submissions currentResponse errorMessage
       waitingForContinue randomCalls set_attempts set_scores set_flags
       set_input record_response valid negb andb].

Lemma handleSubmit_totalAttempts (st : state) :
  totalAttempts (handleSubmit st) = totalAttempts st + 1.
Proof. submit_cases st; reflexivity. Qed.

Lemma handleSubmit_score (st : state) :
  score (handleSubmit st)
  = if judgedCorrect st then score st + 1 else score st.
Proof. submit_cases st; reflexivity. Qed.

Lemma handleSubmit_correctAnswers (st : state) :
  correctAnswers (handleSubmit st)
  = if judgedCorrect st then correctAnswers st + 1 else correctAnswers st.
Proof. submit_cases st; reflexivity. Qed.

Lemma handleSubmit_gameCompleted (st : state) :
  gameCompleted (handleSubmit st)
  = if judgedCorrect st && (5 <=? correctAnswers st + 1) then true
    else gameCompleted st.
Proof. submit_cases st; reflexivity. Qed.

Lemma handleSubmit_waitingForContinue (st : state) :
  waitingForContinue (handleSubmit st)
  = if judgedCorrect st && negb (5 <=? correctAnswers st + 1) then true
    else waitingForContinue st.
Proof. submit_cases st; reflexivity. Qed.

Lemma handleSubmit_network (st : state) :
  networkAddress (handleSubmit st) = networkAddress st
  /\ subnetMask (handleSubmit st) = subnetMask st
  /\ randomCalls (handleSubmit st) = randomCalls st.
Proof. submit_cases st; repeat split. Qed.

Lemma handleSubmit_userInput (st : state) :
  userInput (handleSubmit st)
  = if valid (validateIpAddress (userInput st)) && negb (judgedCorrect st)
    then "" else userInput st.
Proof. submit_cases st; reflexivity. Qed.

Lemma handleSubmit_submissions (st : state) :
  exists r : response,
    submissions (handleSubmit st)
    = (submissions st
         ++ [ {| entry := r; attemptNumber := totalAttempts st + 1 |} ])%list
    /\ currentResponse (handleSubmit st) = Some r
    /\ isCorrect r = judgedCorrect st
    /\ currentScore r = score (handleSubmit st)
    /\ totalQuestionsAttempted r = totalAttempts st + 1.
Proof. submit_cases st; eexists; repeat split. Qed.

Lemma handleSubmit_invalid (st : state) (e : ValidationError) :
  validateIpAddress (userInput st) = Invalid e ->
  exists r : response,
    submissions (handleSubmit st)
    = (submissions st
         ++ [ {| entry := r; attemptNumber := totalAttempts st + 1 |} ])%list
    /\ currentResponse (handleSubmit st) = Some r
    /\ isCorrect r = false
    /\ message r = "Validation error: " ++ error_message e
    /\ currentScore r = score st
    /\ errorMessage (handleSubmit st) = error_message e.
Proof.
  intros V. unfold handleSubmit.
  cbn [userInput set_attempts]. rewrite V.
  eexists. repeat split.
Qed.

(** ** Submitting (claim C6) *)

(** While the game is not completed, [submit] is [handleSubmit] on the
    text typed. *)
Lemma submit_open (raw : string) (st : state) :
  gameCompleted st = false -> submit raw st = handleSubmit (set_input st raw).
Proof.
  intros G. unfold submit, handleKeyPress. cbn [gameCompleted set_input].
  now rewrite G.
Qed.

(** C6.  [handleSubmit] adds exactly one to [totalAttempts] in every
    state.  When validation fails it pushes a submission that is not
    correct and carries the validation error in its message, and leaves
    the score, the count of correct answers, the current network and mask,
    and the text in the input as they were.  The input is emptied exactly
    when the text is valid and the answer incorrect.  So it is with
    999.1.1.1, whose first octet is out of range.  Pressing Enter on a text
    while the game is not completed is one such call. *)
Theorem handleSubmit_counts_every_attempt :
  (forall st : state, totalAttempts (handleSubmit st) = totalAttempts st + 1)
  /\ (forall (st : state) (e : ValidationError),
        validateIpAddress (userInput st) = Invalid e ->
        (exists r : response,
            submissions (handleSubmit st)
            = (submissions st
                 ++ [ {| entry := r; attemptNumber := totalAttempts st + 1 |} ])%list
            /\ isCorrect r = false
            /\ message r = "Validation error: " ++ error_message e)
        /\ score (handleSubmit st) = score st
        /\ correctAnswers (handleSubmit st) = correctAnswers st
        /\ networkAddress (handleSubmit st) = networkAddress st
        /\ subnetMask (handleSubmit st) = subnetMask st
        /\ userInput (handleSubmit st) = userInput st)
  /\ (forall st : state,
        userInput (handleSubmit st)
        = if valid (validateIpAddress (userInput st)) && negb (judgedCorrect st)
          then "" else userInput st)
  /\ (forall st : state,
        userInput st = "999.1.1.1" ->
        totalAttempts (handleSubmit st) = totalAttempts st + 1
        /\ score (handleSubmit st) = score st
        /\ userInput (handleSubmit st) = "999.1.1.1"
        /\ exists r : response,
             submissions (handleSubmit st)
             = (submissions st
                  ++ [ {| entry := r; attemptNumber := totalAttempts st + 1 |} ])%list
             /\ isCorrect r = false
             /\ message r = "Validation error: " ++ error_message (OutOfRange 1)
             /\ message r
                = "Validation error: Octet 1 must be a number between 0 and 255")
  /\ (forall (raw : string) (st : state),
        gameCompleted st = false ->
        submit raw st = handleSubmit (set_input st raw)
        /\ totalAttempts (submit raw st) = totalAttempts st + 1).
Proof.
  assert (I : forall st e, validateIpAddress (userInput st) = Invalid e ->
                           judgedCorrect st = false).
  { intros st e V. unfold judgedCorrect. now rewrite V. }
  split; [exact handleSubmit_totalAttempts|]. split; [|split; [|split]].
  - intros st e V.
    destruct (handleSubmit_invalid st e V) as (r & S & _ & C & M & _).
    pose proof (handleSubmit_network st) as (Net & Mask & _).
    rewrite handleSubmit_score, handleSubmit_correctAnswers,
      handleSubmit_userInput, (I st e V), V.
    split; [now exists r|]. repeat split; assumption.
  - exact handleSubmit_userInput.
  - intros st E.
    assert (V : validateIpAddress (userInput st) = Invalid (OutOfRange 1))
      by now rewrite E.
    destruct (handleSubmit_invalid st _ V) as (r & S & _ & C & M & _).
    rewrite handleSubmit_totalAttempts, handleSubmit_score,
      handleSubmit_userInput, (I st _ V), V, E.
    repeat split. exists r. repeat split; assumption.
  - intros raw st G. rewrite (submit_open _ _ G). split; [reflexivity|].
    now rewrite handleSubmit_totalAttempts.
Qed.

Lemma handleSubmit_counts_every_attempt_witness :
  (let st := set_input declared "1.2.3" in
   score (handleSubmit st) = 0
   /\ totalAttempts (handleSubmit st) = 1
   /\ userInput (handleSubmit st) = "1.2.3")
  /\ (let st := set_input declared "999.1.1.1" in
      totalAttempts (handleSubmit st) = 0 + 1
      /\ score (handleSubmit st) = 0
      /\ userInput (handleSubmit st) = "999.1.1.1")
  /\ totalAttempts (submit "1.2.3.4" declared) = 0 + 1.
Proof.
  split; [|split].
  - intros st.
    pose proof (proj1 (proj2 handleSubmit_counts_every_attempt)
                  st MissingOctets eq_refl) as (_ & S & _ & _ & _ & U).
    pose proof (proj1 handleSubmit_counts_every_attempt st) as T.
    repeat split; assumption.
  - intros st.
    pose proof (proj1 (proj2 (proj2 (proj2 handleSubmit_counts_every_attempt)))
                  st eq_refl) as (T & S & U & _).
    repeat split; assumption.
  - exact (proj2 (proj2 (proj2 (proj2 (proj2 handleSubmit_counts_every_attempt)))
                    "1.2.3.4" declared eq_refl)).
Defined.

(** ** The life of a session (claims C7, C8, C10) *)

Section Life.

Variable random : nat -> Q.

Lemma continue_frame (st : state) :
  let st' := continueToNextQuestion random st in
  score st' = score st
  /\ correctAnswers st' = correctAnswers st
  /\ totalAttempts st' = totalAttempts st
  /\ gameCompleted st' = gameCompleted st
  /\ submissions st' = submissions st.
Proof.
  unfold continueToNextQuestion.
  destruct (correctAnswers st <? 5); repeat split.
Qed.

(** One correct answer on a session that is not completed. *)
Lemma submit_correct (raw : string) (st : state) :
  gameCompleted st = false ->
  judgedCorrect (set_input st raw) = true ->
  let st' := submit raw st in
  correctAnswers st' = correctAnswers st + 1
  /\ score st' = score st + 1
  /\ totalAttempts st' = totalAttempts st + 1
  /\ gameCompleted st' = (5 <=? correctAnswers st + 1)
  /\ List.length (submissions st') = S (List.length (submissions st)).
Proof.
  intros G J st'. subst st'. rewrite (submit_open _ _ G).
  rewrite handleSubmit_correctAnswers, handleSubmit_score,
    handleSubmit_totalAttempts, handleSubmit_gameCompleted, J.
  destruct (handleSubmit_submissions (set_input st raw)) as (r & S & _).
  rewrite S, length_app. cbn [set_input correctAnswers score totalAttempts
    gameCompleted submissions List.length andb].
  rewrite G. repeat split; try lia.
  now destruct (5 <=? correctAnswers st + 1).
Qed.

Lemma at_count_submit (n : Z) (raw : string) (st : state) :
  0 <= n < 5 -> at_count n st ->
  judgedCorrect (set_input st raw) = true ->
  at_count (n + 1) (submit raw st).
Proof.
  intros N (G & C & S & T & L) J.
  assert (G' : gameCompleted st = false)
    by (rewrite G; apply Z.leb_gt; lia).
  destruct (submit_correct raw st G' J) as (C1 & S1 & T1 & G1 & L1).
  unfold at_count. rewrite C1, S1, T1, G1, L1, C, S, T, L.
  repeat split. lia.
Qed.

Lemma at_count_continue (n : Z) (st : state) :
  at_count n st -> at_count n (continueToNextQuestion random st).
Proof.
  intros (G & C & S & T & L).
  destruct (continue_frame st) as (S1 & C1 & T1 & G1 & L1).
  unfold at_count. now rewrite C1, S1, T1, G1, L1.
Qed.

Lemma reachable_submit (raw : string) (st : state) :
  reachable random st -> reachable random (submit raw st).
Proof.
  intros R.
  exact (reach_handler random (KeyPress "Enter") _
           (reach_handler random (TypeText raw) _ R)).
Qed.

Lemma reachable_continue (st : state) :
  reachable random st -> reachable random (continueToNextQuestion random st).
Proof. intros R. exact (reach_handler random ClickContinue _ R). Qed.

(** In every state the handlers can reach, the score is the number of
    correct answers and the game is completed exactly from five on. *)
Lemma reachable_invariant (st : state) :
  reachable random st ->
  score st = correctAnswers st
  /\ gameCompleted st = (5 <=? correctAnswers st).
Proof.
  assert (Sub : forall st,
             score st = correctAnswers st
             /\ gameCompleted st = (5 <=? correctAnswers st) ->
             score (handleSubmit st) = correctAnswers (handleSubmit st)
             /\ gameCompleted (handleSubmit st)
                = (5 <=? correctAnswers (handleSubmit st))).
  { intros s [S G].
    rewrite handleSubmit_score, handleSubmit_correctAnswers,
      handleSubmit_gameCompleted, S, G.
    destruct (judgedCorrect s); cbn [andb]; [|now split].
    split; [reflexivity|].
    destruct (5 <=? correctAnswers s + 1) eqn:A; [reflexivity|].
    apply Z.leb_gt in A. apply Z.leb_gt. lia. }
  induction 1 as [|e st R IH].
  - now split.
  - destruct e as [text|key| | |]; cbn [handler].
    + exact IH.
    + unfold handleKeyPress.
      destruct ((key =? "Enter")%string && negb (gameCompleted st));
        [now apply Sub | exact IH].
    + now apply Sub.
    + unfold continueToNextQuestion.
      destruct (correctAnswers st <? 5); exact IH.
    + now split.
Qed.

End Life.

(** ** A correct answer always exists *)

Section Answer.

Variable random : nat -> Q.
Hypothesis random_range : forall n : nat, (0 <= random n)%Q /\ (random n < 1)%Q.

(** Every question [initGame] draws shows a network address and a mask that
    denote addresses. *)
Lemma initGame_question (st : state) :
  let q := initGame random st in
  (exists A, addressOf (networkAddress q) = Some A)
  /\ (exists M, addressOf (subnetMask q) = Some M).
Proof.
  intros q. split.
  - pose proof (random_range (randomCalls st + 1)) as [A0 A1].
    pose proof (random_range (randomCalls st + 2)) as [B0 B1].
    pose proof (random_range (randomCalls st + 3)) as [C0 C1].
    pose proof (floor_scaled_range _ 256 A0 A1 ltac:(lia)) as Ra.
    pose proof (floor_scaled_range _ 256 B0 B1 ltac:(lia)) as Rb.
    pose proof (floor_scaled_range _ 256 C0 C1 ltac:(lia)) as Rc.
    set (a := floor_scaled (random (randomCalls st + 1)) 256) in *.
    set (b := floor_scaled (random (randomCalls st + 2)) 256) in *.
    set (c := floor_scaled (random (randomCalls st + 3)) 256) in *.
    exists (Octets a b c 0).
    change (networkAddress q) with (render (Octets a b c 0)).
    clearbody a b c. apply addressOf_render.
    unfold wellFormed, isOctet; cbn [octet0 octet1 octet2 octet3]. lia.
  - pose proof (random_range (randomCalls st)) as [U0 U1].
    pose proof (floor_scaled_range _ 8 U0 U1 ltac:(lia)) as R.
    subst q. cbn [initGame subnetMask]. unfold generateRandomSubnetMask.
    change (Z.of_nat (List.length commonMasks)) with 8.
    set (i := floor_scaled (random (randomCalls st)) 8) in *.
    assert (i = 0 \/ i = 1 \/ i = 2 \/ i = 3 \/ i = 4 \/ i = 5 \/ i = 6 \/ i = 7)
      as [E|[E|[E|[E|[E|[E|[E|E]]]]]]] by lia;
      rewrite E; eexists; reflexivity.
Qed.

(** The network address shown is itself an answer judged correct. *)
Lemma networkAddress_judgedCorrect (st : state) :
  (exists A, addressOf (networkAddress st) = Some A) ->
  (exists M, addressOf (subnetMask st) = Some M) ->
  judgedCorrect (set_input st (networkAddress st)) = true.
Proof.
  intros [A HA] [M HM]. unfold judgedCorrect. cbn [userInput set_input
    networkAddress subnetMask].
  assert (V : validateIpAddress (networkAddress st) = Valid (Some (render A)))
    by (apply validateIpAddress_address; now exists A).
  rewrite V.
  assert (E : or_else (Some (render A)) (networkAddress st) = render A
              \/ or_else (Some (render A)) (networkAddress st) = networkAddress st).
  { unfold or_else. destruct (truthy (render A)); [now left | now right]. }
  pose proof (proj1 (proj1 (addressOf_Some _ _) HA)) as W.
  destruct E as [-> | ->].
  - rewrite (isIpInNetwork_address _ _ _ A A M (addressOf_render _ W) HA HM).
    apply Z.eqb_refl.
  - rewrite (isIpInNetwork_address _ _ _ A A M HA HA HM). apply Z.eqb_refl.
Qed.

(** Answering the network address of each question, five times. *)
Lemma five_network_addresses :
  let s0 := mounted random in
  let s1 := submit (networkAddress s0) s0 in
  let q1 := continueToNextQuestion random s1 in
  let s2 := submit (networkAddress q1) q1 in
  let q2 := continueToNextQuestion random s2 in
  let s3 := submit (networkAddress q2) q2 in
  let q3 := continueToNextQuestion random s3 in
  let s4 := submit (networkAddress q3) q3 in
  let q4 := continueToNextQuestion random s4 in
  judgedCorrect (set_input s0 (networkAddress s0)) = true
  /\ judgedCorrect (set_input q1 (networkAddress q1)) = true
  /\ judgedCorrect (set_input q2 (networkAddress q2)) = true
  /\ judgedCorrect (set_input q3 (networkAddress q3)) = true
  /\ judgedCorrect (set_input q4 (networkAddress q4)) = true.
Proof.
  intros s0 s1 q1 s2 q2 s3 q3 s4 q4.
  assert (Q : forall n st, 0 <= n < 4 -> at_count (n + 1) st ->
                continueToNextQuestion random st = initGame random st).
  { intros n st N (_ & C & _). unfold continueToNextQuestion.
    replace (correctAnswers st <? 5) with true; [reflexivity|].
    symmetry. apply Z.ltb_lt. lia. }
  assert (J : forall st, judgedCorrect
                (set_input (initGame random st)
                           (networkAddress (initGame random st))) = true).
  { intros st. destruct (initGame_question st) as [HA HM].
    now apply networkAddress_judgedCorrect. }
  assert (A0 : at_count 0 s0) by (repeat split).
  assert (J0 : judgedCorrect (set_input s0 (networkAddress s0)) = true)
    by apply J.
  pose proof (at_count_submit 0 _ s0 ltac:(lia) A0 J0) as A1. fold s1 in A1.
  assert (J1 : judgedCorrect (set_input q1 (networkAddress q1)) = true).
  { unfold q1. rewrite (Q 0 s1 ltac:(lia) A1). apply J. }
  pose proof (at_count_continue random _ _ A1) as B1. fold q1 in B1.
  pose proof (at_count_submit 1 _ q1 ltac:(lia) B1 J1) as A2. fold s2 in A2.
  assert (J2 : judgedCorrect (set_input q2 (networkAddress q2)) = true).
  { unfold q2. rewrite (Q 1 s2 ltac:(lia) A2). apply J. }
  pose proof (at_count_continue random _ _ A2) as B2. fold q2 in B2.
  pose proof (at_count_submit 2 _ q2 ltac:(lia) B2 J2) as A3. fold s3 in A3.
  assert (J3 : judgedCorrect (set_input q3 (networkAddress q3)) = true).
  { unfold q3. rewrite (Q 2 s3 ltac:(lia) A3). apply J. }
  pose proof (at_count_continue random _ _ A3) as B3. fold q3 in B3.
  pose proof (at_count_submit 3 _ q3 ltac:(lia) B3 J3) as A4. fold s4 in A4.
  assert (J4 : judgedCorrect (set_input q4 (networkAddress q4)) = true).
  { unfold q4. rewrite (Q 3 s4 ltac:(lia) A4). apply J. }
  repeat split; assumption.
Qed.

End Answer.

(** C7.  A mounted session has no attempt, score 0 and is not completed.
    Five submissions judged correct, with [continueToNextQuestion] between
    them, bring the count of correct answers to 5 and complete the game,
    which the fourth had not; such answers exist whatever the draws, the
    network address shown being one.  Once the game is completed, pressing Enter
    is refused by [handleKeyPress], a submit changes neither the score, the
    count of correct answers, the attempts nor the history, and no control
    of the page other than a reset changes the state; a reset starts over. *)
Theorem session_runs_to_completion :
  forall random : nat -> Q,
    (let s0 := mounted random in
     totalAttempts s0 = 0 /\ score s0 = 0 /\ correctAnswers s0 = 0
     /\ gameCompleted s0 = false /\ waitingForContinue s0 = false
     /\ submissions s0 = [])
    /\ (forall i1 i2 i3 i4 i5 : string,
          let s0 := mounted random in
          let s1 := submit i1 s0 in
          let q1 := continueToNextQuestion random s1 in
          let s2 := submit i2 q1 in
          let q2 := continueToNextQuestion random s2 in
          let s3 := submit i3 q2 in
          let q3 := continueToNextQuestion random s3 in
          let s4 := submit i4 q3 in
          let q4 := continueToNextQuestion random s4 in
          let s5 := submit i5 q4 in
          judgedCorrect (set_input s0 i1) = true ->
          judgedCorrect (set_input q1 i2) = true ->
          judgedCorrect (set_input q2 i3) = true ->
          judgedCorrect (set_input q3 i4) = true ->
          judgedCorrect (set_input q4 i5) = true ->
          correctAnswers s5 = 5 /\ score s5 = 5 /\ totalAttempts s5 = 5
          /\ List.length (submissions s5) = 5%nat
          /\ gameCompleted s4 = false /\ gameCompleted s5 = true)
    /\ ((forall n : nat, (0 <= random n)%Q /\ (random n < 1)%Q) ->
        let s0 := mounted random in
        let s1 := submit (networkAddress s0) s0 in
        let q1 := continueToNextQuestion random s1 in
        let s2 := submit (networkAddress q1) q1 in
        let q2 := continueToNextQuestion random s2 in
        let s3 := submit (networkAddress q2) q2 in
        let q3 := continueToNextQuestion random s3 in
        let s4 := submit (networkAddress q3) q3 in
        let q4 := continueToNextQuestion random s4 in
        let s5 := submit (networkAddress q4) q4 in
        correctAnswers s5 = 5 /\ gameCompleted s5 = true)
    /\ (forall st : state,
          gameCompleted st = true ->
          (forall key : string, handleKeyPress key st = st)
          /\ (forall raw : string,
                let st' := submit raw st in
                score st' = score st
                /\ correctAnswers st' = correctAnswers st
                /\ totalAttempts st' = totalAttempts st
                /\ submissions st' = submissions st
                /\ gameCompleted st' = true)
          /\ (forall e : event, e <> ClickReset -> dispatch random e st = st))
    /\ (forall st : state,
          reachable random st -> gameCompleted st = true ->
          continueToNextQuestion random st = st)
    /\ (forall st : state,
          let st' := handleReset random st in
          gameCompleted st' = false /\ score st' = 0 /\ correctAnswers st' = 0
          /\ totalAttempts st' = 0 /\ submissions st' = []).
Proof.
  intros random. split; [repeat split|].
  assert (Five : forall i1 i2 i3 i4 i5 : string,
          let s0 := mounted random in
          let s1 := submit i1 s0 in
          let q1 := continueToNextQuestion random s1 in
          let s2 := submit i2 q1 in
          let q2 := continueToNextQuestion random s2 in
          let s3 := submit i3 q2 in
          let q3 := continueToNextQuestion random s3 in
          let s4 := submit i4 q3 in
          let q4 := continueToNextQuestion random s4 in
          let s5 := submit i5 q4 in
          judgedCorrect (set_input s0 i1) = true ->
          judgedCorrect (set_input q1 i2) = true ->
          judgedCorrect (set_input q2 i3) = true ->
          judgedCorrect (set_input q3 i4) = true ->
          judgedCorrect (set_input q4 i5) = true ->
          correctAnswers s5 = 5 /\ score s5 = 5 /\ totalAttempts s5 = 5
          /\ List.length (submissions s5) = 5%nat
          /\ gameCompleted s4 = false /\ gameCompleted s5 = true);
    [|split; [exact Five|]; split; [|split; [|split]]].
  - intros i1 i2 i3 i4 i5 s0 s1 q1 s2 q2 s3 q3 s4 q4 s5 J1 J2 J3 J4 J5.
    assert (A0 : at_count 0 s0) by (repeat split).
    pose proof (at_count_submit 0 i1 s0 ltac:(lia) A0 J1) as A1.
    pose proof (at_count_continue random _ _ A1) as B1.
    pose proof (at_count_submit 1 i2 q1 ltac:(lia) B1 J2) as A2.
    pose proof (at_count_continue random _ _ A2) as B2.
    pose proof (at_count_submit 2 i3 q2 ltac:(lia) B2 J3) as A3.
    pose proof (at_count_continue random _ _ A3) as B3.
    pose proof (at_count_submit 3 i4 q3 ltac:(lia) B3 J4) as A4.
    pose proof (at_count_continue random _ _ A4) as B4.
    pose proof (at_count_submit 4 i5 q4 ltac:(lia) B4 J5) as A5.
    destruct A4 as (G4 & _). destruct A5 as (G5 & C5 & S5 & T5 & L5).
    repeat split; assumption.
  - intros Range s0 s1 q1 s2 q2 s3 q3 s4 q4 s5.
    destruct (five_network_addresses random Range) as (J0 & J1 & J2 & J3 & J4).
    destruct (Five _ _ _ _ _ J0 J1 J2 J3 J4) as (C & _ & _ & _ & _ & G).
    now split.
  - intros st G. split; [|split].
    + intros key. unfold handleKeyPress. rewrite G.
      now rewrite andb_false_r.
    + intros raw. unfold submit, handleKeyPress. cbn [gameCompleted set_input].
      rewrite G. cbn [negb andb]. repeat split. exact G.
    + intros e Ne. unfold dispatch, enabled, inputEnabled. rewrite G.
      destruct e; cbn [negb andb]; try reflexivity. now elim Ne.
  - intros st R G. destruct (reachable_invariant random st R) as [_ I].
    unfold continueToNextQuestion. rewrite G in I. symmetry in I.
    apply Z.leb_le in I.
    destruct (correctAnswers st <? 5) eqn:L; [|reflexivity].
    apply Z.ltb_lt in L. lia.
  - intros st. repeat split.
Qed.

Lemma session_runs_to_completion_witness :
  let random := fun _ : nat => 0%Q in
  let s0 := mounted random in
  let s1 := submit "0.0.0.1" s0 in
  let s2 := submit "0.0.0.2" (continueToNextQuestion random s1) in
  let s3 := submit "0.0.0.3" (continueToNextQuestion random s2) in
  let s4 := submit "0.0.0.4" (continueToNextQuestion random s3) in
  let s5 := submit "0.0.0.5" (continueToNextQuestion random s4) in
  let t1 := submit (networkAddress s0) s0 in
  let r1 := continueToNextQuestion random t1 in
  let t2 := submit (networkAddress r1) r1 in
  let r2 := continueToNextQuestion random t2 in
  let t3 := submit (networkAddress r2) r2 in
  let r3 := continueToNextQuestion random t3 in
  let t4 := submit (networkAddress r3) r3 in
  let r4 := continueToNextQuestion random t4 in
  let t5 := submit (networkAddress r4) r4 in
  correctAnswers s5 = 5 /\ gameCompleted s5 = true
  /\ handleKeyPress "Enter" s5 = s5
  /\ continueToNextQuestion random s5 = s5
  /\ correctAnswers t5 = 5.
Proof.
  intros random s0 s1 s2 s3 s4 s5 t1 r1 t2 r2 t3 r3 t4 r4 t5.
  destruct (session_runs_to_completion random)
    as (_ & Five & Shown & Done & Stay & _).
  destruct (Five "0.0.0.1" "0.0.0.2" "0.0.0.3" "0.0.0.4" "0.0.0.5")
    as (C & _ & _ & _ & _ & G); try (vm_compute; reflexivity).
  assert (Range : forall n : nat, (0 <= random n)%Q /\ (random n < 1)%Q).
  { intros n. split; [discriminate | reflexivity]. }
  assert (R : reachable random s5).
  { unfold s5, s4, s3, s2, s1, s0.
    do 4 (apply reachable_submit; apply reachable_continue).
    apply reachable_submit. apply reach_mounted. }
  split; [exact C|]. split; [exact G|].
  split; [exact (proj1 (Done _ G) "Enter")|].
  split; [exact (Stay s5 R G)|].
  exact (proj1 (Shown Range)).
Defined.

(** C8.  The page delivers a continue only while the session awaits one.
    In every state the handlers reach, a continue in [AwaitingContinue]
    draws a new network and mask, empties the input and returns to
    [AwaitingInput], with score, counters and history as they were; in any
    other state it changes nothing, and so it is once 5 answers are
    correct, where [continueToNextQuestion] itself does nothing either. *)
Theorem continue_only_when_awaiting :
  forall (random : nat -> Q) (st : state),
    reachable random st ->
    let st' := dispatch random ClickContinue st in
    (phaseOf st = AwaitingContinue ->
       phaseOf st' = AwaitingInput
       /\ subnetMask st' = generateRandomSubnetMask (random (randomCalls st))
       /\ networkAddress st'
          = join "." (map toString
              [ Num (floor_scaled (random (randomCalls st + 1)%nat) 256);
                Num (floor_scaled (random (randomCalls st + 2)%nat) 256);
                Num (floor_scaled (random (randomCalls st + 3)%nat) 256);
                Num 0 ])
       /\ userInput st' = ""
       /\ score st' = score st /\ correctAnswers st' = correctAnswers st
       /\ totalAttempts st' = totalAttempts st
       /\ submissions st' = submissions st)
    /\ (phaseOf st <> AwaitingContinue -> st' = st)
    /\ (5 <= correctAnswers st ->
        st' = st /\ continueToNextQuestion random st = st).
Proof.
  intros random st R st'.
  destruct (reachable_invariant random st R) as [_ I].
  unfold st', dispatch, phaseOf. cbn [enabled handler].
  split; [|split].
  - destruct (gameCompleted st) eqn:G; [discriminate|].
    destruct (waitingForContinue st) eqn:W; [|discriminate].
    intros _. cbn [negb andb].
    symmetry in I. apply Z.leb_gt in I.
    unfold continueToNextQuestion.
    replace (correctAnswers st <? 5) with true
      by (symmetry; apply Z.ltb_lt; lia).
    cbn [initGame gameCompleted waitingForContinue]. rewrite G.
    repeat split.
  - destruct (gameCompleted st); [reflexivity|].
    destruct (waitingForContinue st); [intros E; now elim E | reflexivity].
  - intros C.
    assert (G : gameCompleted st = true) by (rewrite I; apply Z.leb_le; lia).
    rewrite G. split; [reflexivity|].
    unfold continueToNextQuestion.
    replace (correctAnswers st <? 5) with false
      by (symmetry; apply Z.ltb_ge; lia).
    reflexivity.
Qed.

Lemma continue_only_when_awaiting_witness :
  let random := zeros_then_halves in
  let fresh := mounted random in
  let st :=
    handler random ClickSubmit (handler random (TypeText "0.0.0.9") fresh) in
  phaseOf st = AwaitingContinue
  /\ phaseOf (dispatch random ClickContinue st) = AwaitingInput
  /\ networkAddress (dispatch random ClickContinue st) = "128.128.128.0"
  /\ phaseOf fresh = AwaitingInput
  /\ dispatch random ClickContinue fresh = fresh.
Proof.
  intros random fresh st.
  pose proof (reach_mounted random) as R0. fold fresh in R0.
  pose proof (reach_handler random ClickSubmit _
                (reach_handler random (TypeText "0.0.0.9") _ R0)) as R.
  fold st in R.
  assert (P : phaseOf st = AwaitingContinue) by (vm_compute; reflexivity).
  assert (P0 : phaseOf fresh <> AwaitingContinue) by (vm_compute; discriminate).
  destruct (continue_only_when_awaiting random st R) as (A & _ & _).
  destruct (A P) as (A1 & _).
  split; [exact P|]. split; [exact A1|].
  split; [vm_compute; reflexivity|]. split; [vm_compute; reflexivity|].
  exact (proj1 (proj2 (continue_only_when_awaiting random fresh R0)) P0).
Defined.

(** C10.  In every state the handlers reach from the mounted page, the
    score equals the number of correct answers: both start at 0, a
    submission adds one to both exactly when it is judged correct, a
    continue touches neither, and a reset puts both back to 0. *)
Theorem score_equals_correctAnswers :
  forall random : nat -> Q,
    (forall st : state, reachable random st -> score st = correctAnswers st)
    /\ (score (mounted random) = 0 /\ correctAnswers (mounted random) = 0)
    /\ (forall st : state,
          score (handleSubmit st)
          = (if judgedCorrect st then score st + 1 else score st)
          /\ correctAnswers (handleSubmit st)
             = (if judgedCorrect st then correctAnswers st + 1
                else correctAnswers st))
    /\ (forall st : state,
          score (continueToNextQuestion random st) = score st
          /\ correctAnswers (continueToNextQuestion random st) = correctAnswers st)
    /\ (forall st : state,
          score (handleReset random st) = 0
          /\ correctAnswers (handleReset random st) = 0).
Proof.
  intros random. split; [|split; [|split; [|split]]].
  - intros st R. exact (proj1 (reachable_invariant random st R)).
  - now split.
  - intros st. split; [apply handleSubmit_score | apply handleSubmit_correctAnswers].
  - intros st. destruct (continue_frame random st) as (S & C & _). now split.
  - intros st. now split.
Qed.

Lemma score_equals_correctAnswers_witness :
  let st := handleSubmit (set_input (mounted zeros_then_halves) "0.0.0.9") in
  score st = correctAnswers st /\ score st = 1.
Proof.
  intros st. split; [|vm_compute; reflexivity].
  apply (proj1 (score_equals_correctAnswers zeros_then_halves)).
  exact (reach_handler _ ClickSubmit _
           (reach_handler _ (TypeText "0.0.0.9") _ (reach_mounted _))).
Defined.

End Session.

(* ================================================================== *)
(** * Normal forms and notations *)
(* ================================================================== *)

Module Conversions.
Import JS IpUtils Spec JSFacts ValidationFacts BitFacts AddressFacts BinaryFacts.

(** ** Normalization *)

Lemma normalizeOctet_idem (p : string) :
  normalizeOctet (normalizeOctet p) = normalizeOctet p.
Proof.
  destruct (normalizeOctet_cases p) as [[T Q] | [(T & P & Q) | (z & T & P & Q)]];
    rewrite Q.
  - reflexivity.
  - unfold normalizeOctet. rewrite trim_idem, (eqb_empty_false _ T), P.
    reflexivity.
  - unfold normalizeOctet.
    rewrite (plain_trim _ (plain_decimalOf z)).
    rewrite (eqb_empty_false _ (decimalOf_not_empty z)), parseInt_decimalOf.
    reflexivity.
Qed.

Lemma normalizeIpAddress_other (ip : string) :
  List.length (split dot ip) <> 4%nat -> normalizeIpAddress ip = ip.
Proof.
  intros L. apply Nat.eqb_neq in L. unfold normalizeIpAddress. rewrite L.
  now destruct (negb (truthy ip)).
Qed.

Lemma normalizeIpAddress_four (ip : string) :
  List.length (split dot ip) = 4%nat ->
  normalizeIpAddress ip = join "." (map normalizeOctet (split dot ip)).
Proof.
  intros L. unfold normalizeIpAddress.
  destruct ip as [|c r]; [discriminate L|].
  apply Nat.eqb_eq in L. now rewrite L.
Qed.

(** Normalizing twice is normalizing once, on every text: valid or not,
    four segments or not. *)
Theorem normalizeIpAddress_idempotent (ip : string) :
  safeInput ip = true ->
  normalizeIpAddress (normalizeIpAddress ip) = normalizeIpAddress ip.
Proof.
  intros _.
  destruct (Nat.eq_dec (List.length (split dot ip)) 4) as [L|L].
  - rewrite (normalizeIpAddress_four ip L).
    set (n := join "." (map normalizeOctet (split dot ip))).
    assert (S : split dot n = map normalizeOctet (split dot ip)).
    { apply split_join.
      - intros N. apply map_eq_nil in N. now apply split_not_nil in N.
      - apply Forall_map. eapply Forall_impl; [|apply split_parts_noDot].
        intros p. apply normalizeOctet_noDot. }
    rewrite normalizeIpAddress_four by (now rewrite S, length_map).
    rewrite S, map_map. unfold n. f_equal.
    apply map_ext. intros p. apply normalizeOctet_idem.
  - now rewrite !(normalizeIpAddress_other ip L).
Qed.

Lemma normalizeIpAddress_idempotent_witness :
  normalizeIpAddress (normalizeIpAddress " 010. x .-0.+7 ")
  = normalizeIpAddress " 010. x .-0.+7 "
  /\ normalizeIpAddress " 010. x .-0.+7 " = "10.x.0.7".
Proof.
  split; [|reflexivity].
  exact (normalizeIpAddress_idempotent " 010. x .-0.+7 " eq_refl).
Defined.

(** What validation accepts, of the texts whose numerals a number holds
    exactly, is normalized to a text that validation accepts unchanged and
    that normalization leaves alone. *)
Theorem validateIpAddress_normal_form (ip normalizedIp : string) :
  safeInput ip = true ->
  validateIpAddress ip = Valid (Some normalizedIp) ->
  normalizeIpAddress ip = normalizedIp
  /\ validateIpAddress normalizedIp = Valid (Some normalizedIp)
  /\ normalizeIpAddress normalizedIp = normalizedIp
  /\ ipToInt normalizedIp = ipToInt ip
  /\ ipToBinary normalizedIp = ipToBinary ip.
Proof.
  intros _ V.
  assert (N : forall t m, validateIpAddress t = Valid (Some m) ->
                          normalizeIpAddress t = m).
  { intros t m. unfold validateIpAddress.
    destruct (negb (truthy t)); [discriminate|].
    destruct (negb (List.length (split dot (normalizeIpAddress t)) =? 4)%nat);
      [discriminate|].
    destruct (validateOctets 0 (split dot (normalizeIpAddress t)));
      [discriminate|]. now intros [= <-]. }
  pose proof V as V'.
  apply validateIpAddress_address in V' as (A & HA & [= ->]).
  pose proof (proj1 (proj1 (addressOf_Some _ _) HA)) as W.
  pose proof (addressOf_render A W) as HR.
  assert (VR : validateIpAddress (render A) = Valid (Some (render A)))
    by (apply validateIpAddress_address; now exists A).
  split; [now apply N|]. split; [exact VR|]. split; [now apply N|].
  split.
  - now rewrite (ipToInt_address _ _ HR), (ipToInt_address _ _ HA).
  - now rewrite (ipToBinary_address _ _ HR), (ipToBinary_address _ _ HA).
Qed.

Lemma validateIpAddress_normal_form_witness :
  validateIpAddress "1.2.3.4" = Valid (Some "1.2.3.4")
  /\ ipToInt "1.2.3.4" = ipToInt "001.2.03.4abc".
Proof.
  assert (S : safeInput "001.2.03.4abc" = true) by (vm_compute; reflexivity).
  pose proof (validateIpAddress_normal_form "001.2.03.4abc" "1.2.3.4" S eq_refl)
    as (_ & V & _ & I & _).
  split; [exact V | exact I].
Defined.

(** ** Binary notation and back *)

Lemma noDot_bitString (l : list bool) : noDot (bitString l) = true.
Proof. induction l as [|[|] r IH]; simpl; auto. Qed.

Lemma parseInt2_octet (z : Z) :
  isOctet z -> parseInt2 (bitString (bits 8 z)) = Num z.
Proof.
  intros O.
  assert (H : (match parseInt2 (bitString (bits 8 z)) with
               | Num y => y =? z
               | NaN => false
               end) = true).
  { apply (octet_cases
             (fun z => match parseInt2 (bitString (bits 8 z)) with
                       | Num y => y =? z
                       | NaN => false
                       end)); [vm_compute; reflexivity | exact O]. }
  destruct (parseInt2 (bitString (bits 8 z))) as [|y]; [discriminate H|].
  apply Z.eqb_eq in H. now subst.
Qed.

Lemma binaryToIp_address (ip : string) (A : IPv4Address) :
  addressOf ip = Some A -> binaryToIp (ipToBinary ip) = render A.
Proof.
  intros HA. pose proof (proj1 (proj1 (addressOf_Some _ _) HA)) as W.
  rewrite (ipToBinary_address _ _ HA). unfold binaryToIp, dot.
  rewrite split_join;
    [|discriminate | repeat constructor; apply noDot_bitString].
  destruct W as (O0 & O1 & O2 & O3). cbn [map].
  now rewrite !parseInt2_octet.
Qed.

(** [binaryToIp] undoes [ipToBinary] on every valid text whose numerals a
    number holds exactly, up to normalization, and [ipToBinary] undoes
    [binaryToIp] on what it wrote. *)
Theorem binaryToIp_ipToBinary (ip normalizedIp : string) :
  safeInput ip = true ->
  validateIpAddress ip = Valid (Some normalizedIp) ->
  binaryToIp (ipToBinary ip) = normalizedIp
  /\ ipToBinary (binaryToIp (ipToBinary ip)) = ipToBinary ip.
Proof.
  intros _ V. apply validateIpAddress_address in V as (A & HA & [= ->]).
  pose proof (proj1 (proj1 (addressOf_Some _ _) HA)) as W.
  pose proof (binaryToIp_address _ _ HA) as E.
  split; [exact E|]. rewrite E.
  now rewrite (ipToBinary_address _ _ (addressOf_render A W)),
    (ipToBinary_address _ _ HA).
Qed.

Lemma binaryToIp_ipToBinary_witness :
  binaryToIp (ipToBinary " 192.168.001.10") = "192.168.1.10".
Proof.
  assert (S : safeInput " 192.168.001.10" = true) by (vm_compute; reflexivity).
  exact (proj1 (binaryToIp_ipToBinary " 192.168.001.10" "192.168.1.10" S eq_refl)).
Defined.

End Conversions.

(* ================================================================== *)
(** * Masks and networks *)
(* ================================================================== *)

Module Networks.
Import JS IpUtils Spec JSFacts ValidationFacts BitFacts AddressFacts BinaryFacts.
Import Codec Evaluator Generator.

(** ** The 33 subnet masks *)

Lemma bits32_inj (u v : Z) :
  uint32 u -> uint32 v -> bits32 u = bits32 v -> u = v.
Proof.
  intros U V E. apply Z.bits_inj'. intros n N.
  destruct (Z_lt_le_dec n 32) as [L|G].
  - pose proof (nth_error_bits32 u n ltac:(lia)) as A.
    pose proof (nth_error_bits32 v n ltac:(lia)) as B.
    rewrite E in A. congruence.
  - now rewrite (small_bits u 32 n U), (small_bits v 32 n V) by lia.
Qed.

Lemma prefixMask_bits (k : nat) :
  (k <= 32)%nat ->
  uint32 (prefixMask k)
  /\ bits32 (prefixMask k) = (repeat true k ++ repeat false (32 - k))%list
  /\ popcount (prefixMask k) = Z.of_nat k.
Proof.
  intros K.
  do 33 (destruct k as [|k];
         [split; [unfold uint32; vm_compute; split; [discriminate | reflexivity]
                 | split; vm_compute; reflexivity]|]).
  lia.
Qed.

Lemma contiguous_prefix (subnetMask : string) :
  valid (validateIpAddress subnetMask) = true ->
  validateSubnetMask subnetMask = Valid None ->
  exists k : nat, (k <= 32)%nat /\ valueOf subnetMask = prefixMask k.
Proof.
  intros V E. apply valid_address in V as (M & HM & W & _).
  pose proof (toInt_uint32 M W) as U.
  rewrite (valueOf_address _ _ HM).
  rewrite (validateSubnetMask_address _ _ HM) in E.
  destruct (onesThenZeros false (bitString (bits32 (toInt M)))) eqn:S;
    [|discriminate E].
  destruct (proj1 (scan_contiguous _) S) as (k & K & B).
  assert (L : List.length (bits32 (toInt M)) = 32%nat).
  { unfold bits32, bits. now rewrite length_map. }
  rewrite L in K, B. exists k. split; [exact K|].
  destruct (prefixMask_bits k K) as (Uk & Bk & _).
  apply bits32_inj; [exact U | exact Uk | now rewrite Bk].
Qed.

(** A valid address is a valid subnet mask exactly when its value is
    2^32 - 2^(32-k) for a prefix length [k] from 0 to 32; the prefix length
    is then the number of ['1'] digits [explainNetworkMismatch] counts, and
    the mask leaves 2^(32-k) addresses to a network. *)
Theorem validateSubnetMask_prefix (subnetMask : string) :
  valid (validateIpAddress subnetMask) = true ->
  (validateSubnetMask subnetMask = Valid None <->
   exists k : nat, (k <= 32)%nat /\ valueOf subnetMask = prefixMask k)
  /\ (forall k : nat,
        (k <= 32)%nat -> valueOf subnetMask = prefixMask k ->
        countOnes (ipToBinary subnetMask) = Z.of_nat k
        /\ hostSpan (valueOf subnetMask) = 2 ^ (32 - Z.of_nat k)).
Proof.
  intros V. pose proof (contiguous_prefix subnetMask V) as F.
  apply valid_address in V as (M & HM & W & _).
  pose proof (toInt_uint32 M W) as U.
  rewrite (valueOf_address _ _ HM) in F |- *.
  split.
  - split; [exact F|].
    rewrite (validateSubnetMask_address _ _ HM).
    assert (C : onesThenZeros false (bitString (bits32 (toInt M))) = true <->
                contiguous (bits32 (toInt M))) by apply scan_contiguous.
    intros (k & K & E).
    destruct (prefixMask_bits k K) as (_ & Bk & _).
    assert (Cg : contiguous (bits32 (toInt M))).
    { exists k. rewrite E, Bk, length_app, !repeat_length.
      split; [lia|]. do 2 f_equal. lia. }
    apply C in Cg. now rewrite Cg.
  - intros k K E. rewrite (cidr_popcount _ _ HM), E.
    destruct (prefixMask_bits k K) as (_ & _ & P). split; [exact P|].
    unfold hostSpan, prefixMask. lia.
Qed.

Lemma validateSubnetMask_prefix_witness :
  countOnes (ipToBinary "255.255.252.0") = 22
  /\ hostSpan (valueOf "255.255.252.0") = 1024.
Proof.
  exact (proj2 (validateSubnetMask_prefix "255.255.252.0" eq_refl)
           22%nat ltac:(lia) eq_refl).
Defined.

(** ** Membership as a relation *)

(** For a fixed mask, belonging to the same network is an equivalence on
    texts, valid or not: [&] always yields a number. *)
Theorem isIpInNetwork_equivalence (a b c subnetMask : string) :
  isIpInNetwork a a subnetMask = true
  /\ isIpInNetwork a b subnetMask = isIpInNetwork b a subnetMask
  /\ (isIpInNetwork a b subnetMask = true ->
      isIpInNetwork b c subnetMask = true ->
      isIpInNetwork a c subnetMask = true)
  /\ (isIpInNetwork a c subnetMask = true ->
      isIpInNetwork b c subnetMask = true ->
      isIpInNetwork a b subnetMask = true).
Proof.
  unfold isIpInNetwork, band, strict_eq. repeat split.
  - apply Z.eqb_refl.
  - apply Z.eqb_sym.
  - rewrite !Z.eqb_eq. congruence.
  - rewrite !Z.eqb_eq. congruence.
Qed.

Lemma isIpInNetwork_equivalence_witness :
  isIpInNetwork "10.0.0.7" "10.0.0.200" "255.255.255.0" = true.
Proof.
  exact (proj2 (proj2 (proj2
    (isIpInNetwork_equivalence "10.0.0.7" "10.0.0.200" "10.0.0.0" "255.255.255.0")))
    eq_refl eq_refl).
Defined.

(** An address that belongs to a network under a mask belongs to it under
    every coarser mask. *)
Theorem isIpInNetwork_coarser (ip networkAddress fine coarse : string) :
  valid (validateIpAddress ip) = true ->
  valid (validateIpAddress networkAddress) = true ->
  valid (validateIpAddress fine) = true ->
  valid (validateIpAddress coarse) = true ->
  coarser (valueOf coarse) (valueOf fine) ->
  isIpInNetwork ip networkAddress fine = true ->
  isIpInNetwork ip networkAddress coarse = true.
Proof.
  intros Va Vn Vf Vc.
  apply valid_address in Va as (A & HA & _), Vn as (N & HN & _),
    Vf as (F & HF & _), Vc as (C & HC & _).
  rewrite (valueOf_address _ _ HF), (valueOf_address _ _ HC).
  rewrite (isIpInNetwork_address _ _ _ _ _ _ HA HN HF),
    (isIpInNetwork_address _ _ _ _ _ _ HA HN HC), !Z.eqb_eq.
  unfold coarser. intros Co E. rewrite <- Co.
  rewrite (Z.land_comm (toInt C)), !Z.land_assoc. now rewrite E.
Qed.

Lemma isIpInNetwork_coarser_witness :
  isIpInNetwork "10.1.2.3" "10.1.2.0" "255.255.0.0" = true.
Proof.
  apply (isIpInNetwork_coarser "10.1.2.3" "10.1.2.0" "255.255.255.0" "255.255.0.0");
    vm_compute; reflexivity.
Defined.

(** ** A network is the interval from its network ID to its broadcast *)

Lemma lor_complement (u : Z) :
  uint32 u -> Z.lor u (Z.lnot u mod 2 ^ 32) = Z.ones 32.
Proof.
  intros U. apply Z.bits_inj'. intros n N.
  rewrite Z.lor_spec, complement_bits, Z.testbit_ones_nonneg by lia.
  destruct (Z_lt_le_dec n 32) as [L|G].
  - replace (n <? 32) with true by (symmetry; now apply Z.ltb_lt).
    now destruct (Z.testbit u n).
  - replace (n <? 32) with false by (symmetry; now apply Z.ltb_ge).
    now rewrite (small_bits u 32 n U) by lia.
Qed.

(** Masking clears the host part. *)
Lemma land_mask_split (a m : Z) :
  uint32 a -> uint32 m ->
  Z.land a m = a - Z.land a (Z.lnot m mod 2 ^ 32).
Proof.
  intros A M.
  assert (E : a = Z.land a m + Z.land a (Z.lnot m mod 2 ^ 32)).
  { rewrite <- lor_disjoint.
    - rewrite <- Z.land_lor_distr_r, (lor_complement m M).
      rewrite Z.land_ones by lia. symmetry. now apply Z.mod_small.
    - apply Z.bits_inj'. intros n N.
      rewrite !Z.land_spec, complement_bits, Z.bits_0 by lia.
      destruct (Z.testbit a n), (Z.testbit m n), (n <? 32); reflexivity. }
  lia.
Qed.

Lemma interval_of_block (a n p : Z) :
  0 < p -> 0 <= a ->
  (a - a mod p = n - n mod p <-> n - n mod p <= a <= n - n mod p + p - 1).
Proof.
  intros P A. pose proof (Z.mod_pos_bound a p P) as Ba.
  pose proof (Z.mod_pos_bound n p P) as Bn. split.
  - intros E. lia.
  - intros R. pose proof (Z.div_mod n p ltac:(lia)) as Dn.
    assert (a mod p = a - (n - n mod p)); [|lia].
    symmetry. apply Z.mod_unique with (q := n / p); lia.
Qed.

(** Under a valid subnet mask, the addresses [isIpInNetwork] accepts are
    exactly those from the network ID to the broadcast address that
    [explainNetworkMismatch] writes. *)
Theorem isIpInNetwork_interval (ip networkAddress subnetMask : string) :
  valid (validateIpAddress ip) = true ->
  valid (validateIpAddress networkAddress) = true ->
  validateSubnetMask subnetMask = Valid None ->
  let networkID := Z.land (valueOf networkAddress) (valueOf subnetMask) in
  let broadcast := networkID + hostSpan (valueOf subnetMask) - 1 in
  (isIpInNetwork ip networkAddress subnetMask = true <->
   networkID <= valueOf ip <= broadcast)
  /\ intToIp (expectedNetworkId (mismatchOf ip networkAddress subnetMask))
     = render (fromInt networkID)
  /\ broadcastAddress (mismatchOf ip networkAddress subnetMask)
     = render (fromInt broadcast).
Proof.
  intros Va Vn Vm networkID broadcast.
  assert (Vm' : valid (validateIpAddress subnetMask) = true).
  { unfold validateSubnetMask in Vm.
    destruct (validateIpAddress subnetMask); [discriminate Vm | reflexivity]. }
  destruct (contiguous_prefix subnetMask Vm' Vm) as (k & K & E).
  apply valid_address in Va as (A & HA & WA & _), Vn as (N & HN & WN & _),
    Vm' as (M & HM & WM & _).
  destruct (mismatchOf_address _ _ _ _ _ _ HA HN HM) as (F1 & _ & _ & F4 & _).
  subst networkID broadcast.
  rewrite (valueOf_address _ _ HA), (valueOf_address _ _ HN),
    (valueOf_address _ _ HM) in *.
  pose proof (toInt_uint32 A WA) as UA. pose proof (toInt_uint32 N WN) as UN.
  pose proof (toInt_uint32 M WM) as UM.
  assert (HB : Z.lnot (toInt M) mod 2 ^ 32 = hostSpan (toInt M) - 1).
  { unfold uint32 in UM. change (2 ^ 32) with 4294967296 in *.
    rewrite (lnot_mod _ UM). unfold hostSpan.
    change (2 ^ 32) with 4294967296. lia. }
  assert (HS : hostSpan (toInt M) = 2 ^ (32 - Z.of_nat k))
    by (rewrite E; unfold hostSpan, prefixMask; lia).
  assert (P : 0 < 2 ^ (32 - Z.of_nat k)) by (apply Z.pow_pos_nonneg; lia).
  assert (L : forall x, uint32 x ->
                Z.land x (toInt M) = x - x mod 2 ^ (32 - Z.of_nat k)).
  { intros x X. rewrite (land_mask_split x _ X UM), HB, HS.
    replace (2 ^ (32 - Z.of_nat k) - 1) with (Z.ones (32 - Z.of_nat k))
      by (rewrite Z.ones_equiv; lia).
    now rewrite Z.land_ones by lia. }
  split; [|split].
  - rewrite (isIpInNetwork_address _ _ _ _ _ _ HA HN HM), Z.eqb_eq.
    rewrite (L _ UA), (L _ UN), HS.
    unfold uint32 in UA. apply interval_of_block; lia.
  - exact F1.
  - rewrite F4. f_equal. f_equal.
    rewrite lor_disjoint.
    + rewrite HB. lia.
    + rewrite <- Z.land_assoc, land_complement. apply Z.land_0_r.
Qed.

Lemma isIpInNetwork_interval_witness :
  isIpInNetwork "10.0.1.200" "10.0.0.0" "255.255.254.0" = true <->
  Z.land (valueOf "10.0.0.0") (valueOf "255.255.254.0") <= valueOf "10.0.1.200"
  <= Z.land (valueOf "10.0.0.0") (valueOf "255.255.254.0")
     + hostSpan (valueOf "255.255.254.0") - 1.
Proof.
  assert (Va : valid (validateIpAddress "10.0.1.200") = true)
    by (vm_compute; reflexivity).
  assert (Vn : valid (validateIpAddress "10.0.0.0") = true)
    by (vm_compute; reflexivity).
  assert (Vm : validateSubnetMask "255.255.254.0" = Valid None)
    by (vm_compute; reflexivity).
  exact (proj1 (isIpInNetwork_interval _ _ _ Va Vn Vm)).
Defined.

End Networks.

(* ================================================================== *)
(** * What the generators produce *)
(* ================================================================== *)

Module Generators.
Import JS IpUtils Spec JSFacts ValidationFacts BitFacts AddressFacts BinaryFacts.
Import Codec Evaluator Generator Networks.

(** ** [generateRandomIp] *)

Lemma floor_scaled_exact (a n : Z) :
  0 < n -> floor_scaled (a # Z.to_pos n) n = a.
Proof.
  intros N. unfold floor_scaled.
  assert (E : ((a # Z.to_pos n) * inject_Z n == inject_Z a)%Q).
  { unfold Qeq, Qmult, inject_Z. cbn [Qnum Qden].
    rewrite Pos.mul_1_r, Z2Pos.id by exact N. ring. }
  rewrite (Qfloor_comp _ _ E). apply Qfloor_Z.
Qed.

(** Whatever the four draws in [0, 1), [generateRandomIp] writes a valid
    address in normal form, and every address is written for some draws. *)
Theorem generateRandomIp_valid :
  (forall u0 u1 u2 u3 : Q,
      (0 <= u0)%Q /\ (u0 < 1)%Q -> (0 <= u1)%Q /\ (u1 < 1)%Q ->
      (0 <= u2)%Q /\ (u2 < 1)%Q -> (0 <= u3)%Q /\ (u3 < 1)%Q ->
      let ip := generateRandomIp u0 u1 u2 u3 in
      validateIpAddress ip = Valid (Some ip))
  /\ (forall A : IPv4Address,
        wellFormed A ->
        generateRandomIp (octet0 A # 256) (octet1 A # 256)
                         (octet2 A # 256) (octet3 A # 256)
        = render A).
Proof.
  split.
  - intros u0 u1 u2 u3 [L0 H0] [L1 H1] [L2 H2] [L3 H3] ip.
    pose proof (floor_scaled_range u0 256 L0 H0 ltac:(lia)) as R0.
    pose proof (floor_scaled_range u1 256 L1 H1 ltac:(lia)) as R1.
    pose proof (floor_scaled_range u2 256 L2 H2 ltac:(lia)) as R2.
    pose proof (floor_scaled_range u3 256 L3 H3 ltac:(lia)) as R3.
    subst ip.
    set (a := floor_scaled u0 256) in *. set (b := floor_scaled u1 256) in *.
    set (c := floor_scaled u2 256) in *. set (d := floor_scaled u3 256) in *.
    change (generateRandomIp u0 u1 u2 u3) with (render (Octets a b c d)).
    clearbody a b c d.
    apply validateIpAddress_address. exists (Octets a b c d).
    split; [|reflexivity]. apply addressOf_render.
    unfold wellFormed, isOctet; cbn [octet0 octet1 octet2 octet3]. lia.
  - intros [a b c d] _. unfold generateRandomIp, render.
    cbn [octet0 octet1 octet2 octet3 map toString].
    now rewrite !(floor_scaled_exact _ 256 eq_refl).
Qed.

Lemma generateRandomIp_valid_witness :
  validateIpAddress (generateRandomIp (1 # 2) 0 (3 # 4) (255 # 256))
  = Valid (Some "128.0.192.255")
  /\ generateRandomIp (10 # 256) (0 # 256) (1 # 256) (5 # 256) = "10.0.1.5".
Proof.
  split.
  - refine (proj1 generateRandomIp_valid (1 # 2) 0 (3 # 4) (255 # 256) _ _ _ _)%Q;
      split; first [discriminate | reflexivity].
  - refine (proj2 generateRandomIp_valid (Octets 10 0 1 5) _).
    unfold wellFormed, isOctet; cbn [octet0 octet1 octet2 octet3]. lia.
Defined.

(** ** [generateRandomSubnetMask] *)

Lemma generateRandomSubnetMask_pool (u : Q) :
  (0 <= u)%Q -> (u < 1)%Q -> In (generateRandomSubnetMask u) commonMasks.
Proof.
  intros L H. pose proof (floor_scaled_range u 8 L H ltac:(lia)) as R.
  unfold generateRandomSubnetMask.
  change (Z.of_nat (List.length commonMasks)) with 8.
  set (i := floor_scaled u 8) in *. clearbody i.
  assert (i = 0 \/ i = 1 \/ i = 2 \/ i = 3 \/ i = 4 \/ i = 5 \/ i = 6 \/ i = 7)
    as [E|[E|[E|[E|[E|[E|[E|E]]]]]]] by lia;
    rewrite E; vm_compute; intuition auto.
Qed.

Lemma commonMasks_valid (subnetMask : string) :
  In subnetMask commonMasks ->
  validateSubnetMask subnetMask = Valid None
  /\ 8 <= countOnes (ipToBinary subnetMask) <= 27
  /\ 32 <= hostSpan (valueOf subnetMask).
Proof.
  intros I. repeat (destruct I as [<-|I]; [vm_compute; intuition discriminate|]).
  destruct I.
Qed.

(** Whatever the draw in [0, 1), the mask drawn is one of the eight of the
    pool, it is a valid subnet mask, and it leaves at least 32 addresses
    to a network. *)
Theorem generateRandomSubnetMask_valid (u : Q) :
  (0 <= u)%Q -> (u < 1)%Q ->
  let subnetMask := generateRandomSubnetMask u in
  In subnetMask commonMasks
  /\ validateSubnetMask subnetMask = Valid None
  /\ 8 <= countOnes (ipToBinary subnetMask) <= 27
  /\ 32 <= hostSpan (valueOf subnetMask).
Proof.
  intros L H subnetMask.
  pose proof (generateRandomSubnetMask_pool u L H) as I.
  split; [exact I | exact (commonMasks_valid _ I)].
Qed.

Lemma generateRandomSubnetMask_valid_witness :
  validateSubnetMask (generateRandomSubnetMask (7 # 8)) = Valid None.
Proof.
  refine (proj1 (proj2 (generateRandomSubnetMask_valid (7 # 8) _ _)));
    first [discriminate | reflexivity].
Defined.

(** ** [generateIpInNetwork] *)

Lemma land_offset_le (u h : Z) :
  uint32 u -> ~ oneAfterZero (bits32 u) ->
  0 <= h <= Z.lnot u mod 2 ^ 32 -> Z.land u h = 0.
Proof.
  intros U C H.
  destruct (Z.eq_dec h (Z.lnot u mod 2 ^ 32)) as [->|D].
  - apply land_complement.
  - apply land_offset; [exact U | exact C | lia].
Qed.

Lemma contiguous_mask (mask : string) (M : IPv4Address) :
  addressOf mask = Some M -> validateSubnetMask mask = Valid None ->
  ~ oneAfterZero (bits32 (toInt M)).
Proof.
  intros HM Vm. rewrite <- scan_oneAfterZero.
  rewrite (validateSubnetMask_address _ _ HM) in Vm.
  destruct (onesThenZeros false (bitString (bits32 (toInt M))));
    [discriminate | discriminate Vm].
Qed.

(** The address [generateIpInNetwork] returns for a valid network address,
    a valid subnet mask and a draw that is a number in [0, 1) is itself a
    valid address in normal form, and [isIpInNetwork] judges it a member of
    the network it was generated for: on every mask that leaves at least
    two addresses, and on a /32 mask when the draw is not 0.  On a mask
    that leaves at least three addresses it is the network ID plus an
    offset from 1 to the number of addresses minus 2, so neither the
    network ID nor the broadcast address: the rounding of the product
    never carries the offset past that. *)
Theorem generateIpInNetwork_member :
  forall (u : Q) (networkAddress subnetMask : string),
    isDouble u = true -> (0 <= u)%Q -> (u < 1)%Q ->
    valid (validateIpAddress networkAddress) = true ->
    validateSubnetMask subnetMask = Valid None ->
    2 <= hostSpan (valueOf subnetMask) \/ (0 < u)%Q ->
    let networkID := Z.land (valueOf networkAddress) (valueOf subnetMask) in
    let span := hostSpan (valueOf subnetMask) in
    let broadcast := networkID + span - 1 in
    let address := generateIpInNetwork u networkAddress subnetMask in
    validateIpAddress address = Valid (Some address)
    /\ isIpInNetwork address networkAddress subnetMask = true
    /\ isIpInNetwork networkAddress address subnetMask = true
    /\ (3 <= span ->
        exists offset : Z,
          1 <= offset <= span - 2
          /\ address = render (fromInt (networkID + offset))
          /\ address <> render (fromInt networkID)
          /\ address <> render (fromInt broadcast)).
Proof.
  intros u net mask D U0 U1 Vn Vm Sp networkID span broadcast address.
  apply valid_address in Vn as (N & HN & WN & _).
  pose proof (validateSubnetMask_valid_address _ Vm) as Va.
  apply valid_address in Va as (M & HM & WM & _).
  pose proof (contiguous_mask _ _ HM Vm) as C.
  pose proof (generateIpInNetwork_value u _ _ _ _ HN HM) as G. fold address in G.
  subst networkID span broadcast.
  rewrite (valueOf_address _ _ HN), (valueOf_address _ _ HM) in *.
  pose proof (toInt_uint32 N WN) as UN. pose proof (toInt_uint32 M WM) as UM.
  pose proof (land_uint32 _ (toInt M) UN) as UI.
  assert (HB : Z.lnot (toInt M) mod 2 ^ 32 = hostSpan (toInt M) - 1).
  { change (2 ^ 32) with 4294967296. rewrite (lnot_mod _ UM).
    unfold hostSpan. change (2 ^ 32) with 4294967296. lia. }
  assert (S1 : 1 <= hostSpan (toInt M) <= 4294967296).
  { unfold hostSpan. change (2 ^ 32) with 4294967296.
    unfold uint32 in UM. change (2 ^ 32) with 4294967296 in UM. lia. }
  set (offset := Qfloor (times u (inject_Z (hostSpan (toInt M) - 2))) + 1) in *.
  assert (F : 0 <= offset <= hostSpan (toInt M) - 1
              /\ (3 <= hostSpan (toInt M) ->
                  1 <= offset <= hostSpan (toInt M) - 2)).
  { unfold offset.
    destruct (Z_lt_le_dec (hostSpan (toInt M)) 3) as [Lt|Ge].
    - split; [|lia].
      destruct (Z.eq_dec (hostSpan (toInt M)) 2) as [E2|N2].
      + rewrite E2. change (2 - 2) with 0. rewrite times_zero.
        change (Qfloor 0) with 0. lia.
      + assert (E1 : hostSpan (toInt M) = 1) by lia.
        destruct Sp as [Sp|Up]; [lia|].
        rewrite E1. change (1 - 2) with (-1).
        rewrite (floor_times_minus_one u D Up U1). lia.
    - assert (R : 1 <= hostSpan (toInt M) - 2 < 2 ^ 32)
        by (change (2 ^ 32) with 4294967296; lia).
      pose proof (floor_times_range u (hostSpan (toInt M) - 2) D U0 U1 R).
      lia. }
  destruct F as [F F3].
  assert (L0 : Z.land (toInt M) offset = 0).
  { apply land_offset_le; [exact UM | exact C | rewrite HB; lia]. }
  set (networkID := Z.land (toInt N) (toInt M)) in *.
  assert (LD : Z.lor networkID offset = networkID + offset).
  { apply lor_disjoint. unfold networkID.
    now rewrite <- Z.land_assoc, L0, Z.land_0_r. }
  assert (B : Z.lor networkID (Z.lnot (toInt M) mod 2 ^ 32)
              = networkID + hostSpan (toInt M) - 1).
  { rewrite lor_disjoint; [lia|]. unfold networkID.
    now rewrite <- Z.land_assoc, land_complement, Z.land_0_r. }
  assert (UB : 0 <= networkID + hostSpan (toInt M) - 1 < 4294967296).
  { rewrite <- B. apply lor_uint32; [exact UI|].
    apply Z.mod_pos_bound. reflexivity. }
  set (x := Z.lor networkID offset) in *.
  assert (UX : uint32 x).
  { unfold uint32, x. change (2 ^ 32) with 4294967296.
    apply lor_uint32; [exact UI | lia]. }
  assert (LX : Z.land x (toInt M) = networkID).
  { unfold x, networkID.
    rewrite Z.land_lor_distr_l, <- Z.land_assoc, Z.land_diag.
    rewrite (Z.land_comm offset), L0. apply Z.lor_0_r. }
  assert (HA : addressOf address = Some (fromInt x)).
  { rewrite G. apply addressOf_render, wellFormed_fromInt. }
  assert (TX : toInt (fromInt x) = x).
  { rewrite toInt_fromInt. apply Z.mod_small. exact UX. }
  split; [|split; [|split]].
  - apply validateIpAddress_address. exists (fromInt x). split; [exact HA|].
    now rewrite G.
  - rewrite (isIpInNetwork_address _ _ _ _ _ _ HA HN HM), TX, LX.
    apply Z.eqb_refl.
  - rewrite (isIpInNetwork_address _ _ _ _ _ _ HN HA HM), TX, LX.
    apply Z.eqb_refl.
  - intros S3. specialize (F3 S3). exists offset. split; [exact F3|].
    rewrite G. unfold x in LD |- *. rewrite LD.
    split; [reflexivity|]. split.
    + intros E. apply render_fromInt_inj in E; unfold uint32;
        change (2 ^ 32) with 4294967296; lia.
    + intros E. apply render_fromInt_inj in E; unfold uint32;
        change (2 ^ 32) with 4294967296; lia.
Qed.

Lemma generateIpInNetwork_member_witness :
  let u := 6004799503160661 # 18014398509481984 in
  generateIpInNetwork u "172.16.5.0" "255.255.255.224" = "172.16.5.11"
  /\ isIpInNetwork (generateIpInNetwork u "172.16.5.0" "255.255.255.224")
                   "172.16.5.0" "255.255.255.224" = true
  /\ isIpInNetwork (generateIpInNetwork u "10.0.0.6" "255.255.255.255")
                   "10.0.0.6" "255.255.255.255" = true.
Proof.
  intros u.
  assert (D : isDouble u = true) by (vm_compute; reflexivity).
  assert (U0 : (0 <= u)%Q) by discriminate.
  assert (U1 : (u < 1)%Q) by reflexivity.
  assert (Up : (0 < u)%Q) by reflexivity.
  assert (Vn : valid (validateIpAddress "172.16.5.0") = true)
    by (vm_compute; reflexivity).
  assert (Vn' : valid (validateIpAddress "10.0.0.6") = true)
    by (vm_compute; reflexivity).
  assert (V27 : validateSubnetMask "255.255.255.224" = Valid None)
    by (vm_compute; reflexivity).
  assert (V32 : validateSubnetMask "255.255.255.255" = Valid None)
    by (vm_compute; reflexivity).
  assert (S2 : 2 <= hostSpan (valueOf "255.255.255.224"))
    by (vm_compute; discriminate).
  split; [vm_compute; reflexivity|]. split.
  - exact (proj1 (proj2 (generateIpInNetwork_member u "172.16.5.0"
             "255.255.255.224" D U0 U1 Vn V27 (or_introl S2)))).
  - exact (proj1 (proj2 (generateIpInNetwork_member u "10.0.0.6"
             "255.255.255.255" D U0 U1 Vn' V32 (or_intror Up)))).
Defined.

End Generators.

(* ================================================================== *)
(** * The history of a session and the page around it *)
(* ================================================================== *)

Module Page.
Import JS IpUtils App Spec JSFacts ValidationFacts AddressFacts.
Import Codec Evaluator Generator Generators Session.

(** ** Histories grow at the end *)

Lemma snoc_split {A : Type} (l : list A) (x : A) (pre : list A) (s : A)
    (post : list A) :
  (l ++ [x] = pre ++ s :: post)%list ->
  (post = [] /\ pre = l /\ s = x)
  \/ (exists post', post = (post' ++ [x])%list /\ l = (pre ++ s :: post')%list).
Proof.
  intros E. destruct post as [|p0 post0].
  - left. apply app_inj_tail in E as [E1 E2]. subst. now repeat split.
  - right.
    destruct (exists_last (l := p0 :: post0)) as (post' & y & Ey); [discriminate|].
    rewrite Ey in E |- *.
    change (pre ++ s :: post' ++ [y])%list
      with (pre ++ (s :: post') ++ [y])%list in E.
    rewrite app_assoc in E. apply app_inj_tail in E as [E1 E2]. subst.
    exists post'. split; reflexivity.
Qed.

Lemma correctCount_snoc (l : list Final.summary) (x : Final.summary) :
  correctCount (l ++ [x]) = correctCount l + (if Final.isCorrect x then 1 else 0).
Proof.
  unfold correctCount. rewrite filter_app, length_app. cbn [filter].
  destruct (Final.isCorrect x); cbn [List.length]; lia.
Qed.

Lemma correctCount_range (l : list Final.summary) :
  0 <= correctCount l <= Z.of_nat (List.length l).
Proof.
  unfold correctCount. pose proof (filter_length_le Final.isCorrect l). lia.
Qed.

Lemma correctCount_app (l r : list Final.summary) :
  correctCount (l ++ r) = correctCount l + correctCount r.
Proof. unfold correctCount. rewrite filter_app, length_app. lia. Qed.

Lemma wellNumbered_nil : wellNumbered [].
Proof. intros [|p pre] s post E; discriminate E. Qed.

Lemma wellNumbered_snoc (l : list Final.summary) (x : Final.summary) :
  wellNumbered l ->
  Final.attemptNumber x = Z.of_nat (List.length l) + 1 ->
  Final.scoreAtAttempt x = correctCount (l ++ [x]) ->
  wellNumbered (l ++ [x]).
Proof.
  intros W A S pre s post E.
  apply snoc_split in E as [(_ & -> & ->) | (post' & _ & ->)].
  - now split.
  - now apply (W pre s post').
Qed.

(** ** What a call of [handleSubmit] judged correct leaves *)

Lemma append_empty (s : string) : s ++ "" = s.
Proof. induction s as [|c r IH]; simpl; [reflexivity | now rewrite IH]. Qed.

Lemma handleSubmit_correct (st : state) :
  judgedCorrect st = true ->
  judgedCorrect (handleSubmit st) = true
  /\ exists (r : response) (ip : string),
       currentResponse (handleSubmit st) = Some r
       /\ isCorrect r = true
       /\ isIpInNetwork ip (networkAddress st) (subnetMask st) = true
       /\ message r
          = ("Correct! The IP address " ++ ip ++ " belongs to the network "
               ++ networkAddress st ++ "/" ++ subnetMask st)
              ++ (if 5 <=? correctAnswers st + 1 then " Game completed!" else "")
       /\ submissions (handleSubmit st)
          = (submissions st
               ++ [ {| entry := r; attemptNumber := totalAttempts st + 1 |} ])%list.
Proof.
  intros J. split.
  - pose proof (handleSubmit_userInput st) as U. rewrite J in U.
    rewrite andb_false_r in U.
    destruct (handleSubmit_network st) as (N & M & _).
    unfold judgedCorrect in J |- *. now rewrite U, N, M.
  - revert J. unfold judgedCorrect, handleSubmit.
    cbn [userInput networkAddress subnetMask score correctAnswers totalAttempts
         gameCompleted submissions currentResponse errorMessage
         waitingForContinue randomCalls set_attempts].
    destruct (validateIpAddress (userInput st)) as [e|n]; [discriminate|].
    destruct (isIpInNetwork (or_else n (userInput st))
                (networkAddress st) (subnetMask st)) eqn:I; [|discriminate].
    intros _.
    cbn [userInput networkAddress subnetMask score correctAnswers totalAttempts
         gameCompleted submissions currentResponse errorMessage
         waitingForContinue randomCalls set_scores].
    destruct (5 <=? correctAnswers st + 1);
      cbn [userInput networkAddress subnetMask score correctAnswers totalAttempts
           gameCompleted submissions currentResponse errorMessage
           waitingForContinue randomCalls set_attempts set_scores set_flags
           set_input record_response];
      eexists; exists (or_else n (userInput st));
      (split; [reflexivity|]); (split; [reflexivity|]); (split; [exact I|]);
      (split; [|reflexivity]).
    + reflexivity.
    + cbn [generateResponse message]. symmetry. apply append_empty.
Qed.

(** ** The history kept in [submissions] *)

Section History.

Variable random : nat -> Q.

Lemma history_submit (st : state) :
  totalAttempts st = Z.of_nat (List.length (submissions st))
  /\ score st = correctCount (Final.allSubmissions (getFinalResults st))
  /\ wellNumbered (Final.allSubmissions (getFinalResults st)) ->
  totalAttempts (handleSubmit st)
  = Z.of_nat (List.length (submissions (handleSubmit st)))
  /\ score (handleSubmit st)
     = correctCount (Final.allSubmissions (getFinalResults (handleSubmit st)))
  /\ wellNumbered (Final.allSubmissions (getFinalResults (handleSubmit st))).
Proof.
  unfold getFinalResults. cbn [Final.allSubmissions].
  intros (T & S & W).
  destruct (handleSubmit_submissions st) as (r & E & _ & C & Sc & _).
  rewrite E, map_app, handleSubmit_totalAttempts, length_app.
  cbn [map entry attemptNumber List.length].
  rewrite correctCount_snoc. cbn [Final.isCorrect entry].
  rewrite handleSubmit_score in Sc |- *. rewrite C.
  split; [lia|]. split; [destruct (judgedCorrect st); lia|].
  apply wellNumbered_snoc.
  - exact W.
  - cbn [Final.attemptNumber]. rewrite length_map. lia.
  - cbn [Final.scoreAtAttempt entry]. rewrite correctCount_snoc.
    cbn [Final.isCorrect entry]. rewrite Sc. destruct (judgedCorrect st); lia.
Qed.

Lemma history_invariant (st : state) :
  reachable random st ->
  totalAttempts st = Z.of_nat (List.length (submissions st))
  /\ score st = correctCount (Final.allSubmissions (getFinalResults st))
  /\ wellNumbered (Final.allSubmissions (getFinalResults st)).
Proof.
  induction 1 as [|e st R IH].
  - split; [reflexivity|]. split; [reflexivity|]. exact wellNumbered_nil.
  - destruct e as [text|key| | |]; cbn [handler].
    + exact IH.
    + unfold handleKeyPress.
      destruct ((key =? "Enter")%string && negb (gameCompleted st));
        [now apply history_submit | exact IH].
    + now apply history_submit.
    + unfold continueToNextQuestion.
      destruct (correctAnswers st <? 5); exact IH.
    + split; [reflexivity|]. split; [reflexivity|]. exact wellNumbered_nil.
Qed.

End History.

(** In every state the handlers reach, what [getFinalResults] reports is
    consistent with the history it lists: the number of questions attempted
    is the length of the list, the total score and the number of correct
    answers are the number of entries judged correct, the entries are
    numbered 1, 2, ... in order, and each carries as its score the number
    of entries judged correct up to and including itself. *)
Theorem getFinalResults_history :
  forall (random : nat -> Q) (st : state),
    reachable random st ->
    let results := getFinalResults st in
    Final.totalQuestionsAttempted results
    = Z.of_nat (List.length (Final.allSubmissions results))
    /\ Final.totalScore results = Final.totalCorrectAnswers results
    /\ Final.totalCorrectAnswers results
       = correctCount (Final.allSubmissions results)
    /\ wellNumbered (Final.allSubmissions results)
    /\ (forall s : Final.summary,
          In s (Final.allSubmissions results) ->
          1 <= Final.attemptNumber s <= Final.totalQuestionsAttempted results
          /\ 0 <= Final.scoreAtAttempt s <= Final.totalScore results).
Proof.
  intros random st R results.
  destruct (history_invariant random st R) as (T & S & W).
  pose proof (proj1 (reachable_invariant random st R)) as SC.
  fold results in S, W.
  assert (L : Final.totalQuestionsAttempted results
              = Z.of_nat (List.length (Final.allSubmissions results))).
  { unfold results, getFinalResults.
    cbn [Final.totalQuestionsAttempted Final.allSubmissions].
    now rewrite length_map. }
  change (Final.totalScore results) with (score st).
  change (Final.totalCorrectAnswers results) with (correctAnswers st).
  split; [exact L|]. split; [exact SC|]. split; [now rewrite <- SC|].
  split; [exact W|].
  intros s I. apply in_split in I as (pre & post & E).
  destruct (W pre s post E) as [A B]. rewrite A, B, L, S, E.
  rewrite length_app. cbn [List.length].
  replace (pre ++ s :: post)%list with ((pre ++ [s]) ++ post)%list
    by (rewrite <- app_assoc; reflexivity).
  rewrite (correctCount_app (pre ++ [s]) post).
  pose proof (correctCount_range (pre ++ [s])).
  pose proof (correctCount_range post). lia.
Qed.

Lemma getFinalResults_history_witness :
  let st :=
    handler zeros_then_halves ClickSubmit
      (handler zeros_then_halves (TypeText "0.0.0.9")
         (handler zeros_then_halves ClickSubmit
            (handler zeros_then_halves (TypeText "9.9.9.9")
               (mounted zeros_then_halves)))) in
  Final.totalQuestionsAttempted (getFinalResults st) = 2
  /\ Final.totalCorrectAnswers (getFinalResults st) = 1
  /\ wellNumbered (Final.allSubmissions (getFinalResults st)).
Proof.
  intros st.
  pose proof (reach_handler _ ClickSubmit _
                (reach_handler _ (TypeText "0.0.0.9") _
                   (reach_handler _ ClickSubmit _
                      (reach_handler _ (TypeText "9.9.9.9") _
                         (reach_mounted zeros_then_halves))))) as R.
  fold st in R.
  pose proof (getFinalResults_history zeros_then_halves st R) as H.
  split; [vm_compute; reflexivity|]. split; [vm_compute; reflexivity|].
  exact (proj1 (proj2 (proj2 (proj2 H)))).
Defined.

(** ** The question on display *)

Lemma zeros_then_halves_range (n : nat) :
  (0 <= zeros_then_halves n)%Q /\ (zeros_then_halves n < 1)%Q.
Proof.
  unfold zeros_then_halves. destruct (n <? 4)%nat; split;
    first [discriminate | reflexivity].
Qed.

Section Question.

Variable random : nat -> Q.
Hypothesis random_range : forall n : nat, (0 <= random n)%Q /\ (random n < 1)%Q.

Lemma initGame_shown (st : state) :
  (exists a b c : Z,
      wellFormed (Octets a b c 0)
      /\ networkAddress (initGame random st) = render (Octets a b c 0))
  /\ In (subnetMask (initGame random st)) commonMasks.
Proof.
  split.
  - pose proof (random_range (randomCalls st + 1)) as [A0 A1].
    pose proof (random_range (randomCalls st + 2)) as [B0 B1].
    pose proof (random_range (randomCalls st + 3)) as [C0 C1].
    pose proof (floor_scaled_range _ 256 A0 A1 ltac:(lia)) as Ra.
    pose proof (floor_scaled_range _ 256 B0 B1 ltac:(lia)) as Rb.
    pose proof (floor_scaled_range _ 256 C0 C1 ltac:(lia)) as Rc.
    exists (floor_scaled (random (randomCalls st + 1)) 256),
           (floor_scaled (random (randomCalls st + 2)) 256),
           (floor_scaled (random (randomCalls st + 3)) 256).
    split; [|reflexivity].
    unfold wellFormed, isOctet; cbn [octet0 octet1 octet2 octet3]. lia.
  - cbn [initGame subnetMask].
    destruct (random_range (randomCalls st)) as [U0 U1].
    now apply generateRandomSubnetMask_pool.
Qed.

Lemma question_invariant (st : state) :
  reachable random st ->
  (exists a b c : Z,
      wellFormed (Octets a b c 0)
      /\ networkAddress st = render (Octets a b c 0))
  /\ In (subnetMask st) commonMasks.
Proof.
  induction 1 as [|e st R IH].
  - apply initGame_shown.
  - destruct e as [text|key| | |]; cbn [handler].
    + exact IH.
    + unfold handleKeyPress.
      destruct ((key =? "Enter")%string && negb (gameCompleted st)); [|exact IH].
      destruct (handleSubmit_network st) as (N & M & _). now rewrite N, M.
    + destruct (handleSubmit_network st) as (N & M & _). now rewrite N, M.
    + unfold continueToNextQuestion.
      destruct (correctAnswers st <? 5); [apply initGame_shown | exact IH].
    + apply initGame_shown.
Qed.

End Question.

(** Whatever the draws in [0, 1), in every state the handlers reach the
    network address on display is a valid address in normal form whose
    last octet is 0, the mask on display is one of the pool and a valid
    subnet mask, and the network address itself is an answer judged
    correct: submitted, it is counted as one more correct answer, whether
    or not the game is completed. *)
Theorem question_always_answerable :
  forall (random : nat -> Q) (st : state),
    (forall n : nat, (0 <= random n)%Q /\ (random n < 1)%Q) ->
    reachable random st ->
    (exists a b c : Z,
        wellFormed (Octets a b c 0)
        /\ networkAddress st = render (Octets a b c 0))
    /\ validateIpAddress (networkAddress st) = Valid (Some (networkAddress st))
    /\ In (subnetMask st) commonMasks
    /\ validateSubnetMask (subnetMask st) = Valid None
    /\ judgedCorrect (set_input st (networkAddress st)) = true
    /\ correctAnswers (handleSubmit (set_input st (networkAddress st)))
       = correctAnswers st + 1.
Proof.
  intros random st Rg R.
  destruct (question_invariant random Rg st R) as [(a & b & c & W & E) I].
  pose proof (proj1 (commonMasks_valid _ I)) as Vm.
  pose proof (addressOf_render _ W) as HA. rewrite <- E in HA.
  assert (J : judgedCorrect (set_input st (networkAddress st)) = true).
  { apply networkAddress_judgedCorrect.
    - now exists (Octets a b c 0).
    - pose proof (validateSubnetMask_valid_address _ Vm) as Va.
      apply valid_address in Va as (M & HM & _). now exists M. }
  split; [now exists a, b, c|]. split.
  - apply validateIpAddress_address. exists (Octets a b c 0).
    split; [exact HA | congruence].
  - split; [exact I|]. split; [exact Vm|]. split; [exact J|].
    rewrite handleSubmit_correctAnswers, J. reflexivity.
Qed.

Lemma question_always_answerable_witness :
  let st :=
    handler zeros_then_halves ClickContinue
      (handler zeros_then_halves ClickSubmit
         (handler zeros_then_halves (TypeText "0.0.0.9")
            (mounted zeros_then_halves))) in
  validateIpAddress (networkAddress st) = Valid (Some (networkAddress st))
  /\ validateSubnetMask (subnetMask st) = Valid None.
Proof.
  intros st.
  pose proof (reach_handler _ ClickContinue _
                (reach_handler _ ClickSubmit _
                   (reach_handler _ (TypeText "0.0.0.9") _
                      (reach_mounted zeros_then_halves)))) as R.
  fold st in R.
  pose proof (question_always_answerable zeros_then_halves st
                zeros_then_halves_range R) as H.
  split; [exact (proj1 (proj2 H)) | exact (proj1 (proj2 (proj2 (proj2 H))))].
Defined.

(** ** The page's gating *)

Section Gating.

Variable random : nat -> Q.

Lemma pageReachable_reachable (st : state) :
  pageReachable random st -> reachable random st.
Proof.
  induction 1 as [|e st R IH E]; [apply reach_mounted | now apply reach_handler].
Qed.

Lemma orderly_quiet (st : state) :
  gameCompleted st = false -> waitingForContinue st = false ->
  0 <= correctAnswers st <= 4 -> correctAnswers st <= totalAttempts st ->
  orderly st.
Proof.
  intros G W C T. unfold orderly. rewrite G, W.
  split; [lia|]. split; [exact T|]. split; [symmetry; apply Z.leb_gt; lia|].
  split; [discriminate|]. intros [D|D]; discriminate D.
Qed.

Lemma orderly_open (st : state) :
  orderly st -> gameCompleted st = false ->
  0 <= correctAnswers st <= 4 /\ correctAnswers st <= totalAttempts st.
Proof.
  intros (C & T & G & _) G0. rewrite G0 in G. symmetry in G.
  apply Z.leb_gt in G. lia.
Qed.

Lemma orderly_submit (st : state) :
  orderly st -> gameCompleted st = false -> waitingForContinue st = false ->
  orderly (handleSubmit st).
Proof.
  intros O G W. destruct (orderly_open st O G) as [C T].
  destruct (judgedCorrect st) eqn:J.
  - destruct (handleSubmit_correct st J) as (J' & r & ip & Cr & Ir & Mem & Msg & Sub).
    destruct (handleSubmit_network st) as (N & M & _).
    assert (G' : gameCompleted (handleSubmit st) = (5 <=? correctAnswers st + 1)).
    { rewrite handleSubmit_gameCompleted, J, G. cbn [andb].
      now destruct (5 <=? correctAnswers st + 1). }
    assert (W' : waitingForContinue (handleSubmit st)
                 = negb (5 <=? correctAnswers st + 1)).
    { rewrite handleSubmit_waitingForContinue, J, W. cbn [andb].
      now destruct (5 <=? correctAnswers st + 1). }
    unfold orderly.
    rewrite handleSubmit_correctAnswers, handleSubmit_totalAttempts, J, G', W'.
    split; [lia|]. split; [lia|]. split; [reflexivity|]. split.
    + intros E. apply negb_true_iff in E. split; [exact E | lia].
    + intros _. split; [exact J'|]. exists r, ip, (submissions st).
      rewrite N, M, G', handleSubmit_totalAttempts.
      split; [exact Cr|]. split; [exact Ir|]. split; [exact Mem|].
      split; [exact Msg | exact Sub].
  - apply orderly_quiet.
    + rewrite handleSubmit_gameCompleted, J. exact G.
    + rewrite handleSubmit_waitingForContinue, J. exact W.
    + rewrite handleSubmit_correctAnswers, J. exact C.
    + rewrite handleSubmit_correctAnswers, handleSubmit_totalAttempts, J. lia.
Qed.

Lemma orderly_initGame (st : state) :
  gameCompleted st = false ->
  0 <= correctAnswers st <= 4 -> correctAnswers st <= totalAttempts st ->
  orderly (initGame random st).
Proof. intros G C T. now apply orderly_quiet. Qed.

Lemma page_invariant (st : state) : pageReachable random st -> orderly st.
Proof.
  induction 1 as [|e st R IH E].
  - apply orderly_quiet; cbn; try reflexivity; lia.
  - destruct e as [text|key| | |]; cbn [handler enabled] in *.
    + unfold inputEnabled in E.
      destruct (gameCompleted st) eqn:G; [discriminate E|].
      destruct (waitingForContinue st) eqn:W; [discriminate E|].
      destruct (orderly_open st IH G) as [C T]. now apply orderly_quiet.
    + unfold inputEnabled in E.
      destruct (gameCompleted st) eqn:G; [discriminate E|].
      destruct (waitingForContinue st) eqn:W; [discriminate E|].
      unfold handleKeyPress. rewrite G.
      destruct ((key =? "Enter")%string && negb false);
        [now apply orderly_submit | exact IH].
    + destruct (gameCompleted st) eqn:G; [discriminate E|].
      destruct (waitingForContinue st) eqn:W; [discriminate E|].
      now apply orderly_submit.
    + destruct (gameCompleted st) eqn:G; [discriminate E|].
      destruct (orderly_open st IH G) as [C T].
      unfold continueToNextQuestion.
      replace (correctAnswers st <? 5) with true
        by (symmetry; apply Z.ltb_lt; lia).
      now apply orderly_initGame.
    + apply orderly_quiet; cbn; try reflexivity; lia.
Qed.

End Gating.

(** In every state reached from the mounted page through the controls the
    page offers, the number of correct answers is between 0 and 5 and at
    most the number of attempts, and the game is completed exactly when it
    is 5.  While the page waits for Continue the game is not completed and
    the number is between 1 and 4.  While it waits, and once the game is
    completed, the text still in the input is judged correct against the
    question still on display, and the current response is the last entry
    of the history, judged correct, with the message of a correct answer,
    which ends in Game completed! exactly when the game is completed.
    The final results then report a score of 5 and list exactly 5 entries
    judged correct. *)
Theorem page_keeps_session_orderly :
  forall (random : nat -> Q) (st : state),
    pageReachable random st ->
    0 <= correctAnswers st <= 5
    /\ correctAnswers st <= totalAttempts st
    /\ (gameCompleted st = true <-> correctAnswers st = 5)
    /\ (waitingForContinue st = true ->
          gameCompleted st = false /\ 1 <= correctAnswers st <= 4)
    /\ (waitingForContinue st = true \/ gameCompleted st = true ->
          judgedCorrect st = true
          /\ exists (r : response) (ip : string) (pre : list submission),
               currentResponse st = Some r
               /\ isCorrect r = true
               /\ isIpInNetwork ip (networkAddress st) (subnetMask st) = true
               /\ message r
                  = correctMessage ip (networkAddress st) (subnetMask st)
                      (gameCompleted st)
               /\ submissions st
                  = (pre ++ [ {| entry := r;
                                 attemptNumber := totalAttempts st |} ])%list)
    /\ (gameCompleted st = true ->
          Final.totalScore (getFinalResults st) = 5
          /\ correctCount (Final.allSubmissions (getFinalResults st)) = 5).
Proof.
  intros random st R.
  destruct (page_invariant random st R) as (C & T & G & W & S).
  pose proof (pageReachable_reachable random st R) as R'.
  destruct (history_invariant random st R') as (_ & Sc & _).
  pose proof (proj1 (reachable_invariant random st R')) as SC.
  split; [exact C|]. split; [exact T|]. split; [|split; [|split]].
  - rewrite G. split; intros E.
    + apply Z.leb_le in E. lia.
    + apply Z.leb_le. lia.
  - intros E. destruct (W E) as [G0 C1]. split; [exact G0|].
    rewrite G0 in G. symmetry in G. apply Z.leb_gt in G. lia.
  - exact S.
  - intros E. rewrite E in G. symmetry in G. apply Z.leb_le in G.
    change (Final.totalScore (getFinalResults st)) with (score st).
    rewrite <- Sc, SC. lia.
Qed.

Lemma page_keeps_session_orderly_witness :
  let st :=
    handler zeros_then_halves ClickSubmit
      (handler zeros_then_halves (TypeText "0.0.0.9")
         (mounted zeros_then_halves)) in
  waitingForContinue st = true
  /\ gameCompleted st = false /\ 1 <= correctAnswers st <= 4.
Proof.
  intros st.
  assert (E1 : enabled (TypeText "0.0.0.9") (mounted zeros_then_halves) = true)
    by (vm_compute; reflexivity).
  assert (E2 : enabled ClickSubmit
                 (handler zeros_then_halves (TypeText "0.0.0.9")
                    (mounted zeros_then_halves)) = true)
    by (vm_compute; reflexivity).
  pose proof (page_event _ ClickSubmit _
                (page_event _ (TypeText "0.0.0.9") _
                   (page_mounted zeros_then_halves) E1) E2) as R.
  fold st in R.
  assert (W : waitingForContinue st = true) by (vm_compute; reflexivity).
  split; [exact W|].
  exact (proj1 (proj2 (proj2 (proj2
           (page_keeps_session_orderly zeros_then_halves st R)))) W).
Defined.

(** ** Enter on a blank input *)

Lemma trimEnd_empty (s : string) :
  trimEnd s = "" -> s = "" \/ exists c r, s = String c r /\ isWhiteSpace c = true.
Proof.
  destruct s as [|c r]; [now left|]. intros E. right. exists c, r.
  split; [reflexivity|]. simpl in E.
  destruct (isWhiteSpace c); [reflexivity|]. discriminate E.
Qed.

Lemma blank_noDot (s : string) : trim s = "" -> noDot s = true.
Proof.
  unfold trim. intros E.
  assert (T : trimStart s = "").
  { destruct (trimStart_head s) as [T|(c & r & T & Wc)]; [exact T|].
    rewrite T in E. apply trimEnd_empty in E as [E|(c' & r' & E & Wc')].
    - discriminate E.
    - injection E as <- _. congruence. }
  clear E. induction s as [|c r IH]; [reflexivity|].
  simpl in T. destruct (isWhiteSpace c) eqn:Wc; [|discriminate T].
  cbn [noDot]. rewrite (IH T), andb_true_r.
  destruct (Ascii.eqb c ".") eqn:D; [|reflexivity].
  apply Ascii.eqb_eq in D. subst c. discriminate Wc.
Qed.

Lemma validateIpAddress_blank (s : string) :
  trim s = "" ->
  validateIpAddress s
  = Invalid (if (s =? "")%string then Required else MissingOctets).
Proof.
  intros B. unfold validateIpAddress, truthy.
  destruct (s =? "")%string eqn:E; cbn [negb]; [reflexivity|].
  assert (N : normalizeIpAddress s = s).
  { unfold normalizeIpAddress, truthy. rewrite E. cbn [negb].
    change dot with "."%char. rewrite (split_noDot s (blank_noDot s B)).
    reflexivity. }
  rewrite N. change dot with "."%char.
  rewrite (split_noDot s (blank_noDot s B)). reflexivity.
Qed.

(** While the input is enabled and holds nothing but white space, the
    Submit button is disabled, so that a click on it changes nothing; but
    Enter in the input still calls [handleSubmit], which counts an attempt
    and records a submission that is not correct, with the error of the
    empty text when the input is empty and the error of a wrong number of
    octets otherwise; score and correct answers stay. *)
Theorem blank_input_submits_on_Enter :
  forall (random : nat -> Q) (st : state),
    gameCompleted st = false -> waitingForContinue st = false ->
    trim (userInput st) = "" ->
    let error :=
      error_message
        (if (userInput st =? "")%string then Required else MissingOctets) in
    let st' := dispatch random (KeyPress "Enter") st in
    enabled ClickSubmit st = false
    /\ dispatch random ClickSubmit st = st
    /\ enabled (KeyPress "Enter") st = true
    /\ st' = handleSubmit st
    /\ totalAttempts st' = totalAttempts st + 1
    /\ score st' = score st
    /\ correctAnswers st' = correctAnswers st
    /\ errorMessage st' = error
    /\ exists r : response,
         submissions st'
         = (submissions st
              ++ [ {| entry := r; attemptNumber := totalAttempts st + 1 |} ])%list
         /\ currentResponse st' = Some r
         /\ isCorrect r = false
         /\ message r = "Validation error: " ++ error.
Proof.
  intros random st G W B error st'.
  pose proof (validateIpAddress_blank _ B) as V.
  assert (ES : enabled ClickSubmit st = false).
  { cbn [enabled]. rewrite G, W, B. reflexivity. }
  assert (EK : enabled (KeyPress "Enter") st = true).
  { cbn [enabled]. unfold inputEnabled. now rewrite G, W. }
  assert (D : st' = handleSubmit st).
  { unfold st', dispatch. rewrite EK. cbn [handler]. unfold handleKeyPress.
    now rewrite G. }
  assert (J : judgedCorrect st = false).
  { unfold judgedCorrect. now rewrite V. }
  destruct (handleSubmit_invalid st _ V) as (r & Sub & Cr & Ir & Msg & _ & Err).
  split; [exact ES|]. split; [unfold dispatch; now rewrite ES|].
  split; [exact EK|]. split; [exact D|]. rewrite D.
  rewrite handleSubmit_totalAttempts, handleSubmit_score,
    handleSubmit_correctAnswers, J.
  split; [reflexivity|]. split; [reflexivity|]. split; [reflexivity|].
  split; [exact Err|]. exists r.
  split; [exact Sub|]. split; [exact Cr|]. split; [exact Ir | exact Msg].
Qed.

Lemma blank_input_submits_on_Enter_witness :
  let st := handler zeros_then_halves (TypeText "  ") (mounted zeros_then_halves) in
  enabled ClickSubmit st = false
  /\ totalAttempts (dispatch zeros_then_halves (KeyPress "Enter") st) = 1
  /\ errorMessage (dispatch zeros_then_halves (KeyPress "Enter") st)
     = "IP address must contain exactly 4 octets".
Proof.
  intros st.
  assert (G : gameCompleted st = false) by reflexivity.
  assert (W : waitingForContinue st = false) by reflexivity.
  assert (B : trim (userInput st) = "") by (vm_compute; reflexivity).
  pose proof (blank_input_submits_on_Enter zeros_then_halves st G W B) as H.
  cbv zeta in H.
  destruct H as (H1 & _ & _ & _ & H5 & _ & _ & H8 & _).
  split; [exact H1|]. split; [exact H5 | exact H8].
Defined.

End Page.

(* ================================================================== *)
(** * The explanation and the judgement *)
(* ================================================================== *)

Module Explanation.
Import JS IpUtils Spec JSFacts ValidationFacts BitFacts AddressFacts BinaryFacts.
Import Codec Evaluator Generator Conversions.

Lemma ipToBinary_render_inj (A B : IPv4Address) :
  wellFormed A -> wellFormed B ->
  ipToBinary (render A) = ipToBinary (render B) -> render A = render B.
Proof.
  intros WA WB E.
  rewrite <- (binaryToIp_address _ _ (addressOf_render A WA)).
  rewrite <- (binaryToIp_address _ _ (addressOf_render B WB)).
  now rewrite E.
Qed.

(** On valid texts, the test that guards the paragraph of the explanation
    saying that the two network IDs do not match holds exactly when
    [isIpInNetwork] rejects the address, and exactly when the two IDs the
    explanation prints differ, as decimal texts and as binary texts: the
    paragraph is never printed about two equal IDs, and never left out
    when they differ. *)
Theorem explainNetworkMismatch_problem_shown :
  forall ip networkAddress subnetMask : string,
    valid (validateIpAddress ip) = true ->
    valid (validateIpAddress networkAddress) = true ->
    valid (validateIpAddress subnetMask) = true ->
    let m := mismatchOf ip networkAddress subnetMask in
    let shown := negb (strict_eq (ipNetworkId m) (expectedNetworkId m)) in
    (shown = true <-> isIpInNetwork ip networkAddress subnetMask = false)
    /\ (shown = true
        <-> intToIp (ipNetworkId m) <> intToIp (expectedNetworkId m))
    /\ (shown = true <-> ipNetworkIdBinary m <> expectedNetworkIdBinary m).
Proof.
  intros ip net mask Va Vn Vm m shown.
  apply valid_address in Va as (A & HA & WA & _).
  apply valid_address in Vn as (N & HN & WN & _).
  apply valid_address in Vm as (M & HM & WM & _).
  destruct (mismatchOf_address ip net mask A N M HA HN HM)
    as (En & Ea & _).
  fold m in En, Ea.
  assert (S : shown = negb (isIpInNetwork ip net mask)) by reflexivity.
  pose proof (isIpInNetwork_address _ _ _ _ _ _ HA HN HM) as I.
  pose proof (land_uint32 _ (toInt M) (toInt_uint32 A WA)) as UA.
  pose proof (land_uint32 _ (toInt M) (toInt_uint32 N WN)) as UN.
  set (x := Z.land (toInt A) (toInt M)) in *.
  set (y := Z.land (toInt N) (toInt M)) in *.
  assert (B : ipNetworkIdBinary m = ipToBinary (render (fromInt x))
              /\ expectedNetworkIdBinary m = ipToBinary (render (fromInt y))).
  { split; [rewrite <- Ea | rewrite <- En]; reflexivity. }
  destruct B as [Ba Bn]. rewrite Ea, En, Ba, Bn, S, I.
  split; [|split].
  - apply negb_true_iff.
  - rewrite negb_true_iff, Z.eqb_neq. split.
    + intros D E. apply D. now apply render_fromInt_inj.
    + intros D E. apply D. now rewrite E.
  - rewrite negb_true_iff, Z.eqb_neq. split.
    + intros D E. apply D. apply render_fromInt_inj; [exact UA | exact UN|].
      apply ipToBinary_render_inj; [apply wellFormed_fromInt .. | exact E].
    + intros D E. apply D. now rewrite E.
Qed.

Lemma explainNetworkMismatch_problem_shown_witness :
  let m := mismatchOf "10.0.1.5" "10.0.0.0" "255.255.255.0" in
  intToIp (ipNetworkId m) <> intToIp (expectedNetworkId m).
Proof.
  intros m.
  assert (Va : valid (validateIpAddress "10.0.1.5") = true)
    by (vm_compute; reflexivity).
  assert (Vn : valid (validateIpAddress "10.0.0.0") = true)
    by (vm_compute; reflexivity).
  assert (Vm : valid (validateIpAddress "255.255.255.0") = true)
    by (vm_compute; reflexivity).
  assert (S : negb (strict_eq (ipNetworkId m) (expectedNetworkId m)) = true)
    by (vm_compute; reflexivity).
  exact (proj1 (proj1 (proj2 (explainNetworkMismatch_problem_shown
                                "10.0.1.5" "10.0.0.0" "255.255.255.0" Va Vn Vm)))
           S).
Defined.

End Explanation.
